(** * k8s-resource-mapper: relationship discovery, aggregation and rendering

    A shallow embedding of the Go sources under [src-modular/internal]
    (packages [types], [common], [mapper], [visualizer], [utils]) and of the
    older single-file processors, with the properties of the design
    document proved, amended, or refuted against them.

    Conventions.
    - Go [string] is [string]; [int32] is [Z]; [map[string]string] and
      [map[string]bool] are [gmap string _]; slices are lists, [append]
      adds at the end.
    - A possibly-nil pointer or map is an [option].
    - A processor's [resources] and [relations] slices are threaded
      explicitly; every [addResource]/[addRelationship] is atomic under
      the processor's mutex, so a goroutine body is modelled as the
      sequence of its own appends.
    - The Kubernetes API (client-go) is an external collaborator: it is
      modelled by a finite [Cluster] that answers [List] and [Get]. *)

From Stdlib Require Import Ascii.
From stdpp Require Import gmap strings list sorting pretty.

Local Open Scope string_scope.
Local Open Scope Z_scope.
Local Open Scope list_scope.

(** ** Go runtime helpers *)

(** [error]: a Go error value is represented by its message. *)
Definition error := string.

(** [strings.Join(elems, sep)]. *)
Fixpoint Join (elems : list string) (sep : string) : string :=
  match elems with
  | [] => ""
  | [s] => s
  | s :: rest => s +:+ sep +:+ Join rest sep
  end.

(** [strings.Repeat(s, count)]. *)
Fixpoint Repeat (s : string) (count : nat) : string :=
  match count with
  | O => ""
  | S n => s +:+ Repeat s n
  end.

(** The verb [%d] of [fmt.Sprintf] applied to an [int32]. *)
Definition fmt_d (n : Z) : string := pretty n.

(** [strings.Repeat(s, count)] with an [int] count: a negative count is a
    run-time panic ([None]). *)
Definition RepeatInt (s : string) (count : Z) : option string :=
  if decide (count < 0) then None else Some (Repeat s (Z.to_nat count)).

(** Package [strings] of the Go library, on byte strings. *)

Module strings.

(** [strings.HasPrefix(s, prefix)] *)
Fixpoint HasPrefix (s prefix : string) : bool :=
  match prefix, s with
  | "", _ => true
  | String c prefix', String d s' => bool_decide (c = d) && HasPrefix s' prefix'
  | String _ _, "" => false
  end.

(** [strings.HasSuffix(s, suffix)]: some tail of [s] is [suffix]. *)
Fixpoint HasSuffix (s suffix : string) : bool :=
  bool_decide (s = suffix) ||
  match s with
  | "" => false
  | String _ s' => HasSuffix s' suffix
  end.

(** [strings.Contains(s, substr)]: [substr] starts at some index of [s]. *)
Fixpoint Contains (s substr : string) : bool :=
  HasPrefix s substr ||
  match s with
  | "" => false
  | String _ s' => Contains s' substr
  end.

(** [s[n:]] and [s[:n]] for [n <= len(s)] *)
Fixpoint sliceFrom (n : nat) (s : string) : string :=
  match n, s with
  | S n', String _ s' => sliceFrom n' s'
  | _, _ => s
  end.

Fixpoint sliceTo (n : nat) (s : string) : string :=
  match n, s with
  | S n', String c s' => String c (sliceTo n' s')
  | _, _ => ""
  end.

(** [strings.TrimPrefix(s, prefix)] *)
Definition TrimPrefix (s prefix : string) : string :=
  if HasPrefix s prefix then sliceFrom (String.length prefix) s else s.

(** [strings.TrimSuffix(s, suffix)] *)
Definition TrimSuffix (s suffix : string) : string :=
  if HasSuffix s suffix then sliceTo (String.length s - String.length suffix) s else s.

(** [strings.Trim(s, cutset)] for a cutset of one ASCII character [c]:
    all leading and all trailing [c] are removed. *)
Fixpoint trimLeftByte (s : string) (c : Ascii.ascii) : string :=
  match s with
  | "" => ""
  | String d s' => if decide (d = c) then trimLeftByte s' c else s
  end.

Fixpoint trimRightByte (s : string) (c : Ascii.ascii) : string :=
  match s with
  | "" => ""
  | String d s' =>
      match trimRightByte s' c with
      | "" => if decide (d = c) then "" else String d ""
      | t => String d t
      end
  end.

Definition Trim (s : string) (c : Ascii.ascii) : string :=
  trimLeftByte (trimRightByte s c) c.

End strings.

(** ** Kubernetes API objects

    Only the fields read by the modelled code are kept. *)

Module ServicePort.
(** [intstr.IntOrString]: an integer ([IntVal]) or a port name
    ([StrVal], with [IntVal] left at zero). *)
Record IntOrString := { IsString : bool; IntVal : Z; StrVal : string }.
Record t := {
  Port : Z;
  TargetPort : IntOrString;
  Protocol : string;
  NodePort : Z;
}.
End ServicePort.

Module PodSpec.
(** [corev1.Volume]: the name of the ConfigMap of a ConfigMap volume,
    [None] when [volume.ConfigMap] is nil. *)
Record Volume := { VolumeConfigMap : option string }.
(** [corev1.EnvFromSource]: [ConfigMapRef.Name], [None] for a nil
    [ConfigMapRef]. *)
Record EnvFromSource := { ConfigMapRef : option string }.
(** [corev1.EnvVar]: [ValueFrom.ConfigMapKeyRef.Name], [None] when
    [ValueFrom] or [ConfigMapKeyRef] is nil. *)
Record EnvVar := { ConfigMapKeyRef : option string }.
Record Container := { EnvFrom : list EnvFromSource; Env : list EnvVar }.
(** [corev1.PodSpec], the [Spec] of a pod and of a pod template *)
Record t := { Volumes : list Volume; Containers : list Container }.
End PodSpec.

Module Pod.
Record t := {
  Name : string;
  Namespace : string;
  Labels : gmap string string;
  Spec : PodSpec.t;
  (** [Status.Phase] *)
  Phase : string;
  (** the [Status] of the first [PodReady] condition, when there is one *)
  ReadyCondition : option string;
}.
End Pod.

Module Service.
Record t := {
  Name : string;
  Namespace : string;
  Labels : gmap string string;
  (** [Spec.Selector]; [None] is the nil map *)
  Selector : option (gmap string string);
  Ports : list ServicePort.t;
  Type_ : string;
  ClusterIP : string;
  (** [Status.LoadBalancer.Ingress]: the [IP] and [Hostname] of each entry *)
  LoadBalancer : list (string * string);
}.
End Service.

Module Secret.
Record t := {
  Name : string;
  Namespace : string;
  Labels : gmap string string;
}.
End Secret.

Module ConfigMap.
Record t := {
  Name : string;
  Namespace : string;
  Labels : gmap string string;
  Data : gmap string string;
  BinaryData : gmap string (list Byte.byte);
}.
End ConfigMap.

Module Ingress.
(** [networkingv1.IngressServiceBackend] *)
Record ServiceBackend := { BackendName : string; PortNumber : Z }.
(** [networkingv1.HTTPIngressPath]; [BackendService = None] is a nil
    [Backend.Service] (a resource backend). *)
Record HTTPPath := { Path : string; BackendService : option ServiceBackend }.
(** [networkingv1.IngressRule]; [HTTP = None] is a nil [rule.HTTP]. *)
Record Rule := { Host : string; HTTP : option (list HTTPPath) }.
Record TLS := { Hosts : list string; SecretName : string }.
Record t := {
  Name : string;
  Namespace : string;
  Labels : gmap string string;
  (** [Spec.DefaultBackend] with a non-nil [Service] *)
  DefaultBackendService : option ServiceBackend;
  Rules : list Rule;
  SpecTLS : list TLS;
  IngressClassName : option string;
  (** [Status.LoadBalancer.Ingress]: the [IP] and [Hostname] of each entry *)
  LoadBalancer : list (string * string);
}.
End Ingress.

Module IngressClass.
Record t := {
  Name : string;
  Labels : gmap string string;
  (** [Spec.Controller] *)
  Controller : string;
}.
End IngressClass.

Module Deployment.
Record t := {
  Name : string;
  Namespace : string;
  Labels : gmap string string;
  (** [*Spec.Replicas]: the API server defaults the field, so the
      pointer is never nil in an object it returns *)
  Replicas : Z;
  ReadyReplicas : Z;
  (** [Spec.Template.Spec] *)
  Template : PodSpec.t;
}.
End Deployment.

(** ** Package types *)

Module types.

Definition ResourceType := string.
Definition ResourceTypeNamespace : ResourceType := "Namespace".
Definition ResourceTypePod : ResourceType := "Pod".
Definition ResourceTypeService : ResourceType := "Service".
Definition ResourceTypeIngress : ResourceType := "Ingress".
Definition ResourceTypeConfigMap : ResourceType := "ConfigMap".
Definition ResourceTypeDeployment : ResourceType := "Deployment".
Definition ResourceTypeHPA : ResourceType := "HPA".
Definition ResourceTypeSecret : ResourceType := "Secret".

Definition RelationshipType := string.
Definition RelationshipTypeOwns : RelationshipType := "owns".
Definition RelationshipTypeUses : RelationshipType := "uses".
Definition RelationshipTypeExposes : RelationshipType := "exposes".
Definition RelationshipTypeTargets : RelationshipType := "targets".
Definition RelationshipTypeProvides : RelationshipType := "provides".

Record ResourceStatus := { Phase : string; Ready : bool; Details : string }.

(** [Data interface{}]: the dynamic type matters to the renderer's type
    assertions, which name value types; processors store values for
    range variables and pointers for objects returned by [Get]. *)
Inductive Payload :=
| NoData
| PodValue (p : Pod.t)
| ServiceValue (s : Service.t)
| ServicePtr (s : Service.t)
| IngressValue (i : Ingress.t)
| IngressPtr (i : Ingress.t)
| DeploymentValue (d : Deployment.t)
| DeploymentPtr (d : Deployment.t)
| ConfigMapValue (c : ConfigMap.t)
| ConfigMapPtr (c : ConfigMap.t)
| SecretPtr (s : Secret.t)
| IngressClassPtr (k : IngressClass.t).

(** [Resource], with the [Status] that the processors fill in; its
    [Metrics] are written by the processors and never read, and are left
    out. *)
Record Resource := {
  Type_ : ResourceType;
  Name : string;
  Namespace : string;
  Labels : gmap string string;
  Data : Payload;
  Status : ResourceStatus;
}.

Record Relationship := {
  Source : Resource;
  Target : Resource;
  RelType : RelationshipType;
  Description : string;
}.

Record ResourceMapping := {
  Resources : list Resource;
  Relationships : list Relationship;
}.

(** The zero value of [ResourceStatus]. *)
Definition noStatus : ResourceStatus :=
  {| Phase := ""; Ready := false; Details := "" |}.

(** The identity triple of a resource. *)
Definition identity (r : Resource) : string * string * string :=
  (Type_ r, Namespace r, Name r).

End types.

(** ** The cluster behind the client

    [client.K8sClient] wraps a client-go clientset. Its answers are
    modelled by a finite [Cluster]: the objects it stores and the requests
    it refuses. Objects returned by the API server carry the namespace
    they were asked in, and names are unique per kind and namespace. *)

Module client.

(** The [LabelSelector] string of [metav1.ListOptions], in structured
    form. *)
Inductive Selector :=
| SelEverything
    (** the empty string: no restriction *)
| SelNoneLiteral
    (** the text ["<none>"], which is what [metav1.FormatLabelSelector]
        prints for a selector without requirements; it is not a valid
        selector and the server rejects the request *)
| SelEquals (m : gmap string string)
    (** ["k1=v1,k2=v2,..."] *).

(** [metav1.FormatLabelSelector(&metav1.LabelSelector{MatchLabels: m})] *)
Definition FormatLabelSelector (m : gmap string string) : Selector :=
  if decide (m = ∅) then SelNoneLiteral else SelEquals m.

(** A request sent to the API server. *)
Inductive Request :=
| ReqList (kind namespace : string) (sel : Selector)
| ReqGet (kind namespace name : string).

Record Cluster := {
  Namespaces : list string;
  Pods : list Pod.t;
  Services : list Service.t;
  Ingresses : list Ingress.t;
  Deployments : list Deployment.t;
  ConfigMaps : list ConfigMap.t;
  Secrets : list Secret.t;
  IngressClasses : list IngressClass.t;
  (** [Refused kind namespace]: the error with which every request for
      that kind in that namespace fails (forbidden, unavailable, ...) *)
  Refused : string → string → option error;
}.

(** Equality-based selection: every [k=v] requirement holds of the
    labels. *)
Definition selects (sel : Selector) (labels : gmap string string) : bool :=
  match sel with
  | SelEverything => true
  | SelNoneLiteral => false
  | SelEquals m => bool_decide (map_Forall (λ k v, labels !! k = Some v) m)
  end.

Definition notFound (kind name : string) : error :=
  kind +:+ " " +:+ name +:+ " not found".

Definition ListPods (c : Cluster) (ns : string) (sel : Selector)
  : error + list Pod.t :=
  match Refused c "pods" ns with
  | Some e => inl e
  | None =>
      match sel with
      | SelNoneLiteral => inl "unable to parse requirement"
      | _ => inr (filter (λ p, Pod.Namespace p = ns ∧ selects sel (Pod.Labels p) = true)
                         (Pods c))
      end
  end.

Definition ListServices (c : Cluster) (ns : string) : error + list Service.t :=
  match Refused c "services" ns with
  | Some e => inl e
  | None => inr (filter (λ s, Service.Namespace s = ns) (Services c))
  end.

Definition ListIngresses (c : Cluster) (ns : string) : error + list Ingress.t :=
  match Refused c "ingresses" ns with
  | Some e => inl e
  | None => inr (filter (λ i, Ingress.Namespace i = ns) (Ingresses c))
  end.

Definition ListDeployments (c : Cluster) (ns : string) : error + list Deployment.t :=
  match Refused c "deployments" ns with
  | Some e => inl e
  | None => inr (filter (λ d, Deployment.Namespace d = ns) (Deployments c))
  end.

Definition GetService (c : Cluster) (ns name : string) : error + Service.t :=
  match Refused c "services" ns with
  | Some e => inl e
  | None =>
      match list_find (λ s, Service.Namespace s = ns ∧ Service.Name s = name) (Services c) with
      | Some (_, s) => inr s
      | None => inl (notFound "services" name)
      end
  end.

Definition GetSecret (c : Cluster) (ns name : string) : error + Secret.t :=
  match Refused c "secrets" ns with
  | Some e => inl e
  | None =>
      match list_find (λ s, Secret.Namespace s = ns ∧ Secret.Name s = name) (Secrets c) with
      | Some (_, s) => inr s
      | None => inl (notFound "secrets" name)
      end
  end.

Definition GetConfigMap (c : Cluster) (ns name : string) : error + ConfigMap.t :=
  match Refused c "configmaps" ns with
  | Some e => inl e
  | None =>
      match list_find (λ m, ConfigMap.Namespace m = ns ∧ ConfigMap.Name m = name)
                      (ConfigMaps c) with
      | Some (_, m) => inr m
      | None => inl (notFound "configmaps" name)
      end
  end.

Definition ListConfigMaps (c : Cluster) (ns : string) : error + list ConfigMap.t :=
  match Refused c "configmaps" ns with
  | Some e => inl e
  | None => inr (filter (λ m, ConfigMap.Namespace m = ns) (ConfigMaps c))
  end.

(** Namespaces are cluster-scoped: the namespace of the request is
    empty. *)
Definition ListNamespaces (c : Cluster) : error + list string :=
  match Refused c "namespaces" "" with
  | Some e => inl e
  | None => inr (Namespaces c)
  end.

Definition GetNamespace (c : Cluster) (name : string) : error + string :=
  match Refused c "namespaces" "" with
  | Some e => inl e
  | None =>
      match list_find (λ n, n = name) (Namespaces c) with
      | Some (_, n) => inr n
      | None => inl (notFound "namespaces" name)
      end
  end.

(** IngressClasses are cluster-scoped: the namespace is empty. *)
Definition GetIngressClass (c : Cluster) (name : string) : error + IngressClass.t :=
  match Refused c "ingressclasses" "" with
  | Some e => inl e
  | None =>
      match list_find (λ k, IngressClass.Name k = name) (IngressClasses c) with
      | Some (_, k) => inr k
      | None => inl (notFound "ingressclasses" name)
      end
  end.

End client.

(** ** Processor state

    A processor owns the slices [resources] and [relations]. [requests] is
    a ghost log of what the processor asked the API server, in order. A Go
    method returning [error] becomes a computation in [M unit]: [Err] is
    the non-nil error, and the state written before the error stays
    written. *)

Record Processor := {
  resources : list types.Resource;
  relations : list types.Relationship;
  requests : list client.Request;
}.

Definition newProcessor : Processor :=
  {| resources := []; relations := []; requests := [] |}.

Inductive outcome (A : Type) :=
| Ok (a : A)
| Err (e : error).
Arguments Ok {A} a.
Arguments Err {A} e.

Definition M (A : Type) : Type := Processor → outcome A * Processor.

Definition ret {A} (a : A) : M A := λ p, (Ok a, p).

Definition fail {A} (e : error) : M A := λ p, (Err e, p).

Definition bind {A B} (m : M A) (k : A → M B) : M B :=
  λ p, match m p with
       | (Ok a, p') => k a p'
       | (Err e, p') => (Err e, p')
       end.

Declare Scope proc_scope.
Delimit Scope proc_scope with proc.
Notation "x <- m ;; k" := (bind m (λ x, k))
  (at level 100, m at next level, right associativity) : proc_scope.
Notation "m ;; k" := (bind m (λ _, k))
  (at level 100, right associativity) : proc_scope.
Local Open Scope proc_scope.

(** A [for ... range] loop whose body may return an error and which
    carries local variables [b] from one iteration to the next. *)
Fixpoint foldM {A B} (body : B → A → M B) (b : B) (l : list A) : M B :=
  match l with
  | [] => ret b
  | x :: l' => b' <- body b x ;; foldM body b' l'
  end.

Definition forM {A} (l : list A) (body : A → M unit) : M unit :=
  foldM (λ _ x, body x) tt l.

(** [p.addResource(resource)] *)
Definition addResource (r : types.Resource) : M unit :=
  λ p, (Ok tt, {| resources := (resources p ++ [r])%list;
                  relations := relations p;
                  requests := requests p |}).

(** [p.addRelationship(rel)] *)
Definition addRelationship (rel : types.Relationship) : M unit :=
  λ p, (Ok tt, {| resources := resources p;
                  relations := (relations p ++ [rel])%list;
                  requests := requests p |}).

(** A call into the clientset: the request is logged and the answer, an
    error or a value, is handed to the caller. *)
Definition call {A} (req : client.Request) (answer : error + A) : M (error + A) :=
  λ p, (Ok answer, {| resources := resources p;
                      relations := relations p;
                      requests := (requests p ++ [req])%list |}).

(** ** Package mapper: the Ingress processor
    ([mapper/deployment-processor.go], second half) *)

Module IngressProcessor.
Import types.

(** [getIngressStatus] *)
Definition getIngressStatus (ing : Ingress.t) : ResourceStatus :=
  let details :=
    if decide (0 < length (Ingress.SpecTLS ing))%nat then "TLS Enabled" else "" in
  let addresses :=
    flat_map (λ '(ip, hostname),
                ((if decide (ip = "") then [] else [ip]) ++
                 (if decide (hostname = "") then [] else [hostname]))%list)
             (Ingress.LoadBalancer ing) in
  let details :=
    if decide (0 < length (Ingress.LoadBalancer ing))%nat then
      if decide (0 < length addresses)%nat
      then details +:+ ", LoadBalancer: " +:+ Join addresses ", "
      else details
    else details in
  {| Phase := "Active"; Ready := true; Details := details |}.

(** [processTLSSecrets] *)
Definition processTLSSecrets (c : client.Cluster) (ing : Ingress.t)
    (ingResource : Resource) : M unit :=
  forM (Ingress.SpecTLS ing) (λ tls,
    if decide (Ingress.SecretName tls = "") then ret tt
    else
      r <- call (client.ReqGet "secrets" (Ingress.Namespace ing) (Ingress.SecretName tls))
                (client.GetSecret c (Ingress.Namespace ing) (Ingress.SecretName tls)) ;;
      match r with
      | inl _ => ret tt
      | inr secret =>
          let secretResource :=
            {| Type_ := ResourceTypeSecret;
               Name := Secret.Name secret;
               Namespace := Secret.Namespace secret;
               Labels := Secret.Labels secret;
               Data := SecretPtr secret;
               Status := {| Phase := "Active"; Ready := true;
                            Details := "TLS secret for hosts: " +:+
                                       Join (Ingress.Hosts tls) ", " |} |} in
          addResource secretResource ;;
          addRelationship
            {| Source := ingResource;
               Target := secretResource;
               RelType := RelationshipTypeUses;
               Description := "uses for TLS: " +:+ Join (Ingress.Hosts tls) ", " |}
      end).

(** [processService]: a single backend service. *)
Definition processService (c : client.Cluster) (namespace : string)
    (backend : Ingress.ServiceBackend) (ingResource : Resource)
    (description : string) : M unit :=
  r <- call (client.ReqGet "services" namespace (Ingress.BackendName backend))
            (client.GetService c namespace (Ingress.BackendName backend)) ;;
  match r with
  | inl _ => ret tt
  | inr svc =>
      let svcResource :=
        {| Type_ := ResourceTypeService;
           Name := Service.Name svc;
           Namespace := Service.Namespace svc;
           Labels := Service.Labels svc;
           Data := ServicePtr svc;
           Status := {| Phase := "Active"; Ready := true;
                        Details := "Port: " +:+ fmt_d (Ingress.PortNumber backend) |} |} in
      addResource svcResource ;;
      addRelationship
        {| Source := ingResource;
           Target := svcResource;
           RelType := RelationshipTypeExposes;
           Description := description |}
  end.

(** [processedServices[name]]: a missing key reads as [false]. *)
Definition isProcessed (processedServices : gmap string bool) (name : string) : bool :=
  default false (processedServices !! name).

(** The body of the inner loop of [processBackendServices]. *)
Definition processPath (c : client.Cluster) (ing : Ingress.t)
    (ingResource : Resource) (rule : Ingress.Rule)
    (processedServices : gmap string bool) (path : Ingress.HTTPPath)
    : M (gmap string bool) :=
  match Ingress.BackendService path with
  | None => ret processedServices
  | Some backend =>
      if isProcessed processedServices (Ingress.BackendName backend)
      then ret processedServices
      else
        let description :=
          "host: " +:+ Ingress.Host rule +:+ ", path: " +:+ Ingress.Path path in
        processService c (Ingress.Namespace ing) backend ingResource description ;;
        ret (<[Ingress.BackendName backend := true]> processedServices)
  end.

(** The body of the outer loop of [processBackendServices]. *)
Definition processRule (c : client.Cluster) (ing : Ingress.t)
    (ingResource : Resource) (processedServices : gmap string bool)
    (rule : Ingress.Rule) : M (gmap string bool) :=
  match Ingress.HTTP rule with
  | None => ret processedServices
  | Some paths => foldM (processPath c ing ingResource rule) processedServices paths
  end.

(** [processBackendServices] *)
Definition processBackendServices (c : client.Cluster) (ing : Ingress.t)
    (ingResource : Resource) : M unit :=
  processedServices <-
    match Ingress.DefaultBackendService ing with
    | Some backend =>
        processService c (Ingress.Namespace ing) backend ingResource "default backend" ;;
        ret (<[Ingress.BackendName backend := true]> (∅ : gmap string bool))
    | None => ret ∅
    end ;;
  foldM (processRule c ing ingResource) processedServices (Ingress.Rules ing) ;;
  ret tt.

(** [processIngressClass]; the resource type constant
    [ResourceTypeIngressClass] is not declared in package [types] and is
    taken as a parameter. *)
Definition processIngressClass (ResourceTypeIngressClass : ResourceType)
    (c : client.Cluster) (ing : Ingress.t) (ingResource : Resource) : M unit :=
  match Ingress.IngressClassName ing with
  | None => ret tt
  | Some name =>
      r <- call (client.ReqGet "ingressclasses" "" name) (client.GetIngressClass c name) ;;
      match r with
      | inl _ => ret tt
      | inr ingressClass =>
          let classResource :=
            {| Type_ := ResourceTypeIngressClass;
               Name := IngressClass.Name ingressClass;
               Namespace := "";
               Labels := IngressClass.Labels ingressClass;
               Data := IngressClassPtr ingressClass;
               Status := {| Phase := "Active"; Ready := true;
                            Details := "Controller: " +:+
                                       IngressClass.Controller ingressClass |} |} in
          addResource classResource ;;
          addRelationship
            {| Source := ingResource;
               Target := classResource;
               RelType := RelationshipTypeUses;
               Description := "uses ingress class" |}
      end
  end.

(** The resource built at the head of [processIngress]. *)
Definition ingressResource (ing : Ingress.t) : Resource :=
  {| Type_ := ResourceTypeIngress;
     Name := Ingress.Name ing;
     Namespace := Ingress.Namespace ing;
     Labels := Ingress.Labels ing;
     Data := IngressPtr ing;
     Status := getIngressStatus ing |}.

(** [processIngress] *)
Definition processIngress (ResourceTypeIngressClass : ResourceType)
    (c : client.Cluster) (ing : Ingress.t) : M unit :=
  let ingResource := ingressResource ing in
  addResource ingResource ;;
  processTLSSecrets c ing ingResource ;;
  processBackendServices c ing ingResource ;;
  processIngressClass ResourceTypeIngressClass c ing ingResource.

End IngressProcessor.

(** ** Package mapper: the Service processor
    ([mapper/service-processor.go]) *)

(** [isPodReady] *)
Definition isPodReady (pod : Pod.t) : bool :=
  match Pod.ReadyCondition pod with
  | Some status => bool_decide (status = "True")
  | None => false
  end.

Module ServiceProcessor.
Import types.

(** [getLoadBalancerAddress] *)
Definition getLoadBalancerAddress (svc : Service.t) : string :=
  match Service.LoadBalancer svc with
  | (ip, hostname) :: _ =>
      if decide (ip = "") then
        if decide (hostname = "") then "pending" else hostname
      else ip
  | [] => "pending"
  end.

(** [getNodePorts] *)
Definition getNodePorts (svc : Service.t) : string :=
  let ports :=
    foldl (λ ports port,
             if decide (ServicePort.NodePort port > 0)
             then (ports ++ [fmt_d (ServicePort.NodePort port)])%list
             else ports)
          [] (Service.Ports svc) in
  Join ports ", ".

(** [getServiceStatus] *)
Definition getServiceStatus (svc : Service.t) : ResourceStatus :=
  if decide (Service.Type_ svc = "LoadBalancer") then
    if decide (0 < length (Service.LoadBalancer svc))%nat
    then {| Phase := "Active"; Ready := true;
            Details := "LoadBalancer: " +:+ getLoadBalancerAddress svc |}
    else {| Phase := "Pending"; Ready := false;
            Details := "Waiting for LoadBalancer" |}
  else if decide (Service.Type_ svc = "NodePort") then
    {| Phase := "Active"; Ready := true;
       Details := "NodePorts: " +:+ getNodePorts svc |}
  else if decide (Service.Type_ svc = "ClusterIP") then
    {| Phase := "Active"; Ready := true;
       Details := "ClusterIP: " +:+ Service.ClusterIP svc |}
  else {| Phase := "Active"; Ready := true; Details := "" |}.

(** One entry of [formatPorts]:
    [fmt.Sprintf("%d→%d/%s", port.Port, port.TargetPort.IntVal, port.Protocol)] *)
Definition formatPort (port : ServicePort.t) : string :=
  fmt_d (ServicePort.Port port) +:+ "→" +:+
  fmt_d (ServicePort.IntVal (ServicePort.TargetPort port)) +:+ "/" +:+
  ServicePort.Protocol port.

(** [formatPorts] *)
Definition formatPorts (ports : list ServicePort.t) : string :=
  let portStr :=
    foldl (λ portStr port, (portStr ++ [formatPort port])%list) [] ports in
  Join portStr ", ".

(** The resource built at the head of [processService]. *)
Definition serviceResource (svc : Service.t) : Resource :=
  {| Type_ := ResourceTypeService;
     Name := Service.Name svc;
     Namespace := Service.Namespace svc;
     Labels := Service.Labels svc;
     Data := ServicePtr svc;
     Status := getServiceStatus svc |}.

(** The pod resource built in the loop of [processPods]. *)
Definition podResource (pod : Pod.t) : Resource :=
  {| Type_ := ResourceTypePod;
     Name := Pod.Name pod;
     Namespace := Pod.Namespace pod;
     Labels := Pod.Labels pod;
     Data := PodValue pod;
     Status := {| Phase := Pod.Phase pod; Ready := isPodReady pod;
                  Details := "" |} |}.

(** [processPods] *)
Definition processPods (c : client.Cluster) (svc : Service.t)
    (svcResource : Resource) : M unit :=
  match Service.Selector svc with
  | None => ret tt
  | Some matchLabels =>
      let selector := client.FormatLabelSelector matchLabels in
      r <- call (client.ReqList "pods" (Service.Namespace svc) selector)
                (client.ListPods c (Service.Namespace svc) selector) ;;
      match r with
      | inl err => fail ("failed to list pods: " +:+ err)
      | inr pods =>
          forM pods (λ pod,
            addResource (podResource pod) ;;
            addRelationship
              {| Source := svcResource;
                 Target := podResource pod;
                 RelType := RelationshipTypeTargets;
                 Description := "routes traffic to pod: " +:+
                                formatPorts (Service.Ports svc) |})
      end
  end.

(** [isServiceReferencedByIngress] *)
Definition isServiceReferencedByIngress (ing : Ingress.t) (serviceName : string) : bool :=
  existsb (λ rule,
    match Ingress.HTTP rule with
    | Some paths =>
        existsb (λ path,
          match Ingress.BackendService path with
          | Some backend => bool_decide (Ingress.BackendName backend = serviceName)
          | None => false
          end) paths
    | None => false
    end) (Ingress.Rules ing).

(** [formatIngressHosts] *)
Definition formatIngressHosts (ing : Ingress.t) : string :=
  let hosts :=
    foldl (λ hosts rule,
             if decide (Ingress.Host rule = "") then hosts
             else (hosts ++ [Ingress.Host rule])%list)
          [] (Ingress.Rules ing) in
  Join hosts ", ".

(** [formatIngressPaths] *)
Definition formatIngressPaths (ing : Ingress.t) (serviceName : string) : string :=
  let paths :=
    foldl (λ paths rule,
             match Ingress.HTTP rule with
             | Some httpPaths =>
                 foldl (λ paths path,
                          match Ingress.BackendService path with
                          | Some backend =>
                              if decide (Ingress.BackendName backend = serviceName)
                              then (paths ++ [Ingress.Host rule +:+ Ingress.Path path])%list
                              else paths
                          | None => paths
                          end) paths httpPaths
             | None => paths
             end)
          [] (Ingress.Rules ing) in
  Join paths ", ".

(** [processIngresses] *)
Definition processIngresses (c : client.Cluster) (svc : Service.t)
    (svcResource : Resource) : M unit :=
  r <- call (client.ReqList "ingresses" (Service.Namespace svc) client.SelEverything)
            (client.ListIngresses c (Service.Namespace svc)) ;;
  match r with
  | inl err => fail ("failed to list ingresses: " +:+ err)
  | inr ingresses =>
      forM ingresses (λ ing,
        if isServiceReferencedByIngress ing (Service.Name svc) then
          let ingResource :=
            {| Type_ := ResourceTypeIngress;
               Name := Ingress.Name ing;
               Namespace := Ingress.Namespace ing;
               Labels := Ingress.Labels ing;
               Data := IngressValue ing;
               Status := {| Phase := "Active"; Ready := true;
                            Details := "Hosts: " +:+ formatIngressHosts ing |} |} in
          addResource ingResource ;;
          addRelationship
            {| Source := ingResource;
               Target := svcResource;
               RelType := RelationshipTypeExposes;
               Description := "exposes via " +:+
                              formatIngressPaths ing (Service.Name svc) |}
        else ret tt)
  end.

End ServiceProcessor.

(** ** Package mapper: the Deployment processor
    ([mapper/deployment-processor.go], first half) *)

Module DeploymentProcessor.
Import types.

(** [getDeploymentStatus] *)
Definition getDeploymentStatus (deploy : Deployment.t) : ResourceStatus :=
  let phase_ready :=
    if decide (Deployment.ReadyReplicas deploy = Deployment.Replicas deploy)
    then ("Ready", true)
    else if decide (Deployment.ReadyReplicas deploy > 0)
         then ("PartiallyReady", false)
         else ("NotReady", false) in
  {| Phase := phase_ready.1;
     Ready := phase_ready.2;
     Details := fmt_d (Deployment.ReadyReplicas deploy) +:+ "/" +:+
                fmt_d (Deployment.Replicas deploy) +:+ " replicas ready" |}.

(** The resource built at the head of [processDeployment]. *)
Definition deploymentResource (deploy : Deployment.t) : Resource :=
  {| Type_ := ResourceTypeDeployment;
     Name := Deployment.Name deploy;
     Namespace := Deployment.Namespace deploy;
     Labels := Deployment.Labels deploy;
     Data := DeploymentPtr deploy;
     Status := getDeploymentStatus deploy |}.

(** The first half of [processConfigMaps]: the set [configMaps] of the
    names that the pod template refers to. *)
Definition referencedConfigMaps (deploy : Deployment.t) : gmap string bool :=
  let configMaps : gmap string bool :=
    foldl (λ configMaps volume,
             match PodSpec.VolumeConfigMap volume with
             | Some name => <[name := true]> configMaps
             | None => configMaps
             end)
          ∅ (PodSpec.Volumes (Deployment.Template deploy)) in
  foldl (λ configMaps container,
           let configMaps :=
             foldl (λ configMaps envFrom,
                      match PodSpec.ConfigMapRef envFrom with
                      | Some name => <[name := true]> configMaps
                      | None => configMaps
                      end)
                   configMaps (PodSpec.EnvFrom container) in
           foldl (λ configMaps env,
                    match PodSpec.ConfigMapKeyRef env with
                    | Some name => <[name := true]> configMaps
                    | None => configMaps
                    end)
                 configMaps (PodSpec.Env container))
        configMaps (PodSpec.Containers (Deployment.Template deploy)).

(** The ConfigMap resource built in the second loop of
    [processConfigMaps]. *)
Definition configMapResource (cm : ConfigMap.t) : Resource :=
  {| Type_ := ResourceTypeConfigMap;
     Name := ConfigMap.Name cm;
     Namespace := ConfigMap.Namespace cm;
     Labels := ConfigMap.Labels cm;
     Data := ConfigMapPtr cm;
     Status := {| Phase := "Active"; Ready := true; Details := "" |} |}.

(** The second half of [processConfigMaps]: the loop over the names,
    which [cmNames] lists in the order in which the map yields them. *)
Definition processConfigMapNames (cmNames : list string) (c : client.Cluster)
    (deploy : Deployment.t) (deployResource : Resource) : M unit :=
  forM cmNames (λ cmName,
    r <- call (client.ReqGet "configmaps" (Deployment.Namespace deploy) cmName)
              (client.GetConfigMap c (Deployment.Namespace deploy) cmName) ;;
    match r with
    | inl _ => ret tt
    | inr cm =>
        addResource (configMapResource cm) ;;
        addRelationship
          {| Source := deployResource;
             Target := configMapResource cm;
             RelType := RelationshipTypeUses;
             Description := "uses config" |}
    end).

(** [processConfigMaps] *)
Definition processConfigMaps (c : client.Cluster) (deploy : Deployment.t)
    (deployResource : Resource) : M unit :=
  processConfigMapNames (map_to_list (referencedConfigMaps deploy)).*1
                        c deploy deployResource.

End DeploymentProcessor.

(** ** Package mapper: the ConfigMap processor
    (second half of [config/config.go]) *)

Module ConfigMapProcessor.
Import types.

(** [mapKeysToSlice]: the keys are collected in the iteration order of
    the map, which Go leaves unspecified, then sorted with
    [sort.Strings] (byte-wise order). *)
Definition mapKeysToSlice (m : gmap string bool) : list string :=
  let keys := foldl (λ keys kv, (keys ++ [kv.1])%list) [] (map_to_list m) in
  merge_sort String.le keys.

(** The three loops shared by [findConfigMapUsageInPod] and
    [findConfigMapUsageInPodTemplate]: they fill [usageTypes]. *)
Definition usageTypesOf (spec : PodSpec.t) (configMapName : string) : gmap string bool :=
  let usageTypes : gmap string bool :=
    foldl (λ usageTypes volume,
             if decide (PodSpec.VolumeConfigMap volume = Some configMapName)
             then <["volume" := true]> usageTypes
             else usageTypes)
          ∅ (PodSpec.Volumes spec) in
  foldl (λ usageTypes container,
           let usageTypes :=
             foldl (λ usageTypes envFrom,
                      if decide (PodSpec.ConfigMapRef envFrom = Some configMapName)
                      then <["environment" := true]> usageTypes
                      else usageTypes)
                   usageTypes (PodSpec.EnvFrom container) in
           foldl (λ usageTypes env,
                    if decide (PodSpec.ConfigMapKeyRef env = Some configMapName)
                    then <["environment variable" := true]> usageTypes
                    else usageTypes)
                 usageTypes (PodSpec.Env container))
        usageTypes (PodSpec.Containers spec).

(** [findConfigMapUsageInPod] *)
Definition findConfigMapUsageInPod (pod : Pod.t) (configMapName : string) : list string :=
  mapKeysToSlice (usageTypesOf (Pod.Spec pod) configMapName).

(** [findConfigMapUsageInPodTemplate] *)
Definition findConfigMapUsageInPodTemplate (template : PodSpec.t)
    (configMapName : string) : list string :=
  mapKeysToSlice (usageTypesOf template configMapName).

(** [getConfigMapStatus] *)
Definition getConfigMapStatus (cm : ConfigMap.t) : ResourceStatus :=
  {| Phase := "Active"; Ready := true;
     Details := "Keys: " +:+
                fmt_d (Z.of_nat (size (ConfigMap.Data cm) + size (ConfigMap.BinaryData cm))) |}.

(** The resource built at the head of [processConfigMap]. *)
Definition configMapResource (cm : ConfigMap.t) : Resource :=
  {| Type_ := ResourceTypeConfigMap;
     Name := ConfigMap.Name cm;
     Namespace := ConfigMap.Namespace cm;
     Labels := ConfigMap.Labels cm;
     Data := ConfigMapPtr cm;
     Status := getConfigMapStatus cm |}.

(** [processPodUsage] *)
Definition processPodUsage (c : client.Cluster) (cm : ConfigMap.t)
    (cmResource : Resource) : M unit :=
  r <- call (client.ReqList "pods" (ConfigMap.Namespace cm) client.SelEverything)
            (client.ListPods c (ConfigMap.Namespace cm) client.SelEverything) ;;
  match r with
  | inl err => fail ("failed to list pods: " +:+ err)
  | inr pods =>
      forM pods (λ pod,
        let usageTypes := findConfigMapUsageInPod pod (ConfigMap.Name cm) in
        if decide (0 < length usageTypes)%nat then
          addResource (ServiceProcessor.podResource pod) ;;
          addRelationship
            {| Source := ServiceProcessor.podResource pod;
               Target := cmResource;
               RelType := RelationshipTypeUses;
               Description := "uses as " +:+ Join usageTypes ", " |}
        else ret tt)
  end.

Section DeploymentUsage.

(** [getDeploymentPhase] is called by [processDeploymentUsage] but is
    not defined in the package; it only fills the [Phase] of the
    deployment resource. *)
Variable getDeploymentPhase : Deployment.t → string.

(** The deployment resource built in the loop of
    [processDeploymentUsage]. *)
Definition deploymentResource (deploy : Deployment.t) : Resource :=
  {| Type_ := ResourceTypeDeployment;
     Name := Deployment.Name deploy;
     Namespace := Deployment.Namespace deploy;
     Labels := Deployment.Labels deploy;
     Data := DeploymentValue deploy;
     Status := {| Phase := getDeploymentPhase deploy;
                  Ready := bool_decide (Deployment.ReadyReplicas deploy =
                                        Deployment.Replicas deploy);
                  Details := "" |} |}.


End DeploymentUsage.

End ConfigMapProcessor.

(** ** Package utils ([utils/formatting.go]) *)

Module utils.

Definition ESC : string := String (Ascii.ascii_of_nat 27) "".
Definition LF : string := String (Ascii.ascii_of_nat 10) "".

Definition ColorRed := ESC +:+ "[0;31m".
Definition ColorGreen := ESC +:+ "[0;32m".
Definition ColorYellow := ESC +:+ "[1;33m".
Definition ColorBlue := ESC +:+ "[0;34m".
Definition ColorMagenta := ESC +:+ "[0;35m".
Definition ColorCyan := ESC +:+ "[0;36m".
Definition ColorGray := ESC +:+ "[0;37m".
Definition ColorReset := ESC +:+ "[0m".
Definition ColorBoldRed := ESC +:+ "[1;31m".
Definition ColorBoldGreen := ESC +:+ "[1;32m".
Definition ColorBoldBlue := ESC +:+ "[1;34m".

(** [Colorize] *)
Definition Colorize (color text : string) : string :=
  color +:+ text +:+ ColorReset.

(** [ResourceColors] *)
Definition ResourceColors : gmap string string :=
  list_to_map
    [("Namespace", ColorCyan); ("Pod", ColorGreen); ("Service", ColorBlue);
     ("Ingress", ColorMagenta); ("ConfigMap", ColorYellow);
     ("Deployment", ColorBoldBlue); ("HPA", ColorBoldGreen);
     ("Secret", ColorBoldRed); ("Default", ColorGray)].

(** [GetResourceColor] *)
Definition GetResourceColor (resourceType : string) : string :=
  match ResourceColors !! resourceType with
  | Some color => color
  | None => default "" (ResourceColors !! "Default")
  end.

(** [ColorizedPrintf(color, format, a...)], where [text] is [format]
    with its verbs filled in. [Sprintf] strips the escape sequences from
    the format string [color+format+ColorReset] when the package
    variable [DisableColors] is set; the formats used here hold no other
    escape sequence. *)
Definition ColorizedPrintf (DisableColors : bool) (color text : string) : string :=
  if DisableColors then text else color +:+ text +:+ ColorReset.

Definition LineWidth : Z := 80.
Definition ArrowSymbol := ">".
Definition TreeSymbol := "├──".
Definition LastSymbol := "└──".
Definition VertSymbol := "│".

(** [CreateArrow] *)
Definition CreateArrow (length : Z) : option string :=
  match RepeatInt "-" length with
  | Some dashes => Some (dashes +:+ ArrowSymbol)
  | None => None
  end.

(** [TreePrefix] *)
Definition TreePrefix (isLast : bool) : string :=
  if isLast then LastSymbol else TreeSymbol.

(** [IndentLine] *)
Definition IndentLine (level : Z) (isLast : bool) (text : string) : option string :=
  match RepeatInt "    " level with
  | Some prefix =>
      let prefix :=
        if decide (level > 0) then prefix +:+ TreePrefix isLast +:+ " " else prefix in
      Some (prefix +:+ text)
  | None => None
  end.

(** [FormatList] *)
Definition FormatList (items : list string) (level : Z) : option (list string) :=
  foldl (λ result ix,
           match result with
           | Some result =>
               let isLast := bool_decide (ix.1 = length items - 1)%nat in
               match IndentLine level isLast ix.2 with
               | Some line => Some (result ++ [line])%list
               | None => None
               end
           | None => None
           end)
        (Some []) (imap pair items).

(** [FormatError]; the error is given by its message. *)
Definition FormatError (err : error) : string :=
  Colorize ColorRed ("Error: " +:+ err).

(** [FormatSuccess] *)
Definition FormatSuccess (msg : string) : string := Colorize ColorGreen msg.

(** [FormatWarning] *)
Definition FormatWarning (msg : string) : string := Colorize ColorYellow msg.

End utils.

(** ** Package visualizer ([visualizer/visualizer.go]) *)

Module visualizer.
Import types.

Record Visualizer := {
  resourceMapping : ResourceMapping;
  showDetails : bool;
  colorOutput : bool;
}.

(** [NewVisualizer] *)
Definition NewVisualizer (mapping : ResourceMapping) : Visualizer :=
  {| resourceMapping := mapping; showDetails := true; colorOutput := true |}.

(** [SetOptions] *)
Definition SetOptions (v : Visualizer) (showDetails colorOutput : bool) : Visualizer :=
  {| resourceMapping := resourceMapping v;
     showDetails := showDetails;
     colorOutput := colorOutput |}.

Definition indentSize : nat := 4.
Definition verticalLine := "│".
Definition horizontalLine := "──".
Definition cornerSymbol := "└".
Definition branchSymbol := "├".
Definition arrowSymbol := "➜".
Definition dotSymbol := "●".
Definition warningSymbol := "⚠".
Definition successSymbol := "✓".
Definition errorSymbol := "✗".
Definition detailsSymbol := "ℹ".

(** [for i, x := range l { output.WriteString(body i x) }] *)
Definition forRange {A} (l : list A) (body : nat → A → string) : string :=
  foldl (λ output ix, output +:+ body ix.1 ix.2) "" (imap pair l).

(** [i == len(l)-1] inside a loop over [l] *)
Definition lastIndex {A} (l : list A) (i : nat) : bool :=
  bool_decide (i = length l - 1)%nat.

(** [filterResourcesByType] *)
Definition filterResourcesByType (v : Visualizer) (resourceType : ResourceType)
    : list Resource :=
  foldl (λ filtered r,
           if decide (Type_ r = resourceType)
           then (filtered ++ [r])%list else filtered)
        [] (Resources (resourceMapping v)).

(** [findRelationships] *)
Definition findRelationships (v : Visualizer) (source : Resource)
    (relType : RelationshipType) : list Relationship :=
  foldl (λ filtered r,
           if decide (Name (Source r) = Name source ∧
                      Type_ (Source r) = Type_ source ∧
                      RelType r = relType)
           then (filtered ++ [r])%list else filtered)
        [] (Relationships (resourceMapping v)).

(** [findRelationshipsForTarget] *)
Definition findRelationshipsForTarget (v : Visualizer) (target : Resource)
    (relType : RelationshipType) : list Relationship :=
  foldl (λ filtered r,
           if decide (Name (Target r) = Name target ∧
                      Type_ (Target r) = Type_ target ∧
                      RelType r = relType)
           then (filtered ++ [r])%list else filtered)
        [] (Relationships (resourceMapping v)).

(** [getPrefix] *)
Definition getPrefix (isLast : bool) : string :=
  if isLast then cornerSymbol +:+ horizontalLine +:+ " "
  else branchSymbol +:+ horizontalLine +:+ " ".

(** [getIndent] *)
Definition getIndent (isLast : bool) : string :=
  if isLast then Repeat " " indentSize
  else verticalLine +:+ Repeat " " (indentSize - 1).

(** [colorize] *)
Definition colorize (v : Visualizer) (color text : string) : string :=
  if colorOutput v then utils.Colorize color text else text.

(** [getPodStatusSymbol] *)
Definition getPodStatusSymbol (v : Visualizer) (phase : string) : string :=
  if decide (phase = "Running") then colorize v utils.ColorGreen successSymbol
  else if decide (phase = "Pending") then colorize v utils.ColorYellow warningSymbol
  else colorize v utils.ColorRed errorSymbol.

(** [getDeploymentStatusSymbol] *)
Definition getDeploymentStatusSymbol (v : Visualizer) (ready desired : Z) : string :=
  if decide (ready = desired) then colorize v utils.ColorGreen successSymbol
  else if decide (ready > 0) then colorize v utils.ColorYellow warningSymbol
  else colorize v utils.ColorRed errorSymbol.

(** [formatPorts] *)
Definition formatPorts (ports : list ServicePort.t) : string :=
  let portStrings :=
    foldl (λ portStrings port,
             let portStr :=
               fmt_d (ServicePort.Port port) +:+ "→" +:+
               fmt_d (ServicePort.IntVal (ServicePort.TargetPort port)) +:+ "/" +:+
               ServicePort.Protocol port in
             (portStrings ++ [portStr])%list)
          [] ports in
  Join portStrings ", ".

Section Render.

(** The package variable [utils.DisableColors]. *)
Variable DisableColors : bool.

(** [formatResource] *)
Definition formatResource (r : Resource) : string :=
  utils.ColorizedPrintf DisableColors (utils.GetResourceColor (Type_ r))
                        (Type_ r +:+ "/" +:+ Name r).

(** [renderHeader]; [utils.GetCurrentTime] is not defined in package
    [utils], and [now] stands for the string it returns when the
    header is rendered. *)
Definition renderHeader (now : string) : string :=
  utils.ColorizedPrintf DisableColors utils.ColorGreen "Kubernetes Resource Map"
  +:+ utils.LF +:+ Repeat "-" 80 +:+ utils.LF +:+
  utils.ColorizedPrintf DisableColors utils.ColorGray ("Generated at: " +:+ now).

(** [renderIngressLayer] *)
Definition renderIngressLayer (v : Visualizer) : string :=
  let ingresses := filterResourcesByType v ResourceTypeIngress in
  utils.ColorizedPrintf DisableColors utils.ColorBlue ("[Ingress Layer]" +:+ utils.LF)
  +:+
  forRange ingresses (λ i ingress,
    let isLast := lastIndex ingresses i in
    let prefix := getPrefix isLast in
    let relations := findRelationships v ingress RelationshipTypeExposes in
    prefix +:+ colorize v utils.ColorMagenta dotSymbol +:+ " " +:+
      formatResource ingress +:+ utils.LF
    +:+
    match Data ingress with
    | IngressValue ing =>
        if decide (0 < length (Ingress.SpecTLS ing))%nat
        then getIndent isLast +:+ "  " +:+
             colorize v utils.ColorGreen successSymbol +:+ " TLS Enabled" +:+ utils.LF
        else ""
    | _ => ""
    end
    +:+
    forRange relations (λ j rel,
      let isLastRel := isLast && lastIndex relations j in
      getIndent isLastRel +:+ "  " +:+ colorize v utils.ColorBlue arrowSymbol +:+ " " +:+
        formatResource (Target rel) +:+ " via " +:+ Description rel +:+ utils.LF)).

(** [renderServiceLayer] *)
Definition renderServiceLayer (v : Visualizer) : string :=
  let services := filterResourcesByType v ResourceTypeService in
  utils.ColorizedPrintf DisableColors utils.ColorBlue ("[Service Layer]" +:+ utils.LF)
  +:+
  forRange services (λ i svc,
    let isLast := lastIndex services i in
    let prefix := getPrefix isLast in
    let relations := findRelationships v svc RelationshipTypeTargets in
    prefix +:+ colorize v utils.ColorBlue dotSymbol +:+ " " +:+
      formatResource svc +:+ utils.LF
    +:+
    (if showDetails v then
       match Data svc with
       | ServiceValue s =>
           getIndent isLast +:+ "  " +:+ colorize v utils.ColorGray detailsSymbol +:+
             " Type: " +:+ Service.Type_ s +:+ utils.LF +:+
           getIndent isLast +:+ "  " +:+ colorize v utils.ColorGray detailsSymbol +:+
             " Ports: " +:+ formatPorts (Service.Ports s) +:+ utils.LF
       | _ => ""
       end
     else "")
    +:+
    forRange relations (λ j rel,
      let isLastRel := isLast && lastIndex relations j in
      getIndent isLastRel +:+ "  " +:+ colorize v utils.ColorGreen arrowSymbol +:+ " " +:+
        formatResource (Target rel) +:+ utils.LF
      +:+
      match Data (Target rel) with
      | PodValue pod =>
          getIndent isLastRel +:+ "     " +:+ getPodStatusSymbol v (Pod.Phase pod) +:+
            " " +:+ Pod.Phase pod +:+ utils.LF
      | _ => ""
      end)).

(** [renderWorkloadLayer] *)
Definition renderWorkloadLayer (v : Visualizer) : string :=
  let deployments := filterResourcesByType v ResourceTypeDeployment in
  utils.ColorizedPrintf DisableColors utils.ColorBlue ("[Workload Layer]" +:+ utils.LF)
  +:+
  forRange deployments (λ i deploy,
    let isLast := lastIndex deployments i in
    let prefix := getPrefix isLast in
    let hpaRels := findRelationships v deploy RelationshipTypeTargets in
    let podRels := findRelationships v deploy RelationshipTypeOwns in
    prefix +:+ colorize v utils.ColorYellow dotSymbol +:+ " " +:+
      formatResource deploy +:+ utils.LF
    +:+
    (if showDetails v then
       match Data deploy with
       | DeploymentValue d =>
           let readyReplicas := Deployment.ReadyReplicas d in
           let desiredReplicas := Deployment.Replicas d in
           let status := fmt_d readyReplicas +:+ "/" +:+ fmt_d desiredReplicas +:+
                         " replicas ready" in
           let statusSymbol := getDeploymentStatusSymbol v readyReplicas desiredReplicas in
           getIndent isLast +:+ "  " +:+ statusSymbol +:+ " " +:+ status +:+ utils.LF
       | _ => ""
       end
     else "")
    +:+
    forRange hpaRels (λ _ rel,
      if decide (Type_ (Source rel) = ResourceTypeHPA)
      then getIndent isLast +:+ "  " +:+ colorize v utils.ColorCyan "⟳" +:+ " " +:+
           Description rel +:+ utils.LF
      else "")
    +:+
    forRange podRels (λ j rel,
      let isLastRel := isLast && lastIndex podRels j in
      getIndent isLastRel +:+ "  " +:+ colorize v utils.ColorGreen arrowSymbol +:+ " " +:+
        formatResource (Target rel) +:+ utils.LF)).

(** [renderStorageLayer] *)
Definition renderStorageLayer (v : Visualizer) : string :=
  let configmaps := filterResourcesByType v ResourceTypeConfigMap in
  utils.ColorizedPrintf DisableColors utils.ColorBlue ("[Storage Layer]" +:+ utils.LF)
  +:+
  forRange configmaps (λ i cm,
    let isLast := lastIndex configmaps i in
    let prefix := getPrefix isLast in
    let relations := findRelationshipsForTarget v cm RelationshipTypeUses in
    prefix +:+ colorize v utils.ColorYellow dotSymbol +:+ " " +:+
      formatResource cm +:+ utils.LF
    +:+
    forRange relations (λ j rel,
      let isLastRel := isLast && lastIndex relations j in
      getIndent isLastRel +:+ "  " +:+ colorize v utils.ColorBlue arrowSymbol +:+
        " Used by " +:+ formatResource (Source rel) +:+
        " (" +:+ Description rel +:+ ")" +:+ utils.LF)).

(** [RenderClusterView] *)
Definition RenderClusterView (v : Visualizer) (now : string) : string :=
  renderHeader now +:+ utils.LF +:+
  "External Traffic" +:+ utils.LF +:+
  verticalLine +:+ utils.LF +:+
  renderIngressLayer v +:+ utils.LF +:+
  renderServiceLayer v +:+ utils.LF +:+
  renderWorkloadLayer v +:+ utils.LF +:+
  renderStorageLayer v.

End Render.

End visualizer.

(** ** Package common ([common/common-types.go], [common/common-processing.go]) *)

Module common.
Import types.

(** [ResourceKey]: [fmt.Sprintf("%s/%s/%s", Type, Namespace, Name)] *)
Definition ResourceKey (resource : Resource) : string :=
  Type_ resource +:+ "/" +:+ Namespace resource +:+ "/" +:+ Name resource.

(** [ResourceSet]: the [data] map; every method takes the lock, so each
    call is atomic. *)
Abbreviation ResourceSet := (gmap string Resource).

(** [NewResourceSet] *)
Definition NewResourceSet : ResourceSet := ∅.

(** [ResourceSet.Add] *)
Definition Add (s : ResourceSet) (resource : Resource) : ResourceSet :=
  <[ResourceKey resource := resource]> s.

(** [ResourceSet.Contains] *)
Definition Contains (s : ResourceSet) (resource : Resource) : bool :=
  bool_decide (is_Some (s !! ResourceKey resource)).

(** [ResourceSet.ToSlice]; the order is that of the map iteration. *)
Definition ToSlice (s : ResourceSet) : list Resource :=
  foldl (λ result kv, (result ++ [kv.2])%list) [] (map_to_list s).

(** [ProcessorMetrics], without the wall-clock [ProcessingTime]. *)
Record ProcessorMetrics := {
  ResourcesProcessed : nat;
  RelationsDiscovered : nat;
  ErrorCount : nat;
}.

Record ProcessingResult := {
  Resources : list Resource;
  Relations : list Relationship;
  Metrics : ProcessorMetrics;
  Errors : list error;
}.

(** A [ResourceProcessor] is an object with [Process], [GetResources]
    and [GetRelationships]; it is given by its [Process] computation,
    run on a fresh processor, whose final slices the two getters
    return. *)
Abbreviation ResourceProcessor := (M unit).

(** The state shared by the goroutines of [ProcessResources]: the
    resource set, the result, the buffered error channel of the queue,
    and the error that the collector goroutine of [Wait] has received
    from the channel and holds until [Wait] takes it. The counters of
    the queue itself ([q.metrics]) are written under [metricMu] and
    never read, and are left out. *)
Record Shared := {
  resourceSet : ResourceSet;
  result : ProcessingResult;
  errChan : list error;
  inFlight : option error;
}.

Definition setResourceSet (s : ResourceSet) (sh : Shared) : Shared :=
  {| resourceSet := s; result := result sh; errChan := errChan sh;
     inFlight := inFlight sh |}.

Definition setResult (r : ProcessingResult) (sh : Shared) : Shared :=
  {| resourceSet := resourceSet sh; result := r; errChan := errChan sh;
     inFlight := inFlight sh |}.

(** [result.Resources = l] *)
Definition storeResources (l : list Resource) (sh : Shared) : Shared :=
  setResult {| Resources := l; Relations := Relations (result sh);
               Metrics := Metrics (result sh); Errors := Errors (result sh) |} sh.

(** [result.Relations = l] *)
Definition storeRelations (l : list Relationship) (sh : Shared) : Shared :=
  setResult {| Resources := Resources (result sh); Relations := l;
               Metrics := Metrics (result sh); Errors := Errors (result sh) |} sh.

(** [result.Metrics.RelationsDiscovered = n] *)
Definition storeRelationsDiscovered (n : nat) (sh : Shared) : Shared :=
  setResult {| Resources := Resources (result sh); Relations := Relations (result sh);
               Metrics :=
                 {| ResourcesProcessed := ResourcesProcessed (Metrics (result sh));
                    RelationsDiscovered := n;
                    ErrorCount := ErrorCount (Metrics (result sh)) |};
               Errors := Errors (result sh) |} sh.

(** [select { case q.errChan <- err: default: }] on the channel of
    capacity 100: a send that finds the buffer full is dropped. *)
Definition send (err : error) (sh : Shared) : Shared :=
  if decide (length (errChan sh) < 100)%nat then
    {| resourceSet := resourceSet sh; result := result sh;
       errChan := (errChan sh ++ [err])%list; inFlight := inFlight sh |}
  else sh.

(** The point at which the goroutine of a task stands: before its next
    access to the shared state. A call of [Contains] or [Add] and a send
    on the channel take a lock and are one step each; the updates of
    [result] take no lock and are a load followed by a store, between
    which other goroutines may run. *)
Inductive Point :=
| AtProcess
    (** before [proc.Process(ctx)] *)
| AtContains (rest : list Resource)
    (** at the head of the loop over [proc.GetResources()], of which
        [rest] is still to be visited *)
| AtAdd (resource : Resource) (rest : list Resource)
    (** [Contains] has returned false *)
| AtLoadResources (resource : Resource) (rest : list Resource)
| AtStoreResources (loaded : list Resource) (resource : Resource) (rest : list Resource)
| AtLoadRelations
| AtStoreRelations (loaded : list Relationship)
| AtLoadCount
| AtStoreCount (loaded : nat)
| AtSend (err : error)
    (** the closure has returned [err] *)
| Returned.

(** One step of the goroutine that [AddTask] starts for the closure of
    [proc]. The processor is private to its task: [Process] touches
    nothing that is shared, and the two getters return its final
    slices. *)
Definition taskStep (proc : ResourceProcessor) (point : Point) (sh : Shared)
    : Point * Shared :=
  match point with
  | AtProcess =>
      match proc newProcessor with
      | (Err e, _) => (AtSend ("processor error: " +:+ e), sh)
      | (Ok _, p) => (AtContains (resources p), sh)
      end
  | AtContains [] => (AtLoadRelations, sh)
  | AtContains (resource :: rest) =>
      if Contains (resourceSet sh) resource then (AtContains rest, sh)
      else (AtAdd resource rest, sh)
  | AtAdd resource rest =>
      (AtLoadResources resource rest,
       setResourceSet (Add (resourceSet sh) resource) sh)
  | AtLoadResources resource rest =>
      (AtStoreResources (Resources (result sh)) resource rest, sh)
  | AtStoreResources loaded resource rest =>
      (AtContains rest, storeResources (loaded ++ [resource]) sh)
  | AtLoadRelations => (AtStoreRelations (Relations (result sh)), sh)
  | AtStoreRelations loaded =>
      (AtLoadCount, storeRelations (loaded ++ relations (proc newProcessor).2) sh)
  | AtLoadCount => (AtStoreCount (RelationsDiscovered (Metrics (result sh))), sh)
  | AtStoreCount loaded =>
      (Returned,
       storeRelationsDiscovered (loaded + length (relations (proc newProcessor).2)) sh)
  | AtSend err => (Returned, send err sh)
  | Returned => (Returned, sh)
  end.

(** The collector goroutine of [Wait] receives from [errChan] and then
    blocks on its own unbuffered channel, which [Wait] reads only once
    every task has returned: until then it takes at most one error out
    of the buffer. *)
Definition collectorStep (sh : Shared) : Shared :=
  match inFlight sh, errChan sh with
  | None, err :: rest =>
      {| resourceSet := resourceSet sh; result := result sh;
         errChan := rest; inFlight := Some err |}
  | _, _ => sh
  end.

(** The goroutines that take the steps of a run. *)
Inductive Actor :=
| Task (i : nat)
| Collector.

(** The shared state and, for each task in the order of [processors],
    its processor and the point at which it stands. The processors of
    the slice are distinct objects. *)
Record State := {
  shared : Shared;
  tasks : list (ResourceProcessor * Point);
}.

(** One step of a run: the goroutine [actor] moves. A task that has
    returned, an index without a task, and a collector that holds an
    error or finds the channel empty stay where they are. *)
Definition step (actor : Actor) (st : State) : State :=
  match actor with
  | Task i =>
      match tasks st !! i with
      | Some (proc, point) =>
          let next := taskStep proc point (shared st) in
          {| shared := next.2; tasks := <[i := (proc, next.1)]> (tasks st) |}
      | None => st
      end
  | Collector => {| shared := collectorStep (shared st); tasks := tasks st |}
  end.

(** A schedule lists the goroutines in the order in which they take
    their steps. *)
Definition run (schedule : list Actor) (st : State) : State :=
  foldl (λ st actor, step actor st) st schedule.

(** The state in which [ProcessResources] has started its tasks: an
    empty result, a new queue and a new resource set. *)
Definition start (processors : list ResourceProcessor) : State :=
  {| shared :=
       {| resourceSet := NewResourceSet;
          result := {| Resources := []; Relations := [];
                       Metrics := {| ResourcesProcessed := 0; RelationsDiscovered := 0;
                                     ErrorCount := 0 |};
                       Errors := [] |};
          errChan := []; inFlight := None |};
     tasks := (λ proc, (proc, AtProcess)) <$> processors |}.

(** Every task has returned: [wg.Wait()] returns and [done] is closed. *)
Definition returned (st : State) : bool :=
  forallb (λ task, match task.2 with Returned => true | _ => false end) (tasks st).

(** [queue.Wait()]. With [cancelled = Some err] the [select] leaves
    through [ctx.Done()], whatever the tasks have done so far, and the
    only error is the cancellation. Otherwise it leaves through [done],
    which needs every task to have returned ([None] stands for a
    schedule that ends before that), and the errors are those that were
    sent, in the order of the sends. *)
Definition Wait (cancelled : option error) (st : State) : option (list error) :=
  match cancelled with
  | Some err => Some ["processing cancelled: " +:+ err]
  | None =>
      if returned st
      then Some (option_list (inFlight (shared st)) ++ errChan (shared st))%list
      else None
  end.

(** [ProcessResources]; [schedule] lists the steps taken until [Wait]
    returns, and the result is read at that moment. The function itself
    always returns a nil error. *)
Definition ProcessResources (cancelled : option error)
    (processors : list ResourceProcessor) (schedule : list Actor)
    : option ProcessingResult :=
  let st := run schedule (start processors) in
  match Wait cancelled st with
  | None => None
  | Some errs =>
      let result := result (shared st) in
      Some {| Resources := Resources result;
              Relations := Relations result;
              Metrics :=
                {| ResourcesProcessed := length (Resources result);
                   RelationsDiscovered := RelationsDiscovered (Metrics result);
                   ErrorCount := if decide (0 < length errs)%nat then length errs
                                 else ErrorCount (Metrics result) |};
              Errors := if decide (0 < length errs)%nat then errs else Errors result |}
  end.

(** *** Filters ([common/common-filters.go]) *)

Module ResourceFilter.
(** [LabelMatch]: the nil map and the empty map both have length 0. *)
Record t := {
  Types : list string;
  Namespaces : list string;
  LabelMatch : gmap string string;
  NameMatch : string;
}.
End ResourceFilter.

Module RelationshipFilter.
Record t := {
  Types : list string;
  SourceTypes : list string;
  TargetTypes : list string;
  NamespaceScope : bool;
}.
End RelationshipFilter.

(** [contains] *)
Fixpoint contains (slice : list string) (item : string) : bool :=
  match slice with
  | [] => false
  | s :: slice' => if decide (s = item) then true else contains slice' item
  end.

(** [matchLabelValue] *)
Definition matchLabelValue (value pattern : string) : bool :=
  if strings.HasPrefix pattern "*" && strings.HasSuffix pattern "*" then
    strings.Contains value (strings.Trim pattern "*"%char)
  else if strings.HasPrefix pattern "*" then
    strings.HasSuffix value (strings.TrimPrefix pattern "*")
  else if strings.HasSuffix pattern "*" then
    strings.HasPrefix value (strings.TrimSuffix pattern "*")
  else bool_decide (value = pattern).

(** The loop of [matchLabels] over the entries of [filterLabels], in
    the order in which the map yields them: it returns [false] at the
    first entry that the resource does not satisfy. *)
Fixpoint matchEntries (resourceLabels : gmap string string)
    (entries : list (string * string)) : bool :=
  match entries with
  | [] => true
  | (k, v) :: entries' =>
      match resourceLabels !! k with
      | Some resourceValue =>
          if matchLabelValue resourceValue v
          then matchEntries resourceLabels entries'
          else false
      | None => false
      end
  end.

(** [matchLabels] *)
Definition matchLabels (resourceLabels filterLabels : gmap string string) : bool :=
  if decide (size filterLabels = 0)%nat then true
  else matchEntries resourceLabels (map_to_list filterLabels).

Section NameRegexp.

(** [regexp.MustCompile(pattern)]: [None] when the pattern does not
    compile, in which case [MustCompile] panics; otherwise the
    [MatchString] method of the compiled expression. *)
Variable MustCompile : string → option (string → bool).

(** The body of the loop of [FilterResources]: [true] when the
    resource reaches [append]. *)
Definition keepsResource (nameRegex : string → bool) (filter : ResourceFilter.t)
    (resource : Resource) : bool :=
  if bool_decide (0 < length (ResourceFilter.Types filter))%nat &&
     negb (contains (ResourceFilter.Types filter) (Type_ resource)) then false
  else if bool_decide (0 < length (ResourceFilter.Namespaces filter))%nat &&
          negb (contains (ResourceFilter.Namespaces filter) (Namespace resource)) then false
  else if bool_decide (ResourceFilter.NameMatch filter ≠ "") &&
          negb (nameRegex (Name resource)) then false
  else if negb (matchLabels (Labels resource) (ResourceFilter.LabelMatch filter)) then false
  else true.

(** [FilterResources]; [None] is the panic of [regexp.MustCompile]. *)
Definition FilterResources (resources : list Resource) (filter : ResourceFilter.t)
    : option (list Resource) :=
  if decide (length resources = 0)%nat then Some resources
  else
    match MustCompile (ResourceFilter.NameMatch filter) with
    | None => None
    | Some nameRegex =>
        Some (foldl (λ result resource,
                       if keepsResource nameRegex filter resource
                       then (result ++ [resource])%list else result)
                    [] resources)
    end.

End NameRegexp.

(** The body of the loop of [FilterRelationships]. *)
Definition keepsRelationship (filter : RelationshipFilter.t) (rel : Relationship) : bool :=
  if bool_decide (0 < length (RelationshipFilter.Types filter))%nat &&
     negb (contains (RelationshipFilter.Types filter) (RelType rel)) then false
  else if bool_decide (0 < length (RelationshipFilter.SourceTypes filter))%nat &&
          negb (contains (RelationshipFilter.SourceTypes filter) (Type_ (Source rel)))
       then false
  else if bool_decide (0 < length (RelationshipFilter.TargetTypes filter))%nat &&
          negb (contains (RelationshipFilter.TargetTypes filter) (Type_ (Target rel)))
       then false
  else if RelationshipFilter.NamespaceScope filter &&
          bool_decide (Namespace (Source rel) ≠ Namespace (Target rel)) then false
  else true.

(** [FilterRelationships] *)
Definition FilterRelationships (relations : list Relationship)
    (filter : RelationshipFilter.t) : list Relationship :=
  if decide (length relations = 0)%nat then relations
  else foldl (λ result rel,
                if keepsRelationship filter rel
                then (result ++ [rel])%list else result)
             [] relations.

End common.

(** ** Package mapper: the coordinator ([mapper/mapper.go]) *)

Module mapper.
Import types.

(** The fields of [config.Config] read by the coordinator;
    [VisualOptions] holds [ShowDetails] and [ShowColors]. *)
Record Config := {
  Namespace : string;
  ExcludeNs : list string;
  VisualOptions : option (bool * bool);
}.

(** [StringSliceFlag.Contains] *)
Definition Contains (s : list string) (namespace : string) : bool :=
  existsb (λ ns, bool_decide (ns = namespace)) s.

(** [ResourceMapper]: [mapping] is the field [resources]; [warnings]
    collects the messages handed to [utils.PrintWarning], [stdout] the
    lines printed on standard output. *)
Record ResourceMapper := {
  config : Config;
  mapping : ResourceMapping;
  warnings : list string;
  stdout : list string;
}.

(** [NewResourceMapper], once the client is connected: the mapping
    starts empty. *)
Definition NewResourceMapper (cfg : Config) : ResourceMapper :=
  {| config := cfg;
     mapping := {| Resources := []; Relationships := [] |};
     warnings := [];
     stdout := [] |}.

(** [getNamespaces] *)
Definition getNamespaces (c : client.Cluster) (rm : ResourceMapper)
    : error + list string :=
  if decide (Namespace (config rm) = "") then
    match client.ListNamespaces c with
    | inl err => inl err
    | inr nsList =>
        inr (foldl (λ namespaces ns,
                      if Contains (ExcludeNs (config rm)) ns then namespaces
                      else (namespaces ++ [ns])%list)
                   [] nsList)
    end
  else
    match client.GetNamespace c (Namespace (config rm)) with
    | inl err =>
        inl ("namespace " +:+ Namespace (config rm) +:+ " not found: " +:+ err)
    | inr _ => inr [Namespace (config rm)]
    end.

(** [addRelationships] *)
Definition addRelationships (rm : ResourceMapper) (relationships : list Relationship)
    : ResourceMapper :=
  {| config := config rm;
     mapping := {| Resources := Resources (mapping rm);
                   Relationships := (Relationships (mapping rm) ++ relationships)%list |};
     warnings := warnings rm;
     stdout := stdout rm |}.

Definition print (line : string) (rm : ResourceMapper) : ResourceMapper :=
  {| config := config rm; mapping := mapping rm; warnings := warnings rm;
     stdout := (stdout rm ++ [line])%list |}.

(** [utils.PrintWarning] is not defined in package [utils]; its calls
    are recorded. *)
Definition PrintWarning (msg : string) (rm : ResourceMapper) : ResourceMapper :=
  {| config := config rm; mapping := mapping rm;
     warnings := (warnings rm ++ [msg])%list;
     stdout := stdout rm |}.

(** [utils.FormatResource] *)
Definition FormatResource (resourceType name : string) : string :=
  utils.Colorize (utils.GetResourceColor resourceType) (resourceType +:+ ": " +:+ name).

Section Coordinator.

(** [processors namespace]: the [types.ResourceProcessor] values that
    [processNamespace] builds for the namespace (deployments,
    services, configmaps, ingresses), each given by its [Process]
    computation on a fresh processor. *)
Variable processors : string → list (M unit).

(** [completion namespace]: the same processors in the order in which
    their goroutines finish. Each goroutine either sends its error on
    [errCh] or calls [addRelationships], which takes the lock. *)
Variable completion : string → list (M unit).

(** The goroutine started for one processor. *)
Definition goroutine (st : ResourceMapper * list error) (p : M unit)
    : ResourceMapper * list error :=
  match p newProcessor with
  | (Err err, _) => (st.1, (st.2 ++ [err])%list)
  | (Ok _, final) => (addRelationships st.1 (relations final), st.2)
  end.

(** [processNamespace] *)
Definition processNamespace (namespace : string) (rm : ResourceMapper)
    : option error * ResourceMapper :=
  let rm := print (Repeat "-" 80) rm in
  let rm := print (FormatResource "Namespace" namespace) rm in
  let rm := print (Repeat "-" 80) rm in
  let st := foldl goroutine (rm, []) (completion namespace) in
  match st.2 with
  | err :: _ => (Some ("processor error: " +:+ err), st.1)
  | [] => (None, st.1)
  end.

(** [Visualize]: it always returns nil. *)
Definition Visualize (DisableColors : bool) (now : string) (rm : ResourceMapper)
    : ResourceMapper :=
  let viz := visualizer.NewVisualizer (mapping rm) in
  let viz :=
    match VisualOptions (config rm) with
    | Some (showDetails, showColors) => visualizer.SetOptions viz showDetails showColors
    | None => viz
    end in
  print (visualizer.RenderClusterView DisableColors viz now) rm.

(** [Process] *)
Definition Process (DisableColors : bool) (now : string) (c : client.Cluster)
    (rm : ResourceMapper) : option error * ResourceMapper :=
  match getNamespaces c rm with
  | inl err => (Some ("failed to get namespaces: " +:+ err), rm)
  | inr namespaces =>
      let rm :=
        foldl (λ rm ns,
                 match processNamespace ns rm with
                 | (Some err, rm') =>
                     PrintWarning ("Error processing namespace " +:+ ns +:+ ": " +:+ err) rm'
                 | (None, rm') => rm'
                 end)
              rm namespaces in
      (None, Visualize DisableColors now rm)
  end.

End Coordinator.

End mapper.

(** ** The older Service processor

    A second [ServiceProcessor], with [Process(ctx, namespace)], is kept
    in the repository next to the one above; it is the one whose
    constructor signature [processNamespace] uses. It runs sequentially
    and indexes [svc.Spec.Ports[0]] and [path.Backend.Service.Name]
    without a check, so a run can end in a run-time panic ([None]). *)

Module legacy.
Import types.

(** A loop whose body can panic. *)
Fixpoint foldP {A B} (body : B → A → option B) (b : B) (l : list A) : option B :=
  match l with
  | [] => Some b
  | x :: l' => match body b x with
               | Some b' => foldP body b' l'
               | None => None
               end
  end.

Definition logRequest (req : client.Request) (p : Processor) : Processor :=
  {| resources := resources p; relations := relations p;
     requests := (requests p ++ [req])%list |}.

Definition appendResource (r : Resource) (p : Processor) : Processor :=
  {| resources := (resources p ++ [r])%list; relations := relations p;
     requests := requests p |}.

Definition appendRelation (rel : Relationship) (p : Processor) : Processor :=
  {| resources := resources p; relations := (relations p ++ [rel])%list;
     requests := requests p |}.

Definition serviceResource (svc : Service.t) : Resource :=
  {| Type_ := ResourceTypeService;
     Name := Service.Name svc;
     Namespace := Service.Namespace svc;
     Labels := Service.Labels svc;
     Data := ServiceValue svc;
     Status := noStatus |}.

Definition podResource (pod : Pod.t) : Resource :=
  {| Type_ := ResourceTypePod;
     Name := Pod.Name pod;
     Namespace := Pod.Namespace pod;
     Labels := Pod.Labels pod;
     Data := PodValue pod;
     Status := noStatus |}.

Definition ingressResource (ing : Ingress.t) : Resource :=
  {| Type_ := ResourceTypeIngress;
     Name := Ingress.Name ing;
     Namespace := Ingress.Namespace ing;
     Labels := Ingress.Labels ing;
     Data := IngressValue ing;
     Status := noStatus |}.

(** The innermost loop body: one path of one rule of one ingress. *)
Definition exposePath (svc : Service.t) (ing : Ingress.t) (rule : Ingress.Rule)
    (p : Processor) (path : Ingress.HTTPPath) : option Processor :=
  match Ingress.BackendService path with
  | None => None
  | Some backend =>
      if decide (Ingress.BackendName backend = Service.Name svc) then
        Some (appendRelation
                {| Source := ingressResource ing;
                   Target := serviceResource svc;
                   RelType := RelationshipTypeExposes;
                   Description := "exposes via " +:+ Ingress.Host rule +:+
                                  Ingress.Path path |} p)
      else Some p
  end.

(** The loops over the rules and paths of one ingress. *)
Definition exposeIngress (svc : Service.t) (p : Processor) (ing : Ingress.t)
    : option Processor :=
  foldP (λ p rule,
           match Ingress.HTTP rule with
           | Some paths => foldP (exposePath svc ing rule) p paths
           | None => Some p
           end)
        p (Ingress.Rules ing).

(** The "related ingresses" part of the loop body. *)
Definition relatedIngresses (c : client.Cluster) (namespace : string)
    (svc : Service.t) (p : Processor) : option Processor :=
  let p := logRequest (client.ReqList "ingresses" namespace client.SelEverything) p in
  match client.ListIngresses c namespace with
  | inl _ => Some p
  | inr ingresses => foldP (exposeIngress svc) p ingresses
  end.

(** The "related pods" loop: one [targets] edge per listed pod. *)
Definition relatedPod (svc : Service.t) (p : Processor) (pod : Pod.t)
    : option Processor :=
  match Service.Ports svc with
  | [] => None
  | port0 :: _ =>
      Some (appendRelation
              {| Source := serviceResource svc;
                 Target := podResource pod;
                 RelType := RelationshipTypeTargets;
                 Description := "exposes port " +:+ fmt_d (ServicePort.Port port0) |} p)
  end.

(** The body of the loop over the services. *)
Definition processOne (c : client.Cluster) (namespace : string)
    (p : Processor) (svc : Service.t) : option Processor :=
  let p := appendResource (serviceResource svc) p in
  match Service.Selector svc with
  | Some matchLabels =>
      let selector := client.FormatLabelSelector matchLabels in
      let p := logRequest (client.ReqList "pods" namespace selector) p in
      match client.ListPods c namespace selector with
      | inl _ => Some p
      | inr pods =>
          match foldP (relatedPod svc) p pods with
          | Some p => relatedIngresses c namespace svc p
          | None => None
          end
      end
  | None => relatedIngresses c namespace svc p
  end.

(** [ServiceProcessor.Process(ctx, namespace)] *)
Definition Process (c : client.Cluster) (namespace : string) (p : Processor)
    : option (option error * Processor) :=
  let p := logRequest (client.ReqList "services" namespace client.SelEverything) p in
  match client.ListServices c namespace with
  | inl err => Some (Some ("failed to list services: " +:+ err), p)
  | inr services =>
      match foldP (processOne c namespace) p services with
      | Some p => Some (None, p)
      | None => None
      end
  end.

End legacy.

(** ** The older ConfigMap processor

    The sequential [ConfigMapProcessor] with [Process(ctx, namespace)].
    It joins the usage types in the order in which the map yields them,
    which [keysOf] stands for. *)

Module legacyConfigMap.
Import types legacy.

Section MapOrder.

(** The keys of a [map[string]bool] in the order of a [range] loop. *)
Variable keysOf : gmap string bool → list string.

(** [findConfigMapUsage] and [findConfigMapUsageInPodTemplate]: the two
    functions have the same body, on the [Spec] of a pod and of a pod
    template. *)
Definition findConfigMapUsage (spec : PodSpec.t) (configMapName : string)
    : bool * string :=
  let usageTypes := ConfigMapProcessor.usageTypesOf spec configMapName in
  if decide (size usageTypes = 0)%nat then (false, "")
  else
    let usageList :=
      foldl (λ usageList usage, (usageList ++ [usage])%list) [] (keysOf usageTypes) in
    (true, Join usageList ", ").

Definition configMapResource (cm : ConfigMap.t) : Resource :=
  {| Type_ := ResourceTypeConfigMap;
     Name := ConfigMap.Name cm;
     Namespace := ConfigMap.Namespace cm;
     Labels := ConfigMap.Labels cm;
     Data := ConfigMapValue cm;
     Status := noStatus |}.

Definition deploymentResource (deploy : Deployment.t) : Resource :=
  {| Type_ := ResourceTypeDeployment;
     Name := Deployment.Name deploy;
     Namespace := Deployment.Namespace deploy;
     Labels := Deployment.Labels deploy;
     Data := DeploymentValue deploy;
     Status := noStatus |}.

(** The loop over the pods. *)
Definition podUsage (cm : ConfigMap.t) (p : Processor) (pod : Pod.t) : Processor :=
  match findConfigMapUsage (Pod.Spec pod) (ConfigMap.Name cm) with
  | (true, usageTypes) =>
      appendRelation
        {| Source := podResource pod;
           Target := configMapResource cm;
           RelType := RelationshipTypeUses;
           Description := "uses as " +:+ usageTypes |} p
  | (false, _) => p
  end.

(** The loop over the deployments. *)
Definition deploymentUsage (cm : ConfigMap.t) (p : Processor) (deploy : Deployment.t)
    : Processor :=
  match findConfigMapUsage (Deployment.Template deploy) (ConfigMap.Name cm) with
  | (true, usageTypes) =>
      appendRelation
        {| Source := deploymentResource deploy;
           Target := configMapResource cm;
           RelType := RelationshipTypeUses;
           Description := "uses as " +:+ usageTypes |} p
  | (false, _) => p
  end.

(** The body of the loop over the ConfigMaps; each failed listing is a
    [continue]. *)
Definition processOne (c : client.Cluster) (namespace : string)
    (p : Processor) (cm : ConfigMap.t) : Processor :=
  let p := appendResource (configMapResource cm) p in
  let p := logRequest (client.ReqList "pods" namespace client.SelEverything) p in
  match client.ListPods c namespace client.SelEverything with
  | inl _ => p
  | inr pods =>
      let p := foldl (podUsage cm) p pods in
      let p := logRequest (client.ReqList "deployments" namespace client.SelEverything) p in
      match client.ListDeployments c namespace with
      | inl _ => p
      | inr deployments => foldl (deploymentUsage cm) p deployments
      end
  end.

(** [ConfigMapProcessor.Process(ctx, namespace)] *)
Definition Process (c : client.Cluster) (namespace : string) (p : Processor)
    : option error * Processor :=
  let p := logRequest (client.ReqList "configmaps" namespace client.SelEverything) p in
  match client.ListConfigMaps c namespace with
  | inl err => (Some ("failed to list configmaps: " +:+ err), p)
  | inr configmaps => (None, foldl (processOne c namespace) p configmaps)
  end.

End MapOrder.

End legacyConfigMap.

(** ** Package mapper: the relationship processor
    (second half of [mapper/mapper.go]) *)

Module RelationshipProcessor.
Import types legacy.

(** The innermost loop body of [processIngressRelationships]:
    [path.Backend.Service.Name] is read without a nil check, and a path
    without a service backend is a run-time panic ([None]). *)
Definition exposePath (c : client.Cluster) (namespace : string)
    (ingResource : Resource) (rule : Ingress.Rule)
    (p : Processor) (path : Ingress.HTTPPath) : option Processor :=
  match Ingress.BackendService path with
  | None => None
  | Some backend =>
      let svcName := Ingress.BackendName backend in
      let p := logRequest (client.ReqGet "services" namespace svcName) p in
      match client.GetService c namespace svcName with
      | inl _ => Some p
      | inr svc =>
          let svcResource :=
            {| Type_ := ResourceTypeService;
               Name := Service.Name svc;
               Namespace := Service.Namespace svc;
               Labels := Service.Labels svc;
               Data := ServicePtr svc;
               Status := noStatus |} in
          Some (appendRelation
                  {| Source := ingResource;
                     Target := svcResource;
                     RelType := RelationshipTypeExposes;
                     Description := "exposes via " +:+ Ingress.Host rule +:+
                                    Ingress.Path path |} p)
      end
  end.

(** The body of the loop over the ingresses. *)
Definition exposeIngress (c : client.Cluster) (namespace : string)
    (p : Processor) (ing : Ingress.t) : option Processor :=
  let ingResource := ingressResource ing in
  let p := appendResource ingResource p in
  foldP (λ p rule,
           match Ingress.HTTP rule with
           | Some paths => foldP (exposePath c namespace ingResource rule) p paths
           | None => Some p
           end)
        p (Ingress.Rules ing).

(** [processIngressRelationships] *)
Definition processIngressRelationships (c : client.Cluster) (namespace : string)
    (p : Processor) : option (option error * Processor) :=
  let p := logRequest (client.ReqList "ingresses" namespace client.SelEverything) p in
  match client.ListIngresses c namespace with
  | inl err => Some (Some ("failed to list ingresses: " +:+ err), p)
  | inr ingresses =>
      match foldP (exposeIngress c namespace) p ingresses with
      | Some p => Some (None, p)
      | None => None
      end
  end.

(** [addRelationships] *)
Definition addRelationships (p : Processor) (relationships : list Relationship)
    : Processor :=
  {| resources := resources p;
     relations := (relations p ++ relationships)%list;
     requests := requests p |}.

Section Coordinator.

(** The processors of [p.processors], each given by its [Process]
    computation on a fresh processor, in the order in which their
    goroutines finish. *)
Variable completion : list (M unit).

(** The goroutine started for one processor. *)
Definition goroutine (st : Processor * list error) (proc : M unit)
    : Processor * list error :=
  match proc newProcessor with
  | (Err err, _) => (st.1, (st.2 ++ [err])%list)
  | (Ok _, final) => (addRelationships st.1 (relations final), st.2)
  end.

(** [RelationshipProcessor.Process] *)
Definition Process (c : client.Cluster) (namespace : string) (p : Processor)
    : option (option error * Processor) :=
  let st := foldl goroutine (p, []) completion in
  match st.2 with
  | err :: _ => Some (Some ("processor error: " +:+ err), st.1)
  | [] =>
      match processIngressRelationships c namespace st.1 with
      | Some (Some err, p) =>
          Some (Some ("error processing ingress relationships: " +:+ err), p)
      | Some (None, p) => Some (None, p)
      | None => None
      end
  end.

End Coordinator.

(** The order of the layers in [VisualizeRelationships]. *)
Definition resourceOrder : list ResourceType :=
  [ResourceTypeIngress; ResourceTypeService; ResourceTypeDeployment;
   ResourceTypePod; ResourceTypeConfigMap].

(** The first loop of [VisualizeRelationships]: the relationships
    grouped by the type of their source. *)
Definition groupBySourceType (relations : list Relationship)
    : gmap string (list Relationship) :=
  foldl (λ groupedRelations rel,
           <[Type_ (Source rel) :=
               (default [] (groupedRelations !! Type_ (Source rel)) ++ [rel])%list]>
             groupedRelations)
        ∅ relations.

(** The two lines written for one relationship. *)
Definition relationLines (arrow : string) (relations : list Relationship)
    (i : nat) (rel : Relationship) : string :=
  let isLast := visualizer.lastIndex relations i in
  let prefix := utils.TreePrefix isLast in
  prefix +:+ " " +:+
    mapper.FormatResource (Type_ (Source rel)) (Name (Source rel)) +:+ utils.LF +:+
  "│   " +:+ arrow +:+ " " +:+
    mapper.FormatResource (Type_ (Target rel)) (Name (Target rel)) +:+
    " (" +:+ Description rel +:+ ")" +:+ utils.LF.

(** What is written for one resource type whose group exists. *)
Definition layer (arrow : string) (resType : ResourceType)
    (relations : list Relationship) : string :=
  "▼" +:+ utils.LF +:+
  "[" +:+ resType +:+ " Layer]" +:+ utils.LF +:+
  visualizer.forRange relations (relationLines arrow relations).

(** [VisualizeRelationships]. The arrow [utils.CreateArrow(4)] is the
    same for every relationship; [None] is its panic. *)
Definition VisualizeRelationships (p : Processor) : option string :=
  let groupedRelations := groupBySourceType (relations p) in
  match utils.CreateArrow 4 with
  | None => None
  | Some arrow =>
      Some (foldl (λ result resType,
                     match groupedRelations !! resType with
                     | Some relations => result +:+ layer arrow resType relations
                     | None => result
                     end)
                  ("External Traffic" +:+ utils.LF +:+ "│" +:+ utils.LF)
                  resourceOrder)
  end.

End RelationshipProcessor.

(** ** Package config (first half of [config/config.go]) *)

Module config.

Record ColorScheme := {
  ResourceTypes : gmap string string;
  Relationships : gmap string string;
  Status : gmap string string;
  Symbols : gmap string string;
}.

Module VisualOptions.
Record t := {
  ShowColors : bool;
  ShowDetails : bool;
  CompactView : bool;
  Format : string;
  GroupBy : string;
  MaxDepth : Z;
  FocusOn : list string;
  HideTypes : list string;
  CustomColors : ColorScheme;
}.
End VisualOptions.

(** [StringSliceFlag]; its method [Contains] is [mapper.Contains]. *)
Definition StringSliceFlag := list string.

(** [Config]; a nil [VisualOptions] is [None]. *)
Record Config := {
  Namespace : string;
  ExcludeNs : StringSliceFlag;
  KubeConfig : string;
  VisualOptions : option VisualOptions.t;
}.

(** [StringSliceFlag.String] *)
Definition String_ (s : StringSliceFlag) : string := Join s ",".

(** [StringSliceFlag.Set]: the flag after the call; the error returned
    is always nil. *)
Definition Set_ (s : StringSliceFlag) (value : string) : StringSliceFlag :=
  (s ++ [value])%list.

(** [DefaultResourceColors] *)
Definition DefaultResourceColors : gmap string string :=
  list_to_map
    [("Namespace", utils.ESC +:+ "[0;36m");
     ("Pod", utils.ESC +:+ "[0;32m");
     ("Service", utils.ESC +:+ "[0;34m");
     ("Ingress", utils.ESC +:+ "[0;35m");
     ("ConfigMap", utils.ESC +:+ "[0;33m");
     ("Deployment", utils.ESC +:+ "[1;34m");
     ("HPA", utils.ESC +:+ "[1;32m");
     ("Secret", utils.ESC +:+ "[1;31m");
     ("Default", utils.ESC +:+ "[0;37m")].

(** [DefaultRelationshipColors] *)
Definition DefaultRelationshipColors : gmap string string :=
  list_to_map
    [("owns", utils.ESC +:+ "[0;32m");
     ("uses", utils.ESC +:+ "[0;34m");
     ("exposes", utils.ESC +:+ "[0;35m");
     ("targets", utils.ESC +:+ "[0;36m");
     ("provides", utils.ESC +:+ "[0;33m");
     ("default", utils.ESC +:+ "[0;37m")].

(** [DefaultStatusColors] *)
Definition DefaultStatusColors : gmap string string :=
  list_to_map
    [("Running", utils.ESC +:+ "[0;32m");
     ("Pending", utils.ESC +:+ "[0;33m");
     ("Failed", utils.ESC +:+ "[0;31m");
     ("Succeeded", utils.ESC +:+ "[0;32m");
     ("Unknown", utils.ESC +:+ "[0;37m");
     ("Warning", utils.ESC +:+ "[0;33m");
     ("Error", utils.ESC +:+ "[0;31m");
     ("Info", utils.ESC +:+ "[0;34m")].

(** [DefaultSymbols]; the literals are those of the source file. *)
Definition DefaultSymbols : gmap string string :=
  list_to_map
    [("arrow", "âžœ");
     ("dot", "â—");
     ("success", "âœ“");
     ("warning", "âš ");
     ("error", "âœ—");
     ("info", "â„¹");
     ("tree", "â”œâ”€â”€");
     ("treeLast", "â””â”€â”€");
     ("treeVert", "â”‚");
     ("autoscale", "âŸ³");
     ("lock", "ðŸ”’");
     ("connection", "â‡„")].

(** [DefaultConfig] *)
Definition DefaultConfig : Config :=
  {| Namespace := "";
     ExcludeNs := [];
     KubeConfig := "";
     VisualOptions :=
       Some {| VisualOptions.ShowColors := true;
               VisualOptions.ShowDetails := true;
               VisualOptions.CompactView := false;
               VisualOptions.Format := "text";
               VisualOptions.GroupBy := "namespace";
               VisualOptions.MaxDepth := 5;
               VisualOptions.FocusOn := [];
               VisualOptions.HideTypes := [];
               VisualOptions.CustomColors :=
                 {| ResourceTypes := DefaultResourceColors;
                    Relationships := DefaultRelationshipColors;
                    Status := DefaultStatusColors;
                    Symbols := DefaultSymbols |} |} |}.

(** The test on one character in the loop of [IsValidNamespaceName]. *)
Definition validNameChar (c : ascii) : bool :=
  let n := nat_of_ascii c in
  (bool_decide (nat_of_ascii "a" ≤ n)%nat && bool_decide (n ≤ nat_of_ascii "z")%nat)
  || (bool_decide (nat_of_ascii "0" ≤ n)%nat && bool_decide (n ≤ nat_of_ascii "9")%nat)
  || bool_decide (c = "-"%char).

(** The loop of [IsValidNamespaceName]: [validName] starts as [true]
    and the loop stops at the first character that fails the test. The
    loop walks the runes of the name; a rune outside ASCII fails the
    test, and so does each of the bytes that encode it, so the walk over
    the bytes gives the same answer. *)
Fixpoint validNameLoop (name : string) : bool :=
  match name with
  | "" => true
  | String c name' => if validNameChar c then validNameLoop name' else false
  end.

(** [IsValidNamespaceName] *)
Definition IsValidNamespaceName (name : string) : bool :=
  if bool_decide (String.length name = 0)%nat ||
     bool_decide (253 < String.length name)%nat then false
  else validNameLoop name.

Section Validate.

(** [os.Stat(path)] returns no error. *)
Variable Stat : string → bool.

Definition validFormats : gmap string bool :=
  list_to_map [("text", true); ("json", true); ("yaml", true)].

Definition validGroupings : gmap string bool :=
  list_to_map [("namespace", true); ("type", true); ("none", true)].

(** [Config.Validate]: the error returned and the configuration after
    the call, which installs the default [VisualOptions] when there are
    none. *)
Definition Validate (c : Config) : option error * Config :=
  if bool_decide (KubeConfig c ≠ "") && negb (Stat (KubeConfig c)) then
    (Some ("kubeconfig file not found: " +:+ KubeConfig c), c)
  else if bool_decide (Namespace c ≠ "") && negb (IsValidNamespaceName (Namespace c)) then
    (Some ("invalid namespace name: " +:+ Namespace c), c)
  else
    let options :=
      match VisualOptions c with
      | Some options => Some options
      | None => VisualOptions DefaultConfig
      end in
    let c := {| Namespace := Namespace c; ExcludeNs := ExcludeNs c;
                KubeConfig := KubeConfig c; VisualOptions := options |} in
    match options with
    | None => (None, c)
    | Some options =>
        if negb (default false (validFormats !! VisualOptions.Format options)) then
          (Some ("invalid output format: " +:+ VisualOptions.Format options), c)
        else if negb (default false (validGroupings !! VisualOptions.GroupBy options)) then
          (Some ("invalid grouping: " +:+ VisualOptions.GroupBy options), c)
        else if decide (VisualOptions.MaxDepth options < 1) then
          (Some ("invalid max depth: " +:+ fmt_d (VisualOptions.MaxDepth options) +:+
                 " (must be >= 1)"), c)
        else (None, c)
    end.

End Validate.

End config.

(** * Properties *)

(** ** Loops that build a slice with [append] *)

Section SliceLoops.
Context {A B : Type}.

Lemma foldl_append_map (f : A → B) (l : list A) (init : list B) :
  foldl (λ acc x, acc ++ [f x]) init l = init ++ map f l.
Proof.
  revert init. induction l as [|x l IH]; intros init; simpl.
  - by rewrite app_nil_r.
  - by rewrite IH, <- app_assoc.
Qed.

Lemma foldl_append_filter (P : A → Prop) `{!∀ x, Decision (P x)}
    (l : list A) (init : list A) :
  foldl (λ acc x, if decide (P x) then acc ++ [x] else acc) init l
  = init ++ filter P l.
Proof.
  revert init. induction l as [|x l IH]; intros init; simpl.
  - by rewrite app_nil_r.
  - rewrite IH, filter_cons. destruct (decide (P x)); [|done].
    by rewrite <- app_assoc.
Qed.

Lemma flat_map_nil (l : list A) : flat_map (λ _ : A, @nil B) l = [].
Proof. by induction l. Qed.

End SliceLoops.

(** ** Replica status *)

Section ReplicaStatus.
Import types.

Definition deploymentWith (ready desired : Z) : Deployment.t :=
  {| Deployment.Name := "web"; Deployment.Namespace := "default";
     Deployment.Labels := ∅;
     Deployment.Replicas := desired; Deployment.ReadyReplicas := ready;
     Deployment.Template := {| PodSpec.Volumes := []; PodSpec.Containers := [] |} |}.

Example status_2_of_2 :
  DeploymentProcessor.getDeploymentStatus (deploymentWith 2 2)
  = {| Phase := "Ready"; Ready := true; Details := "2/2 replicas ready" |}.
Proof. reflexivity. Qed.

Example status_1_of_3 :
  DeploymentProcessor.getDeploymentStatus (deploymentWith 1 3)
  = {| Phase := "PartiallyReady"; Ready := false; Details := "1/3 replicas ready" |}.
Proof. reflexivity. Qed.

Example status_0_of_3 :
  DeploymentProcessor.getDeploymentStatus (deploymentWith 0 3)
  = {| Phase := "NotReady"; Ready := false; Details := "0/3 replicas ready" |}.
Proof. reflexivity. Qed.

(** C7, as stated, fails: a deployment scaled to zero whose last pod is
    still ready has [desired = 0] and is classified as partially ready,
    not as fully ready. *)
Lemma replica_status_desired_zero_counterexample :
  ¬ (∀ deploy : Deployment.t,
       Deployment.Replicas deploy = 0 ∨
       Deployment.ReadyReplicas deploy = Deployment.Replicas deploy →
       Phase (DeploymentProcessor.getDeploymentStatus deploy) = "Ready").
Proof.
  intros H. specialize (H (deploymentWith 1 0) (or_introl eq_refl)).
  vm_compute in H. discriminate H.
Qed.

(** C7, amended: the status text is ["<ready>/<desired> replicas ready"];
    a deployment is fully ready exactly when [ready = desired] (so with
    [desired = 0] only when [ready = 0] too), partially ready exactly
    when [ready > 0] and [ready ≠ desired], and not ready exactly when
    [ready ≤ 0] and [ready ≠ desired]; the renderer's status symbol
    follows the same three cases. *)
Theorem replica_status_classification (deploy : Deployment.t) (v : visualizer.Visualizer) :
  let ready := Deployment.ReadyReplicas deploy in
  let desired := Deployment.Replicas deploy in
  let status := DeploymentProcessor.getDeploymentStatus deploy in
  Details status = pretty ready +:+ "/" +:+ pretty desired +:+ " replicas ready"
  ∧ (Phase status = "Ready" ↔ ready = desired)
  ∧ (Ready status = true ↔ ready = desired)
  ∧ (Phase status = "PartiallyReady" ↔ ready ≠ desired ∧ 0 < ready)
  ∧ (Phase status = "NotReady" ↔ ready ≠ desired ∧ ready ≤ 0)
  ∧ visualizer.getDeploymentStatusSymbol v ready desired
    = visualizer.colorize v
        (if decide (ready = desired) then utils.ColorGreen
         else if decide (0 < ready) then utils.ColorYellow else utils.ColorRed)
        (if decide (ready = desired) then visualizer.successSymbol
         else if decide (0 < ready) then visualizer.warningSymbol
              else visualizer.errorSymbol).
Proof.
  intros ready desired status. subst status.
  unfold DeploymentProcessor.getDeploymentStatus, visualizer.getDeploymentStatusSymbol.
  fold ready desired.
  destruct (decide (ready = desired)) as [Heq|Hne]; simpl.
  - repeat split; try done; try (intros [? ?]; done).
  - destruct (decide (ready > 0)) as [Hpos|Hnpos]; simpl.
    + destruct (decide (0 < ready)); [|lia].
      repeat split; try done; try lia; try (intros [? ?]; lia).
    + destruct (decide (0 < ready)); [lia|].
      repeat split; try done; try lia; try (intros [? ?]; lia).
Qed.

End ReplicaStatus.

(** ** Port descriptions *)

Section PortDescription.

(** The entry of the design document: ["<port>→<targetPort>/<protocol>"]. *)
Definition portEntry (port targetPort : Z) (protocol : string) : string :=
  pretty port +:+ "→" +:+ pretty targetPort +:+ "/" +:+ protocol.

(** One entry per declared port, in declared order, joined with a comma
    and a space; [targetOf] gives the target port shown for a port. *)
Fixpoint described (targetOf : ServicePort.t → Z) (ports : list ServicePort.t) : string :=
  match ports with
  | [] => ""
  | port :: rest =>
      let entry := portEntry (ServicePort.Port port) (targetOf port)
                             (ServicePort.Protocol port) in
      match rest with
      | [] => entry
      | _ :: _ => entry +:+ ", " +:+ described targetOf rest
      end
  end.

(** The resolved target port of the design document: a target port
    given as a number is that number, and one given by name is the
    container port of that name in the pods behind the service, which
    [containerPort] looks up. *)
Definition resolvedTargetPort (containerPort : string → Z) (port : ServicePort.t) : Z :=
  if ServicePort.IsString (ServicePort.TargetPort port)
  then containerPort (ServicePort.StrVal (ServicePort.TargetPort port))
  else ServicePort.IntVal (ServicePort.TargetPort port).

(** The description of the design document: the declared port, the
    resolved target port and the protocol of every declared port. *)
Definition portDescription (containerPort : string → Z) (ports : list ServicePort.t)
    : string :=
  described (resolvedTargetPort containerPort) ports.

(** The target port that the code prints: the field [IntVal], which the
    API leaves at zero for a target port given by name. *)
Definition printedTargetPort (port : ServicePort.t) : Z :=
  ServicePort.IntVal (ServicePort.TargetPort port).

Lemma Join_map_described (ports : list ServicePort.t) :
  Join (map ServiceProcessor.formatPort ports) ", " = described printedTargetPort ports.
Proof.
  induction ports as [|port rest IH]; [done|].
  destruct rest as [|port' rest]; [done|].
  change (ServiceProcessor.formatPort port +:+ ", " +:+
          Join (map ServiceProcessor.formatPort (port' :: rest)) ", "
          = ServiceProcessor.formatPort port +:+ ", " +:+
            described printedTargetPort (port' :: rest)).
  by rewrite IH.
Qed.

Lemma described_ext (f g : ServicePort.t → Z) (ports : list ServicePort.t) :
  Forall (λ port, f port = g port) ports → described f ports = described g ports.
Proof.
  induction 1 as [|port rest Hport _ IH]; [done|].
  simpl. rewrite Hport. destruct rest; [done|]. by rewrite IH.
Qed.

Definition numbered (port target : Z) (protocol : string) : ServicePort.t :=
  {| ServicePort.Port := port;
     ServicePort.TargetPort := {| ServicePort.IsString := false;
                                  ServicePort.IntVal := target;
                                  ServicePort.StrVal := "" |};
     ServicePort.Protocol := protocol; ServicePort.NodePort := 0 |}.

(** A target port given by name, as the API returns it. *)
Definition named (port : Z) (target protocol : string) : ServicePort.t :=
  {| ServicePort.Port := port;
     ServicePort.TargetPort := {| ServicePort.IsString := true;
                                  ServicePort.IntVal := 0;
                                  ServicePort.StrVal := target |};
     ServicePort.Protocol := protocol; ServicePort.NodePort := 0 |}.

Example two_ports :
  ServiceProcessor.formatPorts [numbered 80 8080 "TCP"; numbered 53 5353 "UDP"]
  = "80→8080/TCP, 53→5353/UDP".
Proof. reflexivity. Qed.

(** C8, as stated, fails: for a target port given by name the entry
    shows 0, not the container port that the name resolves to. *)
Lemma formatPorts_named_target_counterexample :
  let containerPort name := if decide (name = "http") then 8080 else 0 in
  portDescription containerPort [named 80 "http" "TCP"] = "80→8080/TCP"
  ∧ ServiceProcessor.formatPorts [named 80 "http" "TCP"] = "80→0/TCP"
  ∧ visualizer.formatPorts [named 80 "http" "TCP"] = "80→0/TCP"
  ∧ ¬ (∀ ports, ServiceProcessor.formatPorts ports = portDescription containerPort ports).
Proof.
  split; [reflexivity|]. split; [reflexivity|]. split; [reflexivity|].
  intros H. specialize (H [named 80 "http" "TCP"]). vm_compute in H. discriminate H.
Qed.

(** C8, amended: both [formatPorts] functions (the processor's and the
    renderer's) print the same text: one ["<port>→<n>/<protocol>"] entry
    per declared port, in the declared order, joined with [", "], where
    [n] is the field [IntVal] of the target port. The text is the
    description of the design document whenever every target port given
    by name resolves to that field; this is the case when all target
    ports are numbers, and for the ports of an API object exactly when
    the names are taken to resolve to 0. *)
Theorem formatPorts_declared_order (ports : list ServicePort.t) :
  ServiceProcessor.formatPorts ports = described printedTargetPort ports
  ∧ visualizer.formatPorts ports = ServiceProcessor.formatPorts ports
  ∧ (∀ containerPort,
       Forall (λ port, ServicePort.IsString (ServicePort.TargetPort port) = true →
                       containerPort (ServicePort.StrVal (ServicePort.TargetPort port))
                       = ServicePort.IntVal (ServicePort.TargetPort port)) ports →
       ServiceProcessor.formatPorts ports = portDescription containerPort ports)
  ∧ (∀ containerPort,
       Forall (λ port, ServicePort.IsString (ServicePort.TargetPort port) = false) ports →
       ServiceProcessor.formatPorts ports = portDescription containerPort ports)
  ∧ (Forall (λ port, ServicePort.IsString (ServicePort.TargetPort port) = true →
                     ServicePort.IntVal (ServicePort.TargetPort port) = 0) ports →
     ServiceProcessor.formatPorts ports = portDescription (λ _, 0) ports).
Proof.
  assert (ServiceProcessor.formatPorts ports = described printedTargetPort ports) as Hcode.
  { unfold ServiceProcessor.formatPorts.
    rewrite (foldl_append_map ServiceProcessor.formatPort). simpl.
    apply Join_map_described. }
  assert (∀ containerPort,
            Forall (λ port, ServicePort.IsString (ServicePort.TargetPort port) = true →
                            containerPort (ServicePort.StrVal (ServicePort.TargetPort port))
                            = ServicePort.IntVal (ServicePort.TargetPort port)) ports →
            ServiceProcessor.formatPorts ports = portDescription containerPort ports)
    as Hspec.
  { intros containerPort Hnames. rewrite Hcode. unfold portDescription.
    apply described_ext. eapply Forall_impl; [exact Hnames|].
    intros port Hport. unfold printedTargetPort, resolvedTargetPort.
    destruct (ServicePort.IsString (ServicePort.TargetPort port)) eqn:Hstring; [|done].
    exact (eq_sym (Hport Hstring)). }
  split; [exact Hcode|]. split; [|split; [exact Hspec|split]].
  - rewrite Hcode. unfold visualizer.formatPorts.
    rewrite (foldl_append_map ServiceProcessor.formatPort). simpl.
    apply Join_map_described.
  - intros containerPort Hnumbers. apply Hspec.
    eapply Forall_impl; [exact Hnumbers|]. intros port ->. done.
  - intros Hzero. apply Hspec.
    eapply Forall_impl; [exact Hzero|]. intros port Hport Hstring.
    exact (eq_sym (Hport Hstring)).
Qed.

End PortDescription.

(** ** The renderer's lookups *)

Section RendererLookups.
Import types visualizer.

Lemma filterResourcesByType_filter (v : Visualizer) (resourceType : ResourceType) :
  filterResourcesByType v resourceType
  = filter (λ r, Type_ r = resourceType) (Resources (resourceMapping v)).
Proof. unfold filterResourcesByType. by rewrite foldl_append_filter. Qed.

Lemma findRelationships_filter (v : Visualizer) (source : Resource)
    (relType : RelationshipType) :
  findRelationships v source relType
  = filter (λ r, Name (Source r) = Name source ∧
                 Type_ (Source r) = Type_ source ∧ RelType r = relType)
           (Relationships (resourceMapping v)).
Proof. unfold findRelationships. by rewrite foldl_append_filter. Qed.

Lemma findRelationshipsForTarget_filter (v : Visualizer) (target : Resource)
    (relType : RelationshipType) :
  findRelationshipsForTarget v target relType
  = filter (λ r, Name (Target r) = Name target ∧
                 Type_ (Target r) = Type_ target ∧ RelType r = relType)
           (Relationships (resourceMapping v)).
Proof. unfold findRelationshipsForTarget. by rewrite foldl_append_filter. Qed.

(** C10: the renderer looks relationships up by the name and the type of
    the resource only. [findRelationships] returns, in the order of the
    mapping, exactly the relationships of the requested type whose
    source has the name and the type of the resource, and
    [findRelationshipsForTarget] does the same with the target; the
    namespace of the resource is never read. Two resources [a] and [b]
    with the same type and name therefore get the same relationship
    lists, whatever their namespaces: every edge leaving (or reaching)
    [b] is listed under [a] as well, and nothing else is. *)
Theorem findRelationships_ignores_namespace (v : Visualizer) (a b : Resource)
    (relType : RelationshipType) :
  Name a = Name b →
  Type_ a = Type_ b →
  findRelationships v a relType
  = filter (λ r, Name (Source r) = Name a ∧ Type_ (Source r) = Type_ a
                 ∧ RelType r = relType)
           (Relationships (resourceMapping v))
  ∧ findRelationshipsForTarget v a relType
    = filter (λ r, Name (Target r) = Name a ∧ Type_ (Target r) = Type_ a
                   ∧ RelType r = relType)
             (Relationships (resourceMapping v))
  ∧ findRelationships v a relType = findRelationships v b relType
  ∧ findRelationshipsForTarget v a relType = findRelationshipsForTarget v b relType
  ∧ (∀ r, r ∈ findRelationships v a relType
          ↔ r ∈ Relationships (resourceMapping v)
            ∧ Name (Source r) = Name b ∧ Type_ (Source r) = Type_ b
            ∧ RelType r = relType)
  ∧ (∀ r, r ∈ findRelationshipsForTarget v a relType
          ↔ r ∈ Relationships (resourceMapping v)
            ∧ Name (Target r) = Name b ∧ Type_ (Target r) = Type_ b
            ∧ RelType r = relType)
  ∧ (∀ r, r ∈ Relationships (resourceMapping v) →
          Source r = b → RelType r = relType →
          r ∈ findRelationships v a relType)
  ∧ (∀ r, r ∈ Relationships (resourceMapping v) →
          Target r = b → RelType r = relType →
          r ∈ findRelationshipsForTarget v a relType).
Proof.
  intros Hname Htype.
  rewrite !findRelationships_filter, !findRelationshipsForTarget_filter.
  rewrite Hname, Htype.
  split; [done|]. split; [done|]. split; [done|]. split; [done|].
  split; [|split; [|split]].
  - intros r. rewrite list_elem_of_filter. tauto.
  - intros r. rewrite list_elem_of_filter. tauto.
  - intros r Hin Hsrc Hrel. apply list_elem_of_filter. by subst.
  - intros r Hin Htgt Hrel. apply list_elem_of_filter. by subst.
Qed.

(** Two ingresses called [web], in the namespaces [team-a] and [team-b],
    each routing to the service [api] of its own namespace. *)
Definition plainResource (type name namespace : string) : Resource :=
  {| Type_ := type; Name := name; Namespace := namespace; Labels := ∅;
     Data := NoData; Status := noStatus |}.

Definition webA := plainResource ResourceTypeIngress "web" "team-a".
Definition webB := plainResource ResourceTypeIngress "web" "team-b".
Definition edgeA : Relationship :=
  {| Source := webA; Target := plainResource ResourceTypeService "api" "team-a";
     RelType := RelationshipTypeExposes; Description := "host: a.example.com, path: /" |}.
Definition edgeB : Relationship :=
  {| Source := webB; Target := plainResource ResourceTypeService "api" "team-b";
     RelType := RelationshipTypeExposes; Description := "host: b.example.com, path: /" |}.
Definition twoTeams : Visualizer :=
  SetOptions (NewVisualizer {| Resources := [webA; webB];
                               Relationships := [edgeA; edgeB] |})
             true false.

Example both_edges_under_each :
  findRelationships twoTeams webA RelationshipTypeExposes = [edgeA; edgeB]
  ∧ findRelationships twoTeams webB RelationshipTypeExposes = [edgeA; edgeB].
Proof. split; reflexivity. Qed.

Example ingress_layer_of_two_teams :
  renderIngressLayer true twoTeams
  = "[Ingress Layer]" +:+ utils.LF +:+
    "├── ● Ingress/web" +:+ utils.LF +:+
    "│     ➜ Service/api via host: a.example.com, path: /" +:+ utils.LF +:+
    "│     ➜ Service/api via host: b.example.com, path: /" +:+ utils.LF +:+
    "└── ● Ingress/web" +:+ utils.LF +:+
    "│     ➜ Service/api via host: a.example.com, path: /" +:+ utils.LF +:+
    "      ➜ Service/api via host: b.example.com, path: /" +:+ utils.LF.
Proof. vm_compute. reflexivity. Qed.

(** A third edge, leaving an ingress of another name, and a fourth of
    another relationship type. *)
Definition edgeOther : Relationship :=
  {| Source := plainResource ResourceTypeIngress "admin" "team-a";
     Target := plainResource ResourceTypeService "api" "team-a";
     RelType := RelationshipTypeExposes; Description := "host: admin.example.com, path: /" |}.
Definition edgeUses : Relationship :=
  {| Source := webA; Target := plainResource ResourceTypeSecret "web-tls" "team-a";
     RelType := RelationshipTypeUses; Description := "TLS" |}.
Definition fourEdges : Visualizer :=
  SetOptions (NewVisualizer {| Resources := [webA; webB];
                               Relationships := [edgeOther; edgeA; edgeUses; edgeB] |})
             true false.

Example only_matching_edges :
  findRelationships fourEdges webA RelationshipTypeExposes = [edgeA; edgeB]
  ∧ findRelationshipsForTarget fourEdges
      (plainResource ResourceTypeService "api" "elsewhere") RelationshipTypeExposes
    = [edgeOther; edgeA; edgeB].
Proof. split; reflexivity. Qed.

(** C10 at the two ingresses called [web]. *)
Lemma findRelationships_ignores_namespace_witness :
  Name webA = Name webB ∧ Type_ webA = Type_ webB
  ∧ Namespace webA ≠ Namespace webB
  ∧ findRelationships fourEdges webA RelationshipTypeExposes
    = findRelationships fourEdges webB RelationshipTypeExposes
  ∧ edgeB ∈ findRelationships fourEdges webA RelationshipTypeExposes
  ∧ (edgeOther ∉ findRelationships fourEdges webA RelationshipTypeExposes)
  ∧ (edgeUses ∉ findRelationships fourEdges webA RelationshipTypeExposes).
Proof.
  split; [reflexivity|]. split; [reflexivity|]. split; [discriminate|].
  destruct (findRelationships_ignores_namespace fourEdges webA webB
              RelationshipTypeExposes eq_refl eq_refl)
    as (_ & _ & Hsame & _ & Hiff & _ & Hout & _).
  split; [exact Hsame|]. split; [|split].
  - apply (Hout edgeB); [|reflexivity|reflexivity].
    apply list_elem_of_In. right. right. right. left. reflexivity.
  - intros Hin. apply Hiff in Hin as (_ & Hname & _). discriminate Hname.
  - intros Hin. apply Hiff in Hin as (_ & _ & _ & Hrel). discriminate Hrel.
Defined.

End RendererLookups.

(** ** Determinism and order of the rendering *)

Section RenderOrder.
Import types visualizer.

(** The order of the design document: by namespace, then by name. *)
Definition byNamespaceName (r1 r2 : Resource) : Prop :=
  String.le (Namespace r1) (Namespace r2) ∧
  (Namespace r1 = Namespace r2 → String.le (Name r1) (Name r2)).

(** Two ingresses discovered in the order [zeta], [alpha]. *)
Definition zeta := plainResource ResourceTypeIngress "zeta" "default".
Definition alpha := plainResource ResourceTypeIngress "alpha" "default".
Definition discovered : Visualizer :=
  SetOptions (NewVisualizer {| Resources := [zeta; alpha]; Relationships := [] |})
             true false.

Example discovery_order_is_kept :
  renderIngressLayer true discovered
  = "[Ingress Layer]" +:+ utils.LF +:+
    "├── ● Ingress/zeta" +:+ utils.LF +:+
    "└── ● Ingress/alpha" +:+ utils.LF.
Proof. vm_compute. reflexivity. Qed.

(** C6, as stated, fails on both counts: the layer lists its resources
    in the order of the mapping, here [zeta] before [alpha], which is
    not sorted by (namespace, name); and the header carries the time of
    the rendering, so two renderings of the same mapping made at
    different clock readings differ. *)
Lemma render_sorted_deterministic_counterexample :
  ¬ Sorted byNamespaceName (filterResourcesByType discovered ResourceTypeIngress)
  ∧ RenderClusterView true discovered "2024-01-01 10:00:00"
    ≠ RenderClusterView true discovered "2024-01-01 10:00:01".
Proof.
  split.
  - intros Hsorted.
    change (filterResourcesByType discovered ResourceTypeIngress)
      with [zeta; alpha] in Hsorted.
    apply Sorted_inv in Hsorted as [_ Hhd].
    apply HdRel_inv in Hhd as [_ Hname].
    specialize (Hname eq_refl). vm_compute in Hname. exact Hname.
  - vm_compute. discriminate.
Qed.

End RenderOrder.

(** ** What a run of a processor method adds *)

Section Contributions.
Import types.

(** [extend p rs rels reqs]: the processor [p] after the resources
    [rs], the relationships [rels] and the requests [reqs] were added
    at the end of its slices. *)
Definition extend (p : Processor) (rs : list Resource) (rels : list Relationship)
    (reqs : list client.Request) : Processor :=
  {| resources := resources p ++ rs;
     relations := relations p ++ rels;
     requests := requests p ++ reqs |}.

Lemma extend_nil (p : Processor) : extend p [] [] [] = p.
Proof. destruct p. unfold extend. simpl. by rewrite !app_nil_r. Qed.

Lemma extend_extend p rs rels reqs rs' rels' reqs' :
  extend (extend p rs rels reqs) rs' rels' reqs'
  = extend p (rs ++ rs') (rels ++ rels') (reqs ++ reqs').
Proof. unfold extend. simpl. by rewrite !app_assoc. Qed.

Lemma addResource_extend r p : addResource r p = (Ok tt, extend p [r] [] []).
Proof. unfold addResource, extend. by rewrite !app_nil_r. Qed.

Lemma addRelationship_extend rel p :
  addRelationship rel p = (Ok tt, extend p [] [rel] []).
Proof. unfold addRelationship, extend. by rewrite !app_nil_r. Qed.

Lemma call_extend {A} req (answer : error + A) p :
  call req answer p = (Ok answer, extend p [] [] [req]).
Proof. unfold call, extend. by rewrite !app_nil_r. Qed.

(** A loop whose body never fails and only appends adds the
    concatenation of what its iterations add. *)
Lemma forM_extend {A} (body : A → M unit)
    (rs : A → list Resource) (rels : A → list Relationship)
    (reqs : A → list client.Request) (l : list A) :
  (∀ x p, x ∈ l → body x p = (Ok tt, extend p (rs x) (rels x) (reqs x))) →
  ∀ p, forM l body p
       = (Ok tt, extend p (flat_map rs l) (flat_map rels l) (flat_map reqs l)).
Proof.
  unfold forM. induction l as [|x l IH]; intros Hbody p; simpl.
  - by rewrite extend_nil.
  - unfold bind at 1. rewrite Hbody by left.
    rewrite IH by (intros; apply Hbody; by right).
    by rewrite extend_extend.
Qed.

End Contributions.

(** ** ConfigMap usage *)

Section ConfigMapUsage.
Import types ConfigMapProcessor.

(** [mark b key m]: the assignment [m[key] = true] executed when [b]. *)
Definition mark (b : bool) (key : string) (m : gmap string bool) : gmap string bool :=
  if b then <[key := true]> m else m.

Lemma mark_mark b b' key m : mark b key (mark b' key m) = mark (b || b') key m.
Proof. destruct b, b'; simpl; try done. apply insert_insert_eq. Qed.

Lemma mark_comm b b' key key' m :
  key ≠ key' → mark b key (mark b' key' m) = mark b' key' (mark b key m).
Proof. intros Hne. destruct b, b'; simpl; try done. by apply insert_insert_ne. Qed.

Lemma mark_loop {X} (P : X → Prop) `{!∀ x, Decision (P x)} (key : string)
    (l : list X) (m : gmap string bool) :
  foldl (λ m x, if decide (P x) then <[key := true]> m else m) m l
  = mark (existsb (λ x, bool_decide (P x)) l) key m.
Proof.
  revert m. induction l as [|x l IH]; intros m; simpl; [done|].
  rewrite IH. destruct (decide (P x)) as [HP|HP].
  - rewrite (bool_decide_eq_true_2 _ HP). simpl.
    change (<[key:=true]> m) with (mark true key m).
    rewrite mark_mark. by rewrite orb_true_r.
  - by rewrite (bool_decide_eq_false_2 _ HP).
Qed.

(** The three ways in which a pod spec refers to a ConfigMap. *)
Definition viaVolume (spec : PodSpec.t) (name : string) : bool :=
  existsb (λ volume, bool_decide (PodSpec.VolumeConfigMap volume = Some name))
          (PodSpec.Volumes spec).

Definition viaEnvFrom (spec : PodSpec.t) (name : string) : bool :=
  existsb (λ container,
             existsb (λ envFrom, bool_decide (PodSpec.ConfigMapRef envFrom = Some name))
                     (PodSpec.EnvFrom container))
          (PodSpec.Containers spec).

Definition viaEnv (spec : PodSpec.t) (name : string) : bool :=
  existsb (λ container,
             existsb (λ env, bool_decide (PodSpec.ConfigMapKeyRef env = Some name))
                     (PodSpec.Env container))
          (PodSpec.Containers spec).

Lemma usageTypesOf_marks (spec : PodSpec.t) (name : string) :
  usageTypesOf spec name
  = mark (viaEnv spec name) "environment variable"
      (mark (viaEnvFrom spec name) "environment"
         (mark (viaVolume spec name) "volume" ∅)).
Proof.
  unfold usageTypesOf, viaVolume, viaEnvFrom, viaEnv.
  rewrite mark_loop.
  generalize (mark (existsb (λ volume,
                bool_decide (PodSpec.VolumeConfigMap volume = Some name))
                (PodSpec.Volumes spec)) "volume" ∅).
  induction (PodSpec.Containers spec) as [|container l IH]; intros m; simpl; [done|].
  rewrite !mark_loop, IH.
  rewrite (mark_comm _ _ "environment" "environment variable") by done.
  rewrite !mark_mark.
  by rewrite (orb_comm (existsb _ l)), (orb_comm (existsb _ l)).
Qed.

(** The keys come out deduplicated and in byte-wise order, whichever of
    the three modes occur. *)
Lemma findConfigMapUsageInPodTemplate_sorted (template : PodSpec.t) (name : string) :
  findConfigMapUsageInPodTemplate template name
  = (if viaEnvFrom template name then ["environment"] else []) ++
    (if viaEnv template name then ["environment variable"] else []) ++
    (if viaVolume template name then ["volume"] else []).
Proof.
  unfold findConfigMapUsageInPodTemplate. rewrite usageTypesOf_marks.
  destruct (viaEnv template name), (viaEnvFrom template name),
           (viaVolume template name); vm_compute; reflexivity.
Qed.

(** Go leaves the iteration order of a map unspecified; whatever order
    the keys are collected in, sorting gives the same slice. *)
Lemma mapKeysToSlice_any_order (m : gmap string bool) (keys : list string) :
  keys ≡ₚ (map_to_list m).*1 →
  merge_sort String.le keys = mapKeysToSlice m.
Proof.
  intros Hperm. unfold mapKeysToSlice.
  rewrite (foldl_append_map fst). simpl.
  apply (Sorted_unique String.le).
  - apply Sorted_merge_sort, _.
  - apply Sorted_merge_sort, _.
  - by rewrite !merge_sort_Permutation.
Qed.

End ConfigMapUsage.

Section ConfigMapEdges.
Import types ConfigMapProcessor.

Variable getDeploymentPhase : Deployment.t → string.




End ConfigMapEdges.

Section ConfigMapEdgesExample.
Import types ConfigMapProcessor.

Definition appConfig : ConfigMap.t :=
  {| ConfigMap.Name := "app-config"; ConfigMap.Namespace := "default";
     ConfigMap.Labels := ∅; ConfigMap.Data := ∅; ConfigMap.BinaryData := ∅ |}.

(** A deployment that mounts [app-config], imports it with [envFrom]
    and reads one key of it into a variable. *)
Definition webDeployment : Deployment.t :=
  {| Deployment.Name := "web"; Deployment.Namespace := "default";
     Deployment.Labels := ∅; Deployment.Replicas := 2; Deployment.ReadyReplicas := 2;
     Deployment.Template :=
       {| PodSpec.Volumes := [ {| PodSpec.VolumeConfigMap := Some "app-config" |} ];
          PodSpec.Containers :=
            [ {| PodSpec.EnvFrom := [ {| PodSpec.ConfigMapRef := Some "app-config" |} ];
                 PodSpec.Env := [ {| PodSpec.ConfigMapKeyRef := None |};
                                  {| PodSpec.ConfigMapKeyRef := Some "app-config" |} ] |} ]
       |} |}.

Definition smallCluster : client.Cluster :=
  {| client.Namespaces := ["default"];
     client.Pods := []; client.Services := []; client.Ingresses := [];
     client.Deployments := [webDeployment];
     client.ConfigMaps := [appConfig]; client.Secrets := [];
     client.IngressClasses := [];
     client.Refused := λ _ _, None |}.

End ConfigMapEdgesExample.

(** ** TLS secrets of an Ingress *)

Section TLSSecrets.
Import types IngressProcessor.

Variable c : client.Cluster.
Variable ing : Ingress.t.
Variable ingResource : Resource.

(** The [Get] request that one [spec.tls] entry causes. *)
Definition tlsRequests (tls : Ingress.TLS) : list client.Request :=
  if decide (Ingress.SecretName tls = "") then []
  else [client.ReqGet "secrets" (Ingress.Namespace ing) (Ingress.SecretName tls)].

(** The secret that one [spec.tls] entry resolves to. *)
Definition tlsSecret (tls : Ingress.TLS) : option Secret.t :=
  if decide (Ingress.SecretName tls = "") then None
  else match client.GetSecret c (Ingress.Namespace ing) (Ingress.SecretName tls) with
       | inr secret => Some secret
       | inl _ => None
       end.

Definition tlsSecretResource (tls : Ingress.TLS) (secret : Secret.t) : Resource :=
  {| Type_ := ResourceTypeSecret;
     Name := Secret.Name secret;
     Namespace := Secret.Namespace secret;
     Labels := Secret.Labels secret;
     Data := SecretPtr secret;
     Status := {| Phase := "Active"; Ready := true;
                  Details := "TLS secret for hosts: " +:+
                             Join (Ingress.Hosts tls) ", " |} |}.

Definition tlsResources (tls : Ingress.TLS) : list Resource :=
  match tlsSecret tls with
  | Some secret => [tlsSecretResource tls secret]
  | None => []
  end.

Definition tlsEdges (tls : Ingress.TLS) : list Relationship :=
  match tlsSecret tls with
  | Some secret =>
      [ {| Source := ingResource;
           Target := tlsSecretResource tls secret;
           RelType := RelationshipTypeUses;
           Description := "uses for TLS: " +:+ Join (Ingress.Hosts tls) ", " |} ]
  | None => []
  end.

(** C9: [processTLSSecrets] never returns an error. What it adds is the
    concatenation, over the [spec.tls] entries, of what each entry adds;
    an entry with an empty secret name adds nothing at all: no [Get]
    request, no resource, no edge; an entry whose [Get] fails adds its
    request only: no resource and no edge. *)
Theorem tls_entries_without_secret_are_skipped (p : Processor) :
  processTLSSecrets c ing ingResource p
  = (Ok tt,
     extend p (flat_map tlsResources (Ingress.SpecTLS ing))
              (flat_map tlsEdges (Ingress.SpecTLS ing))
              (flat_map tlsRequests (Ingress.SpecTLS ing)))
  ∧ (∀ tls, Ingress.SecretName tls = "" →
            tlsRequests tls = [] ∧ tlsResources tls = [] ∧ tlsEdges tls = [])
  ∧ (∀ tls err,
       client.GetSecret c (Ingress.Namespace ing) (Ingress.SecretName tls) = inl err →
       tlsResources tls = [] ∧ tlsEdges tls = []).
Proof.
  split; [|split].
  - unfold processTLSSecrets. apply forM_extend. intros tls q _.
    unfold tlsResources, tlsEdges, tlsSecret, tlsRequests.
    destruct (decide (Ingress.SecretName tls = "")) as [Hempty|Hname].
    + by rewrite extend_nil.
    + unfold bind at 1. rewrite call_extend.
      destruct (client.GetSecret c (Ingress.Namespace ing) (Ingress.SecretName tls))
        as [err|secret].
      * done.
      * unfold bind. rewrite addResource_extend, addRelationship_extend.
        by rewrite !extend_extend.
  - intros tls Hempty. unfold tlsRequests, tlsResources, tlsEdges, tlsSecret.
    by destruct (decide (Ingress.SecretName tls = "")).
  - intros tls err Hget. unfold tlsResources, tlsEdges, tlsSecret.
    rewrite Hget. by destruct (decide _).
Qed.

End TLSSecrets.

Section TLSSecretsExample.
Import types IngressProcessor.

Definition webCert : Secret.t :=
  {| Secret.Name := "web-cert"; Secret.Namespace := "default"; Secret.Labels := ∅ |}.

Definition tlsCluster : client.Cluster :=
  {| client.Namespaces := ["default"];
     client.Pods := []; client.Services := []; client.Ingresses := [];
     client.Deployments := []; client.ConfigMaps := [];
     client.Secrets := [webCert]; client.IngressClasses := [];
     client.Refused := λ _ _, None |}.

(** An ingress with three [spec.tls] entries: one without a secret
    name, one naming a secret that does not exist, one naming
    [web-cert]. *)
Definition tlsIngress : Ingress.t :=
  {| Ingress.Name := "web"; Ingress.Namespace := "default"; Ingress.Labels := ∅;
     Ingress.DefaultBackendService := None; Ingress.Rules := [];
     Ingress.SpecTLS :=
       [ {| Ingress.Hosts := ["a.example.com"]; Ingress.SecretName := "" |};
         {| Ingress.Hosts := ["b.example.com"]; Ingress.SecretName := "gone" |};
         {| Ingress.Hosts := ["c.example.com"; "d.example.com"];
            Ingress.SecretName := "web-cert" |} ];
     Ingress.IngressClassName := None; Ingress.LoadBalancer := [] |}.

Example tls_of_three_entries :
  let run := processTLSSecrets tlsCluster tlsIngress (ingressResource tlsIngress)
               newProcessor in
  run.1 = Ok tt
  ∧ requests run.2 = [ client.ReqGet "secrets" "default" "gone";
                       client.ReqGet "secrets" "default" "web-cert" ]
  ∧ Description <$> relations run.2 = ["uses for TLS: c.example.com, d.example.com"]
  ∧ Name <$> resources run.2 = ["web-cert"].
Proof. vm_compute. done. Qed.

End TLSSecretsExample.

(** ** Services and the pods they select *)

Section ServiceTargets.
Import types ServiceProcessor.


(** The edge that [processPods] records for a listed pod. *)
Definition targetsEdge (svc : Service.t) (svcResource : Resource) (pod : Pod.t)
    : Relationship :=
  {| Source := svcResource;
     Target := podResource pod;
     RelType := RelationshipTypeTargets;
     Description := "routes traffic to pod: " +:+ formatPorts (Service.Ports svc) |}.


Lemma processPods_lists (c : client.Cluster) (svc : Service.t)
    (svcResource : Resource) (sel : gmap string string) (pods : list Pod.t)
    (p : Processor) :
  Service.Selector svc = Some sel →
  client.ListPods c (Service.Namespace svc) (client.FormatLabelSelector sel) = inr pods →
  processPods c svc svcResource p
  = (Ok tt,
     extend p (map podResource pods) (map (targetsEdge svc svcResource) pods)
       [client.ReqList "pods" (Service.Namespace svc) (client.FormatLabelSelector sel)]).
Proof.
  intros Hsel Hlist. unfold processPods. rewrite Hsel.
  unfold bind at 1. rewrite call_extend, Hlist.
  rewrite (forM_extend _ (λ pod, [podResource pod])
             (λ pod, [targetsEdge svc svcResource pod]) (λ _, [])).
  - rewrite extend_extend, flat_map_nil. simpl.
    do 2 f_equal; clear; induction pods; simpl; congruence.
  - intros pod q _. unfold bind.
    rewrite addResource_extend, addRelationship_extend.
    by rewrite extend_extend.
Qed.



End ServiceTargets.

Section ServiceTargetsExample.
Import types ServiceProcessor.

Definition podNamed (name namespace : string) (labels : gmap string string) : Pod.t :=
  {| Pod.Name := name; Pod.Namespace := namespace; Pod.Labels := labels;
     Pod.Spec := {| PodSpec.Volumes := []; PodSpec.Containers := [] |};
     Pod.Phase := "Running"; Pod.ReadyCondition := Some "True" |}.

Definition serviceSelecting (selector : option (gmap string string)) : Service.t :=
  {| Service.Name := "web"; Service.Namespace := "default"; Service.Labels := ∅;
     Service.Selector := selector;
     Service.Ports :=
       [ {| ServicePort.Port := 80;
            ServicePort.TargetPort := {| ServicePort.IsString := false;
                                         ServicePort.IntVal := 8080;
                                         ServicePort.StrVal := "" |};
            ServicePort.Protocol := "TCP"; ServicePort.NodePort := 0 |} ];
     Service.Type_ := "ClusterIP"; Service.ClusterIP := "10.0.0.1";
     Service.LoadBalancer := [] |}.

(** Three pods carry [app=web]: two in [default], one of them with a
    further label, and one in [staging]; a fourth pod is the database. *)
Definition podCluster : client.Cluster :=
  {| client.Namespaces := ["default"; "staging"];
     client.Pods :=
       [ podNamed "web-1" "default" {["app" := "web"]};
         podNamed "db-1" "default" {["app" := "db"]};
         podNamed "web-2" "default" {["app" := "web"; "tier" := "front"]};
         podNamed "web-3" "staging" {["app" := "web"]} ];
     client.Services := []; client.Ingresses := [];
     client.Deployments := []; client.ConfigMaps := []; client.Secrets := [];
     client.IngressClasses := [];
     client.Refused := λ _ _, None |}.

Example targets_of_app_web :
  let svc := serviceSelecting (Some {["app" := "web"]}) in
  let run := processPods podCluster svc (serviceResource svc) newProcessor in
  run.1 = Ok tt
  ∧ (λ rel, (RelType rel, Name (Target rel), Namespace (Target rel), Description rel))
      <$> relations run.2
    = [ ("targets", "web-1", "default", "routes traffic to pod: 80→8080/TCP");
        ("targets", "web-2", "default", "routes traffic to pod: 80→8080/TCP") ].
Proof. vm_compute. done. Qed.

Example targets_without_selector :
  let svc := serviceSelecting None in
  processPods podCluster svc (serviceResource svc) newProcessor = (Ok tt, newProcessor).
Proof. reflexivity. Qed.

Example targets_of_empty_selector :
  let svc := serviceSelecting (Some ∅) in
  let run := processPods podCluster svc (serviceResource svc) newProcessor in
  run.1 = Err "failed to list pods: unable to parse requirement"
  ∧ relations run.2 = []
  ∧ requests run.2 = [client.ReqList "pods" "default" client.SelNoneLiteral].
Proof. vm_compute. done. Qed.

End ServiceTargetsExample.

(** ** Backend services of an Ingress *)

Section MonadLaws.

Lemma foldM_app {A B} (body : B → A → M B) (b : B) (l1 l2 : list A) (p : Processor) :
  foldM body b (l1 ++ l2) p = (b' <- foldM body b l1 ;; foldM body b' l2) p.
Proof.
  revert b p. induction l1 as [|x l1 IH]; intros b p; simpl.
  - unfold bind, ret. done.
  - unfold bind. destruct (body b x p) as [[b'|e] p']; [|done].
    rewrite IH. done.
Qed.

(** Nested loops are a loop over the concatenation. *)
Lemma foldM_flat_map {A B C} (inner : A → list C) (body : B → C → M B)
    (outer : B → A → M B) (l : list A) :
  (∀ b x p, outer b x p = foldM body b (inner x) p) →
  ∀ b p, foldM outer b l p = foldM body b (flat_map inner l) p.
Proof.
  intros Houter. induction l as [|x l IH]; intros b p; simpl; [done|].
  rewrite foldM_app. unfold bind. rewrite Houter.
  destruct (foldM body b (inner x) p) as [[b'|e] p']; [|done].
  apply IH.
Qed.

Lemma bind_ok {A B} (m : M A) (k : A → M B) (a : A) (p p' : Processor) :
  m p = (Ok a, p') → bind m k p = k a p'.
Proof. intros Hm. unfold bind. by rewrite Hm. Qed.

End MonadLaws.

Section BackendServices.
Import types IngressProcessor.

Variable c : client.Cluster.
Variable ing : Ingress.t.
Variable ingResource : Resource.

(** A reference to a backend service, with the description that
    [processBackendServices] would give to its edge. *)
Definition BackendRef : Type := Ingress.ServiceBackend * string.

Definition pathRefs (rule : Ingress.Rule) (path : Ingress.HTTPPath) : list BackendRef :=
  match Ingress.BackendService path with
  | Some backend =>
      [(backend, "host: " +:+ Ingress.Host rule +:+ ", path: " +:+ Ingress.Path path)]
  | None => []
  end.

Definition ruleRefs (rule : Ingress.Rule) : list BackendRef :=
  match Ingress.HTTP rule with
  | Some paths => flat_map (pathRefs rule) paths
  | None => []
  end.

(** The references of the ingress in the order in which they are
    visited: the default backend, then the paths of the rules. *)
Definition backendRefs : list BackendRef :=
  match Ingress.DefaultBackendService ing with
  | Some backend => [(backend, "default backend")]
  | None => []
  end ++ flat_map ruleRefs (Ingress.Rules ing).

(** The references that are not skipped: those whose service name was
    not met before. *)
Fixpoint firstRefs (processedServices : gmap string bool) (refs : list BackendRef)
    : list BackendRef :=
  match refs with
  | [] => []
  | ref :: rest =>
      if isProcessed processedServices (Ingress.BackendName ref.1)
      then firstRefs processedServices rest
      else ref :: firstRefs (<[Ingress.BackendName ref.1 := true]> processedServices) rest
  end.

Definition refRequest (ref : BackendRef) : client.Request :=
  client.ReqGet "services" (Ingress.Namespace ing) (Ingress.BackendName ref.1).

Definition refService (ref : BackendRef) : option Service.t :=
  match client.GetService c (Ingress.Namespace ing) (Ingress.BackendName ref.1) with
  | inr svc => Some svc
  | inl _ => None
  end.

Definition refResource (ref : BackendRef) (svc : Service.t) : Resource :=
  {| Type_ := ResourceTypeService;
     Name := Service.Name svc;
     Namespace := Service.Namespace svc;
     Labels := Service.Labels svc;
     Data := ServicePtr svc;
     Status := {| Phase := "Active"; Ready := true;
                  Details := "Port: " +:+ fmt_d (Ingress.PortNumber ref.1) |} |}.

Definition refResources (ref : BackendRef) : list Resource :=
  match refService ref with
  | Some svc => [refResource ref svc]
  | None => []
  end.

(** The [exposes] edge of a reference that resolves. *)
Definition refEdges (ref : BackendRef) : list Relationship :=
  match refService ref with
  | Some svc =>
      [ {| Source := ingResource;
           Target := refResource ref svc;
           RelType := RelationshipTypeExposes;
           Description := ref.2 |} ]
  | None => []
  end.

(** One visit of a reference. *)
Definition processRef (processedServices : gmap string bool) (ref : BackendRef)
    : M (gmap string bool) :=
  if isProcessed processedServices (Ingress.BackendName ref.1)
  then ret processedServices
  else
    processService c (Ingress.Namespace ing) ref.1 ingResource ref.2 ;;
    ret (<[Ingress.BackendName ref.1 := true]> processedServices).

Lemma processService_adds (ref : BackendRef) (p : Processor) :
  processService c (Ingress.Namespace ing) ref.1 ingResource ref.2 p
  = (Ok tt, extend p (refResources ref) (refEdges ref) [refRequest ref]).
Proof.
  unfold processService, refResources, refEdges, refService, refRequest.
  unfold bind at 1. rewrite call_extend.
  destruct (client.GetService c (Ingress.Namespace ing) (Ingress.BackendName ref.1))
    as [err|svc]; [done|].
  unfold bind. rewrite addResource_extend, addRelationship_extend.
  by rewrite !extend_extend.
Qed.

Lemma processPath_refs rule processedServices path p :
  processPath c ing ingResource rule processedServices path p
  = foldM processRef processedServices (pathRefs rule path) p.
Proof.
  unfold processPath, pathRefs.
  destruct (Ingress.BackendService path) as [backend|]; [|done].
  simpl. unfold processRef. simpl.
  destruct (isProcessed processedServices (Ingress.BackendName backend)); [done|].
  unfold bind.
  by destruct (processService c (Ingress.Namespace ing) backend ingResource _ p)
    as [[[]|e] p'].
Qed.

Lemma processRule_refs processedServices rule p :
  processRule c ing ingResource processedServices rule p
  = foldM processRef processedServices (ruleRefs rule) p.
Proof.
  unfold processRule, ruleRefs.
  destruct (Ingress.HTTP rule) as [paths|]; [|done].
  apply foldM_flat_map. intros. apply processPath_refs.
Qed.

Lemma foldM_processRef processedServices refs p :
  foldM processRef processedServices refs p
  = (Ok (foldl (λ m ref, <[Ingress.BackendName ref.1 := true]> m) processedServices
               (firstRefs processedServices refs)),
     extend p (flat_map refResources (firstRefs processedServices refs))
              (flat_map refEdges (firstRefs processedServices refs))
              (map refRequest (firstRefs processedServices refs))).
Proof.
  revert processedServices p.
  induction refs as [|ref refs IH]; intros processedServices p; simpl.
  - by rewrite extend_nil.
  - unfold bind at 1. unfold processRef at 1.
    destruct (isProcessed processedServices (Ingress.BackendName ref.1)).
    + apply IH.
    + unfold bind at 1. rewrite processService_adds. simpl.
      rewrite IH, extend_extend. done.
Qed.

Lemma isProcessed_empty (name : string) : isProcessed ∅ name = false.
Proof. unfold isProcessed. by rewrite lookup_empty. Qed.

(** What [processBackendServices] adds: the contributions of the
    references that are not skipped, in order. It never fails. *)
Lemma processBackendServices_adds (p : Processor) :
  processBackendServices c ing ingResource p
  = (Ok tt,
     extend p (flat_map refResources (firstRefs ∅ backendRefs))
              (flat_map refEdges (firstRefs ∅ backendRefs))
              (map refRequest (firstRefs ∅ backendRefs))).
Proof.
  unfold processBackendServices, backendRefs.
  destruct (Ingress.DefaultBackendService ing) as [backend|].
  - erewrite bind_ok; cycle 1.
    { erewrite bind_ok; [reflexivity|].
      apply (processService_adds (backend, "default backend")). }
    erewrite bind_ok; cycle 1.
    { rewrite (foldM_flat_map ruleRefs processRef _ _ processRule_refs).
      apply foldM_processRef. }
    simpl. rewrite isProcessed_empty. simpl.
    by rewrite extend_extend.
  - erewrite bind_ok; [|reflexivity].
    erewrite bind_ok; cycle 1.
    { rewrite (foldM_flat_map ruleRefs processRef _ _ processRule_refs).
      apply foldM_processRef. }
    done.
Qed.

End BackendServices.

Section ExposesOncePerService.
Import types IngressProcessor.

Variable c : client.Cluster.
Variable ing : Ingress.t.
Variable ingResource : Resource.

(** The service name of a reference. *)
Definition refName (ref : BackendRef) : string := Ingress.BackendName ref.1.

Lemma GetService_name (ns name : string) (svc : Service.t) :
  client.GetService c ns name = inr svc →
  Service.Namespace svc = ns ∧ Service.Name svc = name.
Proof.
  unfold client.GetService. destruct (client.Refused c "services" ns); [done|].
  destruct (list_find _ _) as [[i s]|] eqn:Hfind; [|done].
  intros [= <-]. by apply list_find_Some in Hfind as (_ & Hs & _).
Qed.

Lemma refEdges_target_name (ref : BackendRef) (rel : Relationship) :
  rel ∈ refEdges c ing ingResource ref →
  Name (Target rel) = refName ref
  ∧ Source rel = ingResource
  ∧ RelType rel = RelationshipTypeExposes
  ∧ Description rel = ref.2.
Proof.
  unfold refEdges, refService.
  destruct (client.GetService c (Ingress.Namespace ing) (Ingress.BackendName ref.1))
    as [err|svc] eqn:Hget; [by intros ?%elem_of_nil|].
  intros ->%list_elem_of_singleton. simpl.
  by apply GetService_name in Hget as [_ ->].
Qed.

Lemma firstRefs_names (processedServices : gmap string bool) (refs : list BackendRef)
    (name : string) :
  name ∈ refName <$> firstRefs processedServices refs
  ↔ name ∈ refName <$> refs ∧ isProcessed processedServices name = false.
Proof.
  revert processedServices.
  induction refs as [|ref refs IH]; intros processedServices; simpl.
  - rewrite elem_of_nil. by split; [|intros [? _]].
  - rewrite elem_of_cons.
    destruct (isProcessed processedServices (Ingress.BackendName ref.1)) eqn:Hseen.
    + rewrite IH. split.
      * intros [Hin Hfresh]. split; [by right|done].
      * intros [[->|Hin] Hfresh]; [|done].
        unfold refName in Hfresh. congruence.
    + rewrite fmap_cons, elem_of_cons, IH.
      destruct (decide (name = refName ref)) as [->|Hne].
      * split; [|by left]. intros _. split; [by left|done].
      * unfold isProcessed at 1.
        rewrite lookup_insert_ne by (unfold refName in Hne; done).
        fold (isProcessed processedServices name).
        split.
        -- intros [?|[Hin Hfresh]]; [done|]. split; [by right|done].
        -- intros [[?|Hin] Hfresh]; [done|]. right. done.
Qed.

Lemma firstRefs_NoDup (processedServices : gmap string bool) (refs : list BackendRef) :
  NoDup (refName <$> firstRefs processedServices refs).
Proof.
  revert processedServices.
  induction refs as [|ref refs IH]; intros processedServices; simpl.
  - constructor.
  - destruct (isProcessed processedServices (Ingress.BackendName ref.1)) eqn:Hseen.
    + apply IH.
    + rewrite fmap_cons. constructor; [|apply IH].
      rewrite firstRefs_names. intros [_ Hfresh].
      unfold isProcessed, refName in Hfresh.
      by rewrite lookup_insert_eq in Hfresh.
Qed.

Lemma firstRefs_sublist (processedServices : gmap string bool) (refs : list BackendRef) :
  firstRefs processedServices refs `sublist_of` refs.
Proof.
  revert processedServices.
  induction refs as [|ref refs IH]; intros processedServices; simpl; [done|].
  destruct (isProcessed _ _).
  - by apply sublist_cons.
  - by apply sublist_skip.
Qed.

(** A reference that is kept is the first one to its service. *)
Lemma firstRefs_first (processedServices : gmap string bool) (refs : list BackendRef)
    (ref : BackendRef) :
  ref ∈ firstRefs processedServices refs →
  head (filter (λ r, refName r = refName ref) refs) = Some ref.
Proof.
  revert processedServices.
  induction refs as [|r refs IH]; intros processedServices; simpl.
  - by intros ?%elem_of_nil.
  - destruct (isProcessed processedServices (Ingress.BackendName r.1)) eqn:Hseen.
    + intros Hin.
      assert (Hfresh : isProcessed processedServices (refName ref) = false).
      { eapply firstRefs_names, list_elem_of_fmap_2, Hin. }
      rewrite filter_cons_False; [by eapply IH|].
      unfold refName at 1. intros Heq. rewrite Heq in Hseen. congruence.
    + intros [->|Hin]%elem_of_cons.
      * by rewrite filter_cons_True.
      * assert (Hfresh : isProcessed (<[Ingress.BackendName r.1:=true]> processedServices)
                           (refName ref) = false).
        { eapply firstRefs_names, list_elem_of_fmap_2, Hin. }
        rewrite filter_cons_False; [by eapply IH|].
        unfold refName at 1. intros Heq. rewrite <- Heq in Hfresh.
        unfold isProcessed in Hfresh. by rewrite lookup_insert_eq in Hfresh.
Qed.

(** The edges to the service called [name] among the edges of [refs]. *)
Definition edgesTo (name : string) (refs : list BackendRef) : list Relationship :=
  filter (λ rel, Name (Target rel) = name) (flat_map (refEdges c ing ingResource) refs).

Lemma refEdges_length (ref : BackendRef) :
  length (refEdges c ing ingResource ref)
  = match refService c ing ref with Some _ => 1%nat | None => 0%nat end.
Proof. unfold refEdges. by destruct (refService c ing ref). Qed.

Lemma edgesTo_cons (name : string) (ref : BackendRef) (refs : list BackendRef) :
  edgesTo name (ref :: refs)
  = (if decide (refName ref = name) then refEdges c ing ingResource ref else [])
    ++ edgesTo name refs.
Proof.
  unfold edgesTo. simpl. rewrite filter_app. f_equal.
  unfold refEdges, refService.
  destruct (client.GetService c (Ingress.Namespace ing) (Ingress.BackendName ref.1))
    as [err|svc] eqn:Hget; [by destruct (decide _)|].
  apply GetService_name in Hget as [_ Hname].
  rewrite filter_cons, filter_nil. simpl. rewrite Hname.
  unfold refName. by destruct (decide _).
Qed.

Lemma edgesTo_absent (name : string) (refs : list BackendRef) :
  name ∉ refName <$> refs → edgesTo name refs = [].
Proof.
  induction refs as [|ref refs IH]; intros Hnotin; [done|].
  rewrite fmap_cons, not_elem_of_cons in Hnotin. destruct Hnotin as [Hne Hnotin].
  rewrite edgesTo_cons, IH by done.
  by rewrite decide_False.
Qed.

Lemma edgesTo_at_most_one (name : string) (refs : list BackendRef) :
  NoDup (refName <$> refs) → (length (edgesTo name refs) ≤ 1)%nat.
Proof.
  induction refs as [|ref refs IH]; intros Hnodup; [simpl; lia|].
  rewrite fmap_cons in Hnodup. apply NoDup_cons in Hnodup as [Hfresh Hnodup].
  rewrite edgesTo_cons, length_app.
  destruct (decide (refName ref = name)) as [<-|Hne].
  - rewrite (edgesTo_absent _ _ Hfresh), refEdges_length. simpl.
    destruct (refService c ing ref); lia.
  - simpl. by apply IH.
Qed.

Lemma edgesTo_resolved (name : string) (refs : list BackendRef) (svc : Service.t) :
  NoDup (refName <$> refs) →
  name ∈ refName <$> refs →
  client.GetService c (Ingress.Namespace ing) name = inr svc →
  length (edgesTo name refs) = 1%nat.
Proof.
  intros Hnodup Hin Hget.
  induction refs as [|ref refs IH]; [by apply elem_of_nil in Hin|].
  rewrite fmap_cons in Hnodup, Hin. apply NoDup_cons in Hnodup as [Hfresh Hnodup].
  rewrite edgesTo_cons, length_app.
  destruct (decide (refName ref = name)) as [<-|Hne].
  - rewrite (edgesTo_absent _ _ Hfresh), refEdges_length.
    unfold refService. fold (refName ref). by rewrite Hget.
  - apply elem_of_cons in Hin as [->|Hin]; [done|]. simpl. by apply IH.
Qed.

Lemma edgesTo_inv (name : string) (refs : list BackendRef) (rel : Relationship) :
  rel ∈ edgesTo name refs →
  name ∈ refName <$> refs
  ∧ ∃ svc, client.GetService c (Ingress.Namespace ing) name = inr svc.
Proof.
  intros [Hname Hin]%list_elem_of_filter.
  apply list_elem_of_In, in_flat_map in Hin as (ref & Href & Hrel).
  apply list_elem_of_In in Href, Hrel.
  pose proof (refEdges_target_name _ _ Hrel) as (Htarget & _).
  rewrite Hname in Htarget. clear Hname. subst name. split.
  - apply list_elem_of_fmap. by exists ref.
  - unfold refEdges, refService in Hrel. fold (refName ref) in Hrel.
    destruct (client.GetService c (Ingress.Namespace ing) (refName ref)) as [err|svc].
    + by apply elem_of_nil in Hrel.
    + by exists svc.
Qed.

(** C1, amended: [processBackendServices] never fails and adds the
    [exposes] edges of the references that are not skipped, in the
    order default backend first, then the paths of the rules. A
    reference is skipped when a reference to the same service name was
    met before, so for every service name at most one edge is added,
    and exactly one when the ingress refers to the name and the service
    can be fetched: two path rules for the same service yield one edge,
    which carries the description of the first of them. The append
    itself, [addRelationship], keeps every edge it is given. *)
Theorem ingress_exposes_once_per_service (p : Processor) :
  let run := processBackendServices c ing ingResource p in
  let firsts := firstRefs ∅ (backendRefs ing) in
  run.1 = Ok tt
  ∧ relations run.2 = relations p ++ flat_map (refEdges c ing ingResource) firsts
  ∧ firsts `sublist_of` backendRefs ing
  ∧ NoDup (refName <$> firsts)
  ∧ (∀ ref, ref ∈ firsts →
       head (filter (λ r, refName r = refName ref) (backendRefs ing)) = Some ref)
  ∧ (∀ rel q, relations (addRelationship rel q).2 = relations q ++ [rel])
  ∧ Forall (λ rel, Source rel = ingResource ∧
                   RelType rel = RelationshipTypeExposes)
           (flat_map (refEdges c ing ingResource) firsts)
  ∧ ∀ name,
      (length (edgesTo name firsts) ≤ 1)%nat
      ∧ (length (edgesTo name firsts) = 1%nat
         ↔ name ∈ refName <$> backendRefs ing
           ∧ ∃ svc, client.GetService c (Ingress.Namespace ing) name = inr svc).
Proof.
  intros run firsts. subst run. rewrite processBackendServices_adds. simpl.
  split; [done|]. split; [done|].
  split; [apply firstRefs_sublist|].
  split; [apply firstRefs_NoDup|].
  split; [intros ref; apply firstRefs_first|].
  split; [done|].
  split.
  { apply Forall_forall. intros rel Hin.
    apply list_elem_of_In, in_flat_map in Hin as (ref & _ & Hrel).
    apply list_elem_of_In, refEdges_target_name in Hrel as (_ & Hsrc & Htype & _).
    done. }
  intros name. split; [apply edgesTo_at_most_one, firstRefs_NoDup|].
  split.
  - intros Hone.
    destruct (edgesTo name firsts) as [|rel rest] eqn:Hedges; [done|].
    assert (Hrel : rel ∈ edgesTo name firsts) by (rewrite Hedges; left).
    apply edgesTo_inv in Hrel as [Hin Hsvc]. split; [|done].
    by apply firstRefs_names in Hin as [Hin _].
  - intros [Hin [svc Hget]].
    apply (edgesTo_resolved _ _ svc); [apply firstRefs_NoDup| |done].
    apply firstRefs_names. split; [done|apply isProcessed_empty].
Qed.

End ExposesOncePerService.

Section ExposesExample.
Import types IngressProcessor.

Definition webService : Service.t :=
  {| Service.Name := "web"; Service.Namespace := "default"; Service.Labels := ∅;
     Service.Selector := Some {["app" := "web"]};
     Service.Ports :=
       [ {| ServicePort.Port := 80;
            ServicePort.TargetPort := {| ServicePort.IsString := false;
                                         ServicePort.IntVal := 8080;
                                         ServicePort.StrVal := "" |};
            ServicePort.Protocol := "TCP"; ServicePort.NodePort := 0 |} ];
     Service.Type_ := "ClusterIP"; Service.ClusterIP := "10.0.0.1";
     Service.LoadBalancer := [] |}.

Definition webBackend : Ingress.ServiceBackend :=
  {| Ingress.BackendName := "web"; Ingress.PortNumber := 80 |}.

(** An ingress with two path rules, [/a] and [/b], that both point at
    the service [web]. *)
Definition twoPaths : Ingress.t :=
  {| Ingress.Name := "web-ing"; Ingress.Namespace := "default"; Ingress.Labels := ∅;
     Ingress.DefaultBackendService := None;
     Ingress.Rules :=
       [ {| Ingress.Host := "app.example.com";
            Ingress.HTTP :=
              Some [ {| Ingress.Path := "/a"; Ingress.BackendService := Some webBackend |};
                     {| Ingress.Path := "/b"; Ingress.BackendService := Some webBackend |} ]
         |} ];
     Ingress.SpecTLS := []; Ingress.IngressClassName := None;
     Ingress.LoadBalancer := [] |}.

Definition routeCluster : client.Cluster :=
  {| client.Namespaces := ["default"];
     client.Pods := []; client.Services := [webService];
     client.Ingresses := [twoPaths];
     client.Deployments := []; client.ConfigMaps := []; client.Secrets := [];
     client.IngressClasses := [];
     client.Refused := λ _ _, None |}.

(** The number of path entries of the ingress whose backend is the
    service called [name]. *)
Definition pathOccurrences (ing : Ingress.t) (name : string) : nat :=
  length (filter (λ ref, refName ref = name) (flat_map ruleRefs (Ingress.Rules ing))).

(** The [exposes] edges to the service called [name]. *)
Definition exposesTo (name : string) (rels : list Relationship) : list Relationship :=
  filter (λ rel, RelType rel = RelationshipTypeExposes ∧ Name (Target rel) = name) rels.

(** C1, as stated, fails: the ingress has two path entries for [web],
    and processing it adds one [exposes] edge, that of [/a]; the entry
    [/b] is skipped because [web] is already in [processedServices]. *)
Lemma ingress_two_paths_counterexample :
  let run := processBackendServices routeCluster twoPaths (ingressResource twoPaths)
               newProcessor in
  pathOccurrences twoPaths "web" = 2%nat
  ∧ length (exposesTo "web" (relations run.2)) = 1%nat
  ∧ Description <$> relations run.2 = ["host: app.example.com, path: /a"]
  ∧ length (exposesTo "web" (relations run.2)) ≠ pathOccurrences twoPaths "web".
Proof. vm_compute. repeat split; discriminate. Qed.

(** The older service processor, on the same cluster, records one edge
    for each of the two paths. *)
Example legacy_two_paths :
  ∃ p, legacy.Process routeCluster "default" newProcessor = Some (None, p)
       ∧ Description <$> exposesTo "web" (relations p)
         = ["exposes via app.example.com/a"; "exposes via app.example.com/b"].
Proof. eexists. split; vm_compute; reflexivity. Qed.

End ExposesExample.

(** ** The older Service processor: one edge per matching path *)

Section LegacyExposes.
Import types.

Lemma foldP_app {A B} (body : B → A → option B) (b : B) (l1 l2 : list A) :
  legacy.foldP body b (l1 ++ l2)
  = match legacy.foldP body b l1 with
    | Some b' => legacy.foldP body b' l2
    | None => None
    end.
Proof.
  revert b. induction l1 as [|x l1 IH]; intros b; simpl; [done|].
  destruct (body b x); [apply IH|done].
Qed.

(** The path entries of an ingress, each with its rule, in the order of
    the two nested loops. *)
Definition pathsOf (ing : Ingress.t) : list (Ingress.Rule * Ingress.HTTPPath) :=
  flat_map (λ rule, match Ingress.HTTP rule with
                    | Some paths => map (pair rule) paths
                    | None => []
                    end)
           (Ingress.Rules ing).

(** The path entry refers to the service called [name]. *)
Definition refersTo (name : string) (entry : Ingress.Rule * Ingress.HTTPPath) : Prop :=
  Ingress.BackendName <$> Ingress.BackendService entry.2 = Some name.

#[local] Instance refersTo_dec (name : string) (entry : Ingress.Rule * Ingress.HTTPPath) :
  Decision (refersTo name entry).
Proof. unfold refersTo. apply _. Defined.

Definition legacyExposesEdge (svc : Service.t) (ing : Ingress.t)
    (entry : Ingress.Rule * Ingress.HTTPPath) : Relationship :=
  {| Source := legacy.ingressResource ing;
     Target := legacy.serviceResource svc;
     RelType := RelationshipTypeExposes;
     Description := "exposes via " +:+ Ingress.Host entry.1 +:+ Ingress.Path entry.2 |}.

Lemma legacy_paths_of_a_rule (svc : Service.t) (ing : Ingress.t) (rule : Ingress.Rule)
    (paths : list Ingress.HTTPPath) (p : Processor) :
  Forall (λ path, is_Some (Ingress.BackendService path)) paths →
  legacy.foldP (legacy.exposePath svc ing rule) p paths
  = Some (extend p [] (map (legacyExposesEdge svc ing)
                         (filter (refersTo (Service.Name svc)) (map (pair rule) paths)))
                   []).
Proof.
  revert p. induction paths as [|path paths IH]; intros p Hall; simpl.
  - by rewrite extend_nil.
  - apply Forall_cons in Hall as [[backend Hbackend] Hall].
    unfold legacy.exposePath at 1. rewrite Hbackend.
    rewrite filter_cons.
    destruct (decide (refersTo (Service.Name svc) (rule, path))) as [Href|Href];
      unfold refersTo in Href; simpl in Href; rewrite Hbackend in Href; simpl in Href.
    + injection Href as Heq. rewrite decide_True by done. rewrite IH by done.
      unfold legacy.appendRelation, extend. simpl.
      by rewrite !app_nil_r, <- app_assoc.
    + rewrite decide_False by congruence. by apply IH.
Qed.

(** When every path entry of the ingress has a service backend, the
    older processor adds one [exposes] edge for each path entry that
    refers to the service, in order; with a resource backend among the
    entries the loop stops in a nil dereference. *)
Lemma legacy_exposes_per_path (svc : Service.t) (ing : Ingress.t) (p : Processor) :
  Forall (λ entry, is_Some (Ingress.BackendService entry.2)) (pathsOf ing) →
  legacy.exposeIngress svc p ing
  = Some (extend p [] (map (legacyExposesEdge svc ing)
                         (filter (refersTo (Service.Name svc)) (pathsOf ing)))
                   []).
Proof.
  unfold legacy.exposeIngress, pathsOf.
  revert p. induction (Ingress.Rules ing) as [|rule rules IH]; intros p Hall; simpl.
  - by rewrite extend_nil.
  - simpl in Hall. apply Forall_app in Hall as [Hrule Hall].
    rewrite filter_app, map_app.
    destruct (Ingress.HTTP rule) as [paths|].
    + rewrite legacy_paths_of_a_rule.
      * rewrite IH by done. by rewrite extend_extend.
      * apply Forall_forall. intros path Hpath.
        rewrite Forall_forall in Hrule. apply (Hrule (rule, path)).
        by apply list_elem_of_fmap_2.
    + rewrite IH by done. done.
Qed.

(** The older processor records one [targets] edge per listed pod when
    the service declares a port, and stops in an index-out-of-range
    panic at the first listed pod when it declares none. *)
Lemma legacy_targets_per_pod (svc : Service.t) (pods : list Pod.t) (p : Processor) :
  legacy.foldP (legacy.relatedPod svc) p pods
  = match Service.Ports svc, pods with
    | [], _ :: _ => None
    | [], [] => Some p
    | port0 :: _, _ =>
        Some (extend p []
                (map (λ pod,
                        {| Source := legacy.serviceResource svc;
                           Target := legacy.podResource pod;
                           RelType := RelationshipTypeTargets;
                           Description := "exposes port " +:+
                                          fmt_d (ServicePort.Port port0) |})
                     pods)
                [])
    end.
Proof.
  destruct (Service.Ports svc) as [|port0 ports] eqn:Hports.
  - destruct pods as [|pod pods]; [done|]. simpl.
    unfold legacy.relatedPod. by rewrite Hports.
  - revert p. induction pods as [|pod pods IH]; intros p; simpl.
    + by rewrite extend_nil.
    + unfold legacy.relatedPod at 1. rewrite Hports, IH.
      unfold legacy.appendRelation, extend. simpl.
      by rewrite !app_nil_r, <- app_assoc.
Qed.

End LegacyExposes.

(** ** Resource identity in the collected set *)

Section ResourceKeys.
Import types common.

(** [slashFree s]: the string holds no ["/"], as is the case of the
    resource types and of the names the API server accepts. *)
Fixpoint slashFree (s : string) : Prop :=
  match s with
  | EmptyString => True
  | String a s' => String a "" ≠ "/" ∧ slashFree s'
  end.



End ResourceKeys.

Section ResourceIdentity.
Import types common.

Lemma filter_none {A} (P : A → Prop) `{!∀ x, Decision (P x)} (l : list A) :
  (∀ x, x ∈ l → ¬ P x) → filter P l = [].
Proof.
  induction l as [|x l IH]; intros Hl; [done|].
  rewrite filter_cons_False by (apply Hl; left).
  apply IH. intros y Hy. apply Hl. by right.
Qed.

Lemma length_filter_impl {A} (P Q : A → Prop)
    `{!∀ x, Decision (P x)} `{!∀ x, Decision (Q x)} (l : list A) :
  (∀ x, P x → Q x) → (length (filter P l) ≤ length (filter Q l))%nat.
Proof.
  intros HPQ. induction l as [|x l IH]; [done|].
  rewrite !filter_cons. destruct (decide (P x)) as [HP|HP].
  - rewrite decide_True by auto. simpl. lia.
  - destruct (decide (Q x)); simpl; lia.
Qed.


Lemma ToSlice_values (s : ResourceSet) : ToSlice s = (map_to_list s).*2.
Proof. unfold ToSlice. by rewrite (foldl_append_map snd). Qed.

(** Every resource of a set is stored under its own key. *)
Definition keyed (s : ResourceSet) : Prop :=
  ∀ k r, s !! k = Some r → ResourceKey r = k.






Lemma Add_keeps (s : ResourceSet) (r : Resource) (k : string) :
  is_Some (s !! k) → is_Some (Add s r !! k).
Proof.
  intros Hk. unfold Add. destruct (decide (ResourceKey r = k)) as [<-|Hne].
  - rewrite lookup_insert_eq. by eexists.
  - by rewrite lookup_insert_ne.
Qed.

Lemma foldl_Add_keeps (s : ResourceSet) (rs : list Resource) (k : string) :
  is_Some (s !! k) → is_Some (foldl Add s rs !! k).
Proof.
  revert s. induction rs as [|r rs IH]; intros s Hk; simpl; [done|].
  by apply IH, Add_keeps.
Qed.

Lemma foldl_Add_covers (s : ResourceSet) (rs : list Resource) (r : Resource) :
  r ∈ rs → is_Some (foldl Add s rs !! ResourceKey r).
Proof.
  revert s. induction rs as [|r' rs IH]; intros s Hin; simpl.
  - by apply elem_of_nil in Hin.
  - apply elem_of_cons in Hin as [->|Hin]; [|by apply IH].
    apply foldl_Add_keeps. unfold Add. rewrite lookup_insert_eq. by eexists.
Qed.

(** A keyed set holds exactly one resource under each of its keys. *)
Lemma ToSlice_one_per_key (s : ResourceSet) (k : string) :
  keyed s → is_Some (s !! k) →
  length (filter (λ r, ResourceKey r = k) (ToSlice s)) = 1%nat.
Proof.
  intros Hs [v Hv]. pose proof (Hs _ _ Hv) as Hkv.
  rewrite <- (insert_delete_id s k v Hv), ToSlice_values.
  rewrite map_to_list_insert by apply lookup_delete_eq.
  rewrite fmap_cons, filter_cons. simpl.
  rewrite decide_True by done. simpl. f_equal.
  apply length_zero_iff_nil, filter_none.
  intros x Hx Hkx.
  apply list_elem_of_fmap in Hx as ([k' x'] & -> & Hx). simpl in Hkx.
  apply elem_of_map_to_list in Hx.
  apply lookup_delete_Some in Hx as [Hne Hx].
  apply Hs in Hx. congruence.
Qed.


(** The invariant of the collection loop: the slice holds one
    resource for each key of the set, and no key twice. *)
Definition collected (acc : ResourceSet * list Resource) : Prop :=
  (∀ k, is_Some (acc.1 !! k) ↔ k ∈ ResourceKey <$> acc.2)
  ∧ NoDup (ResourceKey <$> acc.2).










(** The resources that a processor reports: those of its final state
    when [Process] succeeds. *)
Definition reportedBy (proc : ResourceProcessor) : list Resource :=
  match proc newProcessor with
  | (Ok _, p) => resources p
  | (Err _, _) => []
  end.








(** The number of steps that lets a task return. *)
Definition fuel (proc : ResourceProcessor) : nat :=
  (4 * length (reportedBy proc) + 6)%nat.






(** The schedule in which the tasks run one after the other, in the
    order [order] of their indexes: each is given the steps that let it
    return before the next one starts (a step of a task that has
    returned changes nothing). *)
Definition serial (processors : list ResourceProcessor) (order : list nat) : list Actor :=
  flat_map (λ i, match processors !! i with
                 | Some proc => replicate (fuel proc) (Task i)
                 | None => []
                 end) order.





































End ResourceIdentity.

Section ResourceIdentityExample.
Import types common.

(** The pod [web-1] as two processors report it: with different
    payloads and statuses. *)
Definition podSeenByService : Resource :=
  {| Type_ := ResourceTypePod; Name := "web-1"; Namespace := "default";
     Labels := {["app" := "web"]}; Data := NoData;
     Status := {| Phase := "Running"; Ready := true; Details := "" |} |}.

Definition podSeenByConfigMap : Resource :=
  {| Type_ := ResourceTypePod; Name := "web-1"; Namespace := "default";
     Labels := ∅; Data := NoData; Status := noStatus |}.

Example keys_of_the_two_reports :
  ResourceKey podSeenByService = "Pod/default/web-1"
  ∧ ResourceKey podSeenByConfigMap = "Pod/default/web-1"
  ∧ podSeenByService ≠ podSeenByConfigMap.
Proof. split; [reflexivity|]. split; [reflexivity|]. discriminate. Qed.

(** The two processors that report the pod [web-1]. *)
Definition twoReports : list ResourceProcessor :=
  [addResource podSeenByService; addResource podSeenByConfigMap].



Example collected_once :
  Resources <$> ProcessResources None twoReports (serial twoReports [0; 1]%nat)
  = Some [podSeenByService].
Proof. vm_compute. reflexivity. Qed.


End ResourceIdentityExample.

(** ** Partial failures in the coordinator *)

Section PartialFailure.
Import types mapper.

(** What a processor hands to [addRelationships]: its relations when
    [Process] returned nil, nothing when it returned an error. *)
Definition contribution (proc : M unit) : list Relationship :=
  match proc newProcessor with
  | (Ok _, final) => relations final
  | (Err _, _) => []
  end.

(** The error that a processor sends on [errCh]. *)
Definition failure (proc : M unit) : option error :=
  match proc newProcessor with
  | (Ok _, _) => None
  | (Err err, _) => Some err
  end.

Lemma addRelationships_nil (rm : ResourceMapper) : addRelationships rm [] = rm.
Proof.
  destruct rm as [cfg [rs rels] ws out]. unfold addRelationships. simpl.
  by rewrite app_nil_r.
Qed.

Lemma addRelationships_app (rm : ResourceMapper) (l1 l2 : list Relationship) :
  addRelationships (addRelationships rm l1) l2 = addRelationships rm (l1 ++ l2).
Proof. unfold addRelationships. simpl. by rewrite app_assoc. Qed.

Lemma goroutines_add (procs : list (M unit)) (rm : ResourceMapper) (errCh : list error) :
  foldl goroutine (rm, errCh) procs
  = (addRelationships rm (flat_map contribution procs), errCh ++ omap failure procs).
Proof.
  revert rm errCh. induction procs as [|proc procs IH]; intros rm errCh; simpl.
  - by rewrite addRelationships_nil, app_nil_r.
  - unfold goroutine at 2, contribution at 1, failure at 1.
    destruct (proc newProcessor) as [[[]|err] final]; simpl; rewrite IH.
    + by rewrite addRelationships_app.
    + by rewrite <- app_assoc.
Qed.

Variable processors : string → list (M unit).
Variable completion : string → list (M unit).
Hypothesis completion_permutes : ∀ namespace, completion namespace ≡ₚ processors namespace.

(** The warning printed for a namespace, if any: it names the namespace
    and carries the first error received on [errCh]. *)
Definition warningOf (namespace : string) : option string :=
  match omap failure (completion namespace) with
  | err :: _ =>
      Some ("Error processing namespace " +:+ namespace +:+ ": " +:+
            "processor error: " +:+ err)
  | [] => None
  end.

Lemma processNamespace_adds (namespace : string) (rm : ResourceMapper) :
  ∃ printed,
    processNamespace completion namespace rm
    = (match omap failure (completion namespace) with
       | err :: _ => Some ("processor error: " +:+ err)
       | [] => None
       end,
       {| config := config rm;
          mapping :=
            {| Resources := Resources (mapping rm);
               Relationships := Relationships (mapping rm) ++
                                flat_map contribution (completion namespace) |};
          warnings := warnings rm;
          stdout := stdout rm ++ printed |}).
Proof.
  eexists. unfold processNamespace. rewrite goroutines_add. simpl.
  destruct (omap failure (completion namespace)); unfold print; simpl;
    rewrite <- !app_assoc; reflexivity.
Qed.

(** One iteration of the loop of [Process] over the namespaces. *)
Definition overNamespace (rm : ResourceMapper) (ns : string) : ResourceMapper :=
  match processNamespace completion ns rm with
  | (Some err, rm') =>
      PrintWarning ("Error processing namespace " +:+ ns +:+ ": " +:+ err) rm'
  | (None, rm') => rm'
  end.

Lemma overNamespace_adds (ns : string) (rm : ResourceMapper) :
  config (overNamespace rm ns) = config rm
  ∧ Resources (mapping (overNamespace rm ns)) = Resources (mapping rm)
  ∧ Relationships (mapping (overNamespace rm ns))
    = Relationships (mapping rm) ++ flat_map contribution (completion ns)
  ∧ warnings (overNamespace rm ns)
    = warnings rm ++ omap warningOf [ns].
Proof.
  destruct (processNamespace_adds ns rm) as [printed Hrun].
  unfold overNamespace. rewrite Hrun. simpl. unfold warningOf.
  destruct (omap failure (completion ns)) as [|err errs]; simpl.
  - by rewrite app_nil_r.
  - done.
Qed.

Lemma overNamespaces_adds (namespaces : list string) (rm : ResourceMapper) :
  config (foldl overNamespace rm namespaces) = config rm
  ∧ Resources (mapping (foldl overNamespace rm namespaces)) = Resources (mapping rm)
  ∧ Relationships (mapping (foldl overNamespace rm namespaces))
    = Relationships (mapping rm) ++
      flat_map (λ ns, flat_map contribution (completion ns)) namespaces
  ∧ warnings (foldl overNamespace rm namespaces)
    = warnings rm ++ omap warningOf namespaces.
Proof.
  revert rm. induction namespaces as [|ns l IH]; intros rm.
  - simpl. by rewrite !app_nil_r.
  - change (foldl overNamespace rm (ns :: l))
      with (foldl overNamespace (overNamespace rm ns) l).
    destruct (IH (overNamespace rm ns)) as (Hcfg & Hres & Hrels & Hwarn).
    destruct (overNamespace_adds ns rm) as (Hcfg1 & Hres1 & Hrels1 & Hwarn1).
    rewrite Hcfg, Hres, Hrels, Hwarn, Hcfg1, Hres1, Hrels1, Hwarn1.
    change (ns :: l) with ([ns] ++ l).
    rewrite omap_app, flat_map_app. simpl.
    by rewrite !app_nil_r, <- !app_assoc.
Qed.

Lemma Process_overNamespaces (DisableColors : bool) (now : string)
    (c : client.Cluster) (rm : ResourceMapper) (namespaces : list string) :
  getNamespaces c rm = inr namespaces →
  Process completion DisableColors now c rm
  = (None, Visualize DisableColors now (foldl overNamespace rm namespaces)).
Proof. intros Hns. unfold Process. by rewrite Hns. Qed.

(** C2: once the namespaces are known, [Process] returns nil whatever
    the processors do. A processor whose [Process] fails, as it does
    when its listing fails, contributes no relationship in that
    namespace, and the mapping still collects the relationships of
    every other processor of that namespace and of the other
    namespaces; nothing else is added. Every warning names a namespace
    in which a processor failed and carries the error of one of them,
    and every such namespace has its warning. The rendering of the
    partial mapping is printed last. *)
Theorem list_failure_is_a_warning (DisableColors : bool) (now : string)
    (c : client.Cluster) (rm : ResourceMapper) (namespaces : list string) :
  getNamespaces c rm = inr namespaces →
  let run := Process completion DisableColors now c rm in
  run.1 = None
  ∧ Relationships (mapping run.2)
    ≡ₚ Relationships (mapping rm) ++
       flat_map (λ ns, flat_map contribution (processors ns)) namespaces
  ∧ (∀ proc err, failure proc = Some err → contribution proc = [])
  ∧ (∃ added, warnings run.2 = warnings rm ++ added
       ∧ (∀ w, w ∈ added →
            ∃ ns proc err, ns ∈ namespaces ∧ proc ∈ processors ns
              ∧ failure proc = Some err
              ∧ w = "Error processing namespace " +:+ ns +:+
                    ": processor error: " +:+ err)
       ∧ (∀ ns proc err, ns ∈ namespaces → proc ∈ processors ns →
            failure proc = Some err →
            ∃ proc' err', proc' ∈ processors ns ∧ failure proc' = Some err'
              ∧ "Error processing namespace " +:+ ns +:+
                ": processor error: " +:+ err' ∈ added))
  ∧ last (stdout run.2)
    = Some (visualizer.RenderClusterView DisableColors
              (match VisualOptions (config rm) with
               | Some (showDetails, showColors) =>
                   visualizer.SetOptions
                     (visualizer.NewVisualizer (mapping run.2)) showDetails showColors
               | None => visualizer.NewVisualizer (mapping run.2)
               end) now).
Proof.
  intros Hns run. subst run. rewrite (Process_overNamespaces _ _ _ _ _ Hns).
  destruct (overNamespaces_adds namespaces rm) as (Hcfg & Hres & Hrels & Hwarn).
  simpl. split; [done|]. split; [|split; [|split]].
  - rewrite Hrels. apply Permutation_app_head.
    clear Hns Hcfg Hres Hrels Hwarn.
    induction namespaces as [|ns l IH]; simpl; [done|].
    apply Permutation_app; [|done].
    apply Permutation_flat_map, completion_permutes.
  - intros proc err. unfold failure, contribution.
    by destruct (proc newProcessor) as [[[]|?] ?].
  - exists (omap warningOf namespaces). split; [done|]. split.
    + intros w Hw. apply list_elem_of_omap in Hw as (ns & Hin & Hw).
      unfold warningOf in Hw.
      destruct (omap failure (completion ns)) as [|err errs] eqn:Herrs; [done|].
      injection Hw as <-.
      assert (Herr : err ∈ omap failure (completion ns)) by (rewrite Herrs; left).
      apply list_elem_of_omap in Herr as (proc & Hproc & Hfail).
      exists ns, proc, err. rewrite <- completion_permutes. done.
    + intros ns proc err Hin Hproc Hfail.
      rewrite <- completion_permutes in Hproc.
      assert (Herr : err ∈ omap failure (completion ns)).
      { apply list_elem_of_omap. by exists proc. }
      destruct (omap failure (completion ns)) as [|err' errs] eqn:Herrs;
        [by apply elem_of_nil in Herr|].
      assert (Herr' : err' ∈ omap failure (completion ns)) by (rewrite Herrs; left).
      apply list_elem_of_omap in Herr' as (proc' & Hproc' & Hfail').
      exists proc', err'. rewrite <- completion_permutes. split; [done|]. split; [done|].
      apply list_elem_of_omap. exists ns. split; [done|].
      unfold warningOf. by rewrite Herrs.
  - unfold Visualize, print. simpl. rewrite last_snoc, Hcfg. done.
Qed.

End PartialFailure.

Section PartialFailureExample.
Import types mapper.

(** Two namespaces with a service [web] each; the pods of [restricted]
    cannot be listed. *)
Definition twoNamespaces : client.Cluster :=
  {| client.Namespaces := ["default"; "restricted"];
     client.Pods := [ podNamed "web-1" "default" {["app" := "web"]};
                      podNamed "web-2" "restricted" {["app" := "web"]} ];
     client.Services := []; client.Ingresses := [];
     client.Deployments := []; client.ConfigMaps := []; client.Secrets := [];
     client.IngressClasses := [];
     client.Refused := λ kind ns,
       if decide (kind = "pods" ∧ ns = "restricted")
       then Some "forbidden" else None |}.

Definition webIn (namespace : string) : Service.t :=
  {| Service.Name := "web"; Service.Namespace := namespace; Service.Labels := ∅;
     Service.Selector := Some {["app" := "web"]};
     Service.Ports := Service.Ports (serviceSelecting None);
     Service.Type_ := "ClusterIP"; Service.ClusterIP := "10.0.0.1";
     Service.LoadBalancer := [] |}.

(** In each namespace, one processor lists the pods of [web] and a
    second one records [edgeB]. *)
Definition someProcessors (namespace : string) : list (M unit) :=
  [ ServiceProcessor.processPods twoNamespaces (webIn namespace)
      (ServiceProcessor.serviceResource (webIn namespace));
    addRelationship edgeB ].

Definition freshMapper : ResourceMapper :=
  {| config := {| Namespace := ""; ExcludeNs := ["kube-system"];
                  VisualOptions := Some (true, false) |};
     mapping := {| Resources := []; Relationships := [] |};
     warnings := []; stdout := [] |}.

Example partial_run :
  let run := Process someProcessors true "now" twoNamespaces freshMapper in
  run.1 = None
  ∧ (λ rel, (types.Namespace (Source rel), types.Name (Source rel),
             RelType rel, types.Name (Target rel)))
      <$> Relationships (mapping run.2)
    = [ ("default", "web", "targets", "web-1");
        ("team-b", "web", "exposes", "api");
        ("team-b", "web", "exposes", "api") ]
  ∧ warnings run.2
    = ["Error processing namespace restricted: processor error: " +:+
       "failed to list pods: forbidden"].
Proof. vm_compute. done. Qed.

(** C2 at the two namespaces, with the goroutines finishing in the order
    in which they were started. *)
Lemma list_failure_is_a_warning_witness :
  let run := Process someProcessors true "now" twoNamespaces freshMapper in
  run.1 = None
  ∧ Relationships (mapping run.2)
    ≡ₚ Relationships (mapping freshMapper) ++
       flat_map (λ ns, flat_map contribution (someProcessors ns))
                ["default"; "restricted"].
Proof.
  destruct (list_failure_is_a_warning someProcessors someProcessors
              (λ ns, reflexivity (someProcessors ns))
              true "now" twoNamespaces freshMapper ["default"; "restricted"] eq_refl)
    as (Hnil & Hrels & _).
  split; [exact Hnil|exact Hrels].
Defined.

End PartialFailureExample.

(** ** A complete rendering *)

Section RenderScenario.
Import types visualizer.

(** The namespace [default] with the deployment [web] (2/2 ready), the
    service [web-svc] that selects its two pods, the ingress [web-ing]
    that routes [app.example.com/] to the service, and a ConfigMap. *)
Definition scenario : Visualizer :=
  let ing := plainResource ResourceTypeIngress "web-ing" "default" in
  let svc := {| Type_ := ResourceTypeService; Name := "web-svc"; Namespace := "default";
                Labels := ∅; Data := ServiceValue (serviceSelecting (Some {["app" := "web"]}));
                Status := noStatus |} in
  let dep := {| Type_ := ResourceTypeDeployment; Name := "web"; Namespace := "default";
                Labels := ∅; Data := DeploymentValue (deploymentWith 2 2); Status := noStatus |} in
  let pod1 := ServiceProcessor.podResource (podNamed "web-1" "default" {["app" := "web"]}) in
  let pod2 := ServiceProcessor.podResource (podNamed "web-2" "default" {["app" := "web"]}) in
  let cm := plainResource ResourceTypeConfigMap "app-config" "default" in
  SetOptions
    (NewVisualizer
       {| Resources := [dep; svc; ing; cm];
          Relationships :=
            [ {| Source := dep; Target := pod1; RelType := RelationshipTypeOwns;
                 Description := "manages pod" |};
              {| Source := dep; Target := pod2; RelType := RelationshipTypeOwns;
                 Description := "manages pod" |};
              {| Source := svc; Target := pod1; RelType := RelationshipTypeTargets;
                 Description := "routes traffic to pod: 80→8080/TCP" |};
              {| Source := svc; Target := pod2; RelType := RelationshipTypeTargets;
                 Description := "routes traffic to pod: 80→8080/TCP" |};
              {| Source := ing; Target := svc; RelType := RelationshipTypeExposes;
                 Description := "host: app.example.com, path: /" |};
              {| Source := dep; Target := cm; RelType := RelationshipTypeUses;
                 Description := "uses as environment, volume" |} ] |})
    true false.
Example rendering_of_the_scenario :
  RenderClusterView true scenario "2024-01-01 10:00:00"
  = Join [ "Kubernetes Resource Map";
           Repeat "-" 80;
           "Generated at: 2024-01-01 10:00:00";
           "External Traffic";
           "│";
           "[Ingress Layer]";
           "└── ● Ingress/web-ing";
           "      ➜ Service/web-svc via host: app.example.com, path: /";
           "";
           "[Service Layer]";
           "└── ● Service/web-svc";
           "      ℹ Type: ClusterIP";
           "      ℹ Ports: 80→8080/TCP";
           "│     ➜ Pod/web-1";
           "│        ✓ Running";
           "      ➜ Pod/web-2";
           "         ✓ Running";
           "";
           "[Workload Layer]";
           "└── ● Deployment/web";
           "      ✓ 2/2 replicas ready";
           "│     ➜ Pod/web-1";
           "      ➜ Pod/web-2";
           "";
           "[Storage Layer]";
           "└── ● ConfigMap/app-config";
           "      ➜ Used by Deployment/web (uses as environment, volume)";
           "" ] utils.LF.
Proof. vm_compute. reflexivity. Qed.

End RenderScenario.

(** ** Wildcards in label filters *)

Section LabelPatterns.
Import common.

Lemma HasPrefix_spec (s prefix : string) :
  strings.HasPrefix s prefix = true ↔ ∃ t, s = prefix +:+ t.
Proof.
  revert s. induction prefix as [|c prefix IH]; intros s; simpl.
  - destruct s; simpl; (split; [eauto|done]).
  - destruct s as [|d s]; simpl.
    + split; [done|]. intros [t Ht]. discriminate.
    + rewrite andb_true_iff, bool_decide_eq_true, IH. split.
      * intros [-> [t ->]]. eauto.
      * intros [t Ht]. injection Ht as -> ->. eauto.
Qed.

Lemma HasSuffix_spec (s suffix : string) :
  strings.HasSuffix s suffix = true ↔ ∃ t, s = t +:+ suffix.
Proof.
  induction s as [|d s IH]; simpl.
  - rewrite orb_false_r, bool_decide_eq_true. split.
    + intros <-. by exists "".
    + intros [t Ht]. destruct t; simpl in *; [done|discriminate].
  - rewrite orb_true_iff, bool_decide_eq_true, IH. split.
    + intros [<-|[t ->]]; [by exists ""|by exists (String d t)].
    + intros [t Ht]. destruct t as [|e t]; simpl in *; [by left|].
      injection Ht as -> ->. right; eauto.
Qed.

Lemma Contains_spec (s substr : string) :
  strings.Contains s substr = true ↔ ∃ a b, s = a +:+ substr +:+ b.
Proof.
  induction s as [|d s IH]; cbn [strings.Contains].
  - rewrite orb_false_r, HasPrefix_spec. split.
    + intros [t Ht]. by exists "", t.
    + intros (a & b & H). destruct a; simpl in *; [eauto|discriminate].
  - rewrite orb_true_iff, HasPrefix_spec, IH. split.
    + intros [[t Ht]|(a & b & ->)]; [by exists "", t|by exists (String d a), b].
    + intros (a & b & H). destruct a as [|e a]; simpl in *; [left; eauto|].
      injection H as -> ->. right; eauto.
Qed.

Lemma app_cons (c : ascii) (s t : string) : String c s +:+ t = String c (s +:+ t).
Proof. done. Qed.

Lemma app_empty_r (s : string) : s +:+ "" = s.
Proof. induction s as [|c s IH]; [done|]. by rewrite app_cons, IH. Qed.

Lemma length_app_string (s t : string) :
  String.length (s +:+ t) = (String.length s + String.length t)%nat.
Proof. induction s as [|c s IH]; [done|]. rewrite app_cons. simpl. by rewrite IH. Qed.

Lemma sliceTo_app (s t : string) : strings.sliceTo (String.length s) (s +:+ t) = s.
Proof.
  induction s as [|c s IH].
  - by destruct t.
  - rewrite app_cons. simpl. by rewrite IH.
Qed.

Lemma TrimSuffix_app (s suffix : string) : strings.TrimSuffix (s +:+ suffix) suffix = s.
Proof.
  unfold strings.TrimSuffix.
  replace (strings.HasSuffix (s +:+ suffix) suffix) with true
    by (symmetry; apply HasSuffix_spec; eauto).
  rewrite length_app_string.
  replace (String.length s + String.length suffix - String.length suffix)%nat
    with (String.length s) by lia.
  apply sliceTo_app.
Qed.

Lemma trimLeftByte_id (s : string) :
  strings.HasPrefix s "*" = false → strings.trimLeftByte s "*" = s.
Proof.
  destruct s as [|d s]; simpl; [done|].
  destruct (decide (d = "*"%char)) as [->|]; [|done].
  by destruct s.
Qed.

Lemma trimRightByte_id (s : string) :
  strings.HasSuffix s "*" = false → strings.trimRightByte s "*" = s.
Proof.
  induction s as [|d s IH]; [done|].
  cbn [strings.HasSuffix strings.trimRightByte].
  rewrite orb_false_iff, bool_decide_eq_false. intros [Hd Hs].
  rewrite (IH Hs). destruct s as [|e s]; [|done].
  destruct (decide (d = "*"%char)) as [->|]; [done|done].
Qed.

Lemma trimRightByte_star (s : string) :
  strings.trimRightByte (s +:+ "*") "*" = strings.trimRightByte s "*".
Proof.
  induction s as [|d s IH]; [done|].
  change (String d s +:+ "*") with (String d (s +:+ "*")).
  cbn [strings.trimRightByte]. by rewrite IH.
Qed.

Lemma Trim_stars (core : string) :
  strings.HasPrefix core "*" = false → strings.HasSuffix core "*" = false →
  strings.Trim ("*" +:+ core +:+ "*") "*" = core.
Proof.
  intros Hpre Hsuf. unfold strings.Trim.
  change ("*" +:+ core +:+ "*") with (String "*" (core +:+ "*")).
  cbn [strings.trimRightByte].
  rewrite trimRightByte_star, (trimRightByte_id _ Hsuf).
  destruct core as [|d core]; [done|].
  cbn [strings.trimLeftByte]. rewrite decide_True by done.
  by apply (trimLeftByte_id (String d core)).
Qed.

Lemma HasPrefix_nil (s : string) : strings.HasPrefix s "" = true.
Proof. by destruct s. Qed.

Lemma HasPrefix_star_app (d : ascii) (s t : string) :
  strings.HasPrefix (String d s +:+ t) "*" = strings.HasPrefix (String d s) "*".
Proof.
  rewrite app_cons. cbn [strings.HasPrefix]. by rewrite !HasPrefix_nil.
Qed.

Lemma HasSuffix_cons (d : ascii) (s suffix : string) :
  s ≠ "" → String.length suffix = 1%nat →
  strings.HasSuffix (String d s) suffix = strings.HasSuffix s suffix.
Proof.
  intros Hs Hlen. cbn [strings.HasSuffix].
  rewrite bool_decide_eq_false_2; [done|].
  intros <-. destruct s; [done|]. simpl in Hlen. lia.
Qed.

(** X1: the wildcard patterns of [matchLabelValue]. For a core that
    neither starts nor ends with a star: the bare core matches exactly
    itself; with a leading star it matches the values that end with the
    core; with a trailing star the values that start with it; with both
    the values that contain it. *)
Theorem matchLabelValue_wildcards (value core : string) :
  strings.HasPrefix core "*" = false →
  strings.HasSuffix core "*" = false →
  (matchLabelValue value core = true ↔ value = core) ∧
  (matchLabelValue value ("*" +:+ core) = true ↔ ∃ a, value = a +:+ core) ∧
  (matchLabelValue value (core +:+ "*") = true ↔ ∃ b, value = core +:+ b) ∧
  (matchLabelValue value ("*" +:+ core +:+ "*") = true
   ↔ ∃ a b, value = a +:+ core +:+ b).
Proof.
  intros Hpre Hsuf. unfold matchLabelValue. split; [|split; [|split]].
  - rewrite Hpre, Hsuf. simpl. by rewrite bool_decide_eq_true.
  - destruct core as [|d core].
    + change ("*" +:+ "") with "*".
      change (strings.HasPrefix "*" "*" && strings.HasSuffix "*" "*") with true.
      cbv iota. change (strings.Trim "*" "*") with "". split.
      * intros _. exists value. by rewrite app_empty_r.
      * intros _. apply Contains_spec. by exists "", value.
    + replace (strings.HasPrefix ("*" +:+ String d core) "*") with true by done.
      replace (strings.HasSuffix ("*" +:+ String d core) "*")
        with (strings.HasSuffix (String d core) "*")
        by (symmetry; by apply HasSuffix_cons).
      rewrite Hsuf. simpl. apply HasSuffix_spec.
  - destruct core as [|d core].
    + change ("" +:+ "*") with "*".
      change (strings.HasPrefix "*" "*" && strings.HasSuffix "*" "*") with true.
      cbv iota. change (strings.Trim "*" "*") with "". split.
      * intros _. by exists value.
      * intros _. apply Contains_spec. by exists "", value.
    + replace (strings.HasPrefix (String d core +:+ "*") "*") with false
        by (symmetry; by rewrite HasPrefix_star_app).
      replace (strings.HasSuffix (String d core +:+ "*") "*") with true
        by (symmetry; apply HasSuffix_spec; eauto).
      rewrite TrimSuffix_app. simpl. apply HasPrefix_spec.
  - replace (strings.HasPrefix ("*" +:+ core +:+ "*") "*") with true
      by (symmetry; apply HasPrefix_spec; eauto).
    replace (strings.HasSuffix ("*" +:+ core +:+ "*") "*") with true
      by (symmetry; apply HasSuffix_spec; by exists ("*" +:+ core)).
    rewrite Trim_stars by done. simpl. apply Contains_spec.
Qed.

(** X1 at the value [web-frontend] and the core [front]. *)
Lemma matchLabelValue_wildcards_witness :
  (matchLabelValue "web-frontend" "front" = true ↔ "web-frontend" = "front") ∧
  (matchLabelValue "web-frontend" ("*" +:+ "front") = true
   ↔ ∃ a, "web-frontend" = a +:+ "front") ∧
  (matchLabelValue "web-frontend" ("front" +:+ "*") = true
   ↔ ∃ b, "web-frontend" = "front" +:+ b) ∧
  (matchLabelValue "web-frontend" ("*" +:+ "front" +:+ "*") = true
   ↔ ∃ a b, "web-frontend" = a +:+ "front" +:+ b).
Proof. apply (matchLabelValue_wildcards "web-frontend" "front"); reflexivity. Defined.

Example wildcard_matches :
  matchLabelValue "web-frontend" "*front*" = true
  ∧ matchLabelValue "web-frontend" "web-*" = true
  ∧ matchLabelValue "web-frontend" "*-frontend" = true
  ∧ matchLabelValue "web-frontend" "front*" = false
  ∧ matchLabelValue "web-frontend" "*" = true
  ∧ matchLabelValue "web-frontend" "**end" = false.
Proof. done. Qed.

Lemma matchEntries_Forall (resourceLabels : gmap string string)
    (entries : list (string * string)) :
  matchEntries resourceLabels entries = true
  ↔ Forall (λ kv, ∃ resourceValue, resourceLabels !! kv.1 = Some resourceValue
                  ∧ matchLabelValue resourceValue kv.2 = true) entries.
Proof.
  induction entries as [|[k v] entries IH]; simpl.
  - split; [constructor|done].
  - rewrite Forall_cons, <- IH. simpl.
    destruct (resourceLabels !! k) as [resourceValue|].
    + destruct (matchLabelValue resourceValue v) eqn:Hv.
      * split; [intros H; split; [eauto|done]|by intros [_ H]].
      * split; [done|]. intros [(rv & Hrv & Hm) _]. congruence.
    + split; [done|]. by intros [(rv & Hrv & _) _].
Qed.

Lemma matchLabels_Forall (resourceLabels filterLabels : gmap string string) :
  matchLabels resourceLabels filterLabels = true
  ↔ ∀ k pattern, filterLabels !! k = Some pattern →
      ∃ value, resourceLabels !! k = Some value
               ∧ matchLabelValue value pattern = true.
Proof.
  unfold matchLabels. destruct (decide (size filterLabels = 0)%nat) as [Hsize|Hsize].
  - apply map_size_empty_iff in Hsize as ->. split; [|done].
    intros _ k pattern Hk. by rewrite lookup_empty in Hk.
  - rewrite matchEntries_Forall, Forall_forall. split.
    + intros H k pattern Hk. apply (H (k, pattern)). by apply elem_of_map_to_list.
    + intros H [k pattern] Hin. apply H. by apply elem_of_map_to_list.
Qed.

(** X2: [matchLabels] accepts a resource exactly when every entry of
    the filter's label map names a label that the resource carries, with
    a value matching the entry's pattern; the order in which the map is
    walked does not matter, and a filter without labels accepts every
    resource. *)
Theorem matchLabels_every_entry (resourceLabels filterLabels : gmap string string) :
  (matchLabels resourceLabels filterLabels = true
   ↔ ∀ k pattern, filterLabels !! k = Some pattern →
       ∃ value, resourceLabels !! k = Some value
                ∧ matchLabelValue value pattern = true)
  ∧ matchLabels resourceLabels ∅ = true.
Proof. split; [apply matchLabels_Forall|done]. Qed.

End LabelPatterns.

(** ** Resource and relationship filters *)

Section Filters.
Import types common.

Lemma contains_elem_of (slice : list string) (item : string) :
  contains slice item = true ↔ item ∈ slice.
Proof.
  induction slice as [|s slice IH]; simpl.
  - split; [done|]. by intros ?%elem_of_nil.
  - rewrite elem_of_cons. destruct (decide (s = item)) as [->|Hne].
    + split; [by left|done].
    + rewrite IH. split; [by right|]. by intros [->|].
Qed.

(** A list criterion of a filter: an empty list accepts everything. *)
Definition accepts (allowed : list string) (x : string) : Prop :=
  allowed = [] ∨ x ∈ allowed.

Lemma accepts_contains (allowed : list string) (x : string) :
  bool_decide (0 < length allowed)%nat && negb (contains allowed x) = false
  ↔ accepts allowed x.
Proof.
  unfold accepts. destruct allowed as [|a allowed].
  - simpl. split; [by left|done].
  - rewrite bool_decide_eq_true_2 by (simpl; lia).
    rewrite andb_true_l, negb_false_iff, contains_elem_of.
    split; [by right|]. by intros [|].
Qed.

Definition relationshipPasses (filter : RelationshipFilter.t) (rel : Relationship) : Prop :=
  accepts (RelationshipFilter.Types filter) (RelType rel)
  ∧ accepts (RelationshipFilter.SourceTypes filter) (Type_ (Source rel))
  ∧ accepts (RelationshipFilter.TargetTypes filter) (Type_ (Target rel))
  ∧ (RelationshipFilter.NamespaceScope filter = true →
     Namespace (Source rel) = Namespace (Target rel)).

Lemma keepsRelationship_passes (filter : RelationshipFilter.t) (rel : Relationship) :
  keepsRelationship filter rel = true ↔ relationshipPasses filter rel.
Proof.
  unfold keepsRelationship, relationshipPasses.
  rewrite <- !accepts_contains.
  destruct (bool_decide _ && negb (contains (RelationshipFilter.Types filter) _));
    [split; [done|by intros [? _]]|].
  destruct (bool_decide _ && negb (contains (RelationshipFilter.SourceTypes filter) _));
    [split; [done|by intros (_ & ? & _)]|].
  destruct (bool_decide _ && negb (contains (RelationshipFilter.TargetTypes filter) _));
    [split; [done|by intros (_ & _ & ? & _)]|].
  destruct (RelationshipFilter.NamespaceScope filter); simpl.
  - destruct (bool_decide_reflect (Namespace (Source rel) ≠ Namespace (Target rel)))
      as [Hne|Heq].
    + split; [done|]. intros (_ & _ & _ & H). by destruct Hne, H.
    + split; [|done]. intros _. repeat split; try done.
      intros _. by destruct (decide (Namespace (Source rel) = Namespace (Target rel))).
  - split; [|done]. intros _. by repeat split.
Qed.

Lemma foldl_append_if {A} (keep : A → bool) (l init : list A) :
  foldl (λ result x, if keep x then result ++ [x] else result) init l
  = init ++ base.filter (λ x, keep x = true) l.
Proof.
  revert init. induction l as [|x l IH]; intros init; simpl.
  - by rewrite app_nil_r.
  - rewrite IH, filter_cons. destruct (keep x).
    + rewrite decide_True by done. by rewrite <- app_assoc.
    + by rewrite decide_False by done.
Qed.

Lemma FilterRelationships_filter (relations : list Relationship)
    (filter : RelationshipFilter.t) :
  FilterRelationships relations filter
  = base.filter (λ rel, keepsRelationship filter rel = true) relations.
Proof.
  unfold FilterRelationships. destruct (decide (length relations = 0)%nat) as [Hlen|_].
  - by destruct relations.
  - by rewrite foldl_append_if.
Qed.

(** X3: [FilterRelationships] keeps, in their order, exactly the
    relationships that pass every criterion of the filter: the type, the
    source type and the target type are each in the corresponding list
    unless that list is empty, and with [NamespaceScope] the source and
    the target are in the same namespace. *)
Theorem FilterRelationships_selects (relations : list Relationship)
    (filter : RelationshipFilter.t) :
  sublist (FilterRelationships relations filter) relations
  ∧ ∀ rel, rel ∈ FilterRelationships relations filter
           ↔ rel ∈ relations ∧ relationshipPasses filter rel.
Proof.
  rewrite FilterRelationships_filter. split.
  - apply sublist_filter.
  - intros rel. by rewrite list_elem_of_filter, keepsRelationship_passes, (comm and).
Qed.

(** X4: filtering relationships twice with the same filter is the same
    as filtering once, two filters can be applied in either order, and
    the zero filter returns its input. *)
Theorem FilterRelationships_compose (relations : list Relationship)
    (f g : RelationshipFilter.t) :
  FilterRelationships (FilterRelationships relations f) f
  = FilterRelationships relations f
  ∧ FilterRelationships (FilterRelationships relations f) g
    = FilterRelationships (FilterRelationships relations g) f
  ∧ FilterRelationships relations
      {| RelationshipFilter.Types := []; RelationshipFilter.SourceTypes := [];
         RelationshipFilter.TargetTypes := [];
         RelationshipFilter.NamespaceScope := false |}
    = relations.
Proof.
  rewrite !FilterRelationships_filter. split; [|split].
  - rewrite list_filter_filter. apply list_filter_iff. tauto.
  - rewrite !list_filter_filter. apply list_filter_iff. tauto.
  - induction relations as [|rel relations IH]; [done|].
    rewrite filter_cons. rewrite decide_True by done. by rewrite IH.
Qed.

Definition resourcePasses (nameRegex : string → bool) (filter : ResourceFilter.t)
    (r : Resource) : Prop :=
  accepts (ResourceFilter.Types filter) (Type_ r)
  ∧ accepts (ResourceFilter.Namespaces filter) (Namespace r)
  ∧ (ResourceFilter.NameMatch filter = "" ∨ nameRegex (Name r) = true)
  ∧ (∀ k pattern, ResourceFilter.LabelMatch filter !! k = Some pattern →
       ∃ value, Labels r !! k = Some value ∧ matchLabelValue value pattern = true).

Lemma keepsResource_passes (nameRegex : string → bool) (filter : ResourceFilter.t)
    (r : Resource) :
  keepsResource nameRegex filter r = true ↔ resourcePasses nameRegex filter r.
Proof.
  unfold keepsResource, resourcePasses.
  rewrite <- !accepts_contains, <- matchLabels_Forall.
  destruct (bool_decide _ && negb (contains (ResourceFilter.Types filter) _));
    [split; [done|by intros [? _]]|].
  destruct (bool_decide _ && negb (contains (ResourceFilter.Namespaces filter) _));
    [split; [done|by intros (_ & ? & _)]|].
  destruct (bool_decide_reflect (ResourceFilter.NameMatch filter ≠ "")) as [Hne|Heq];
    simpl.
  - destruct (nameRegex (Name r)); simpl.
    + destruct (matchLabels _ _); simpl; [|split; [done|by intros (_ & _ & _ & ?)]].
      split; [|done]. intros _. repeat split; try done. by right.
    + split; [done|]. by intros (_ & _ & [?|?] & _).
  - destruct (matchLabels _ _); simpl; [|split; [done|by intros (_ & _ & _ & ?)]].
    split; [|done]. intros _. repeat split; try done. left.
    by destruct (decide (ResourceFilter.NameMatch filter = "")).
Qed.

Section CompiledPattern.

Variable MustCompile : string → option (string → bool).

(** X5: [FilterResources] returns an empty input without compiling
    the name pattern. On a non-empty input it panics when the pattern
    does not compile, and otherwise keeps, in their order, exactly the
    resources that pass the type, namespace, name and label criteria
    (the name criterion is off for an empty pattern). *)
Theorem FilterResources_selects (first : Resource) (rest : list Resource)
    (filter : ResourceFilter.t) :
  FilterResources MustCompile [] filter = Some []
  ∧ match MustCompile (ResourceFilter.NameMatch filter) with
    | None => FilterResources MustCompile (first :: rest) filter = None
    | Some nameRegex =>
        ∃ result,
          FilterResources MustCompile (first :: rest) filter = Some result
          ∧ sublist result (first :: rest)
          ∧ ∀ r, r ∈ result ↔ r ∈ first :: rest ∧ resourcePasses nameRegex filter r
    end.
Proof.
  split; [done|]. unfold FilterResources. rewrite decide_False by done.
  destruct (MustCompile (ResourceFilter.NameMatch filter)) as [nameRegex|]; [|done].
  eexists. split; [done|]. rewrite foldl_append_if, app_nil_l. split.
  - apply sublist_filter.
  - intros r. by rewrite list_elem_of_filter, keepsResource_passes, (comm and).
Qed.

End CompiledPattern.

(** A stand-in for the regular expressions: a pattern without
    metacharacters matches the names that contain it, and an unbalanced
    parenthesis does not compile. *)
Definition literalPattern (pattern : string) : option (string → bool) :=
  if strings.Contains pattern "(" then None
  else Some (λ name, strings.Contains name pattern).

Definition labelled (type name namespace : string) (labels : gmap string string)
    : Resource :=
  {| Type_ := type; Name := name; Namespace := namespace; Labels := labels;
     Data := NoData; Status := noStatus |}.

Example filter_pods_of_web :
  let resources :=
    [ labelled "Pod" "web-1" "default" {["app" := "web-frontend"]};
      labelled "Pod" "db-1" "default" {["app" := "database"]};
      labelled "Service" "web" "default" {["app" := "web-frontend"]};
      labelled "Pod" "web-2" "staging" {["app" := "web-backend"]} ] in
  let filter name :=
    {| ResourceFilter.Types := ["Pod"]; ResourceFilter.Namespaces := [];
       ResourceFilter.LabelMatch := {["app" := "web-*"]};
       ResourceFilter.NameMatch := name |} in
  Name <$> default [] (FilterResources literalPattern resources (filter "web"))
    = ["web-1"; "web-2"]
  ∧ FilterResources literalPattern resources (filter "(") = None
  ∧ FilterResources literalPattern [] (filter "(") = Some [].
Proof. vm_compute. done. Qed.

End Filters.

(** ** Tree lines ([utils/formatting.go]) *)

Section TreeLines.
Import utils.









Example tree_of_three :
  FormatList ["a"; "b"; "c"] 1
    = Some ["    ├── a"; "    ├── b"; "    └── c"]
  ∧ FormatList ["a"] (-1) = None
  ∧ FormatList [] (-1) = Some [].
Proof. done. Qed.

End TreeLines.

(** ** The relationship processor's text view *)

Section RelationshipView.
Import types RelationshipProcessor.

(** The relationships whose source has the type [resType], in their
    order. *)
Definition fromType (resType : ResourceType) (relations : list Relationship)
    : list Relationship :=
  filter (λ rel, Type_ (Source rel) = resType) relations.

Lemma groupBySourceType_snoc (relations : list Relationship) (rel : Relationship) :
  groupBySourceType (relations ++ [rel])
  = <[Type_ (Source rel) :=
        default [] (groupBySourceType relations !! Type_ (Source rel)) ++ [rel]]>
      (groupBySourceType relations).
Proof. unfold groupBySourceType. by rewrite foldl_app. Qed.

Lemma groupBySourceType_lookup (relations : list Relationship) (resType : ResourceType) :
  groupBySourceType relations !! resType
  = match fromType resType relations with
    | [] => None
    | group => Some group
    end.
Proof.
  induction relations as [|rel relations IH] using rev_ind; [done|].
  rewrite groupBySourceType_snoc. unfold fromType in *. rewrite filter_app.
  rewrite filter_cons, filter_nil.
  destruct (decide (Type_ (Source rel) = resType)) as [<-|Hne].
  - rewrite lookup_insert_eq, IH.
    by destruct (filter _ relations).
  - rewrite lookup_insert_ne by done. by rewrite IH, app_nil_r.
Qed.

(** What [VisualizeRelationships] writes for one resource type. *)
Definition layerOf (resType : ResourceType) (relations : list Relationship) : string :=
  match fromType resType relations with
  | [] => ""
  | group => layer "---->" resType group
  end.

Lemma string_app_empty_r (s : string) : s +:+ "" = s.
Proof. induction s as [|c s IH]; [done|]. change (String c (s +:+ "") = String c s). by rewrite IH. Qed.

Lemma string_app_empty_l (s : string) : "" +:+ s = s.
Proof. done. Qed.

Lemma string_app_assoc (a b c : string) : (a +:+ b) +:+ c = a +:+ (b +:+ c).
Proof.
  induction a as [|x a IH]; [done|].
  change (String x ((a +:+ b) +:+ c) = String x (a +:+ (b +:+ c))). by rewrite IH.
Qed.

(** X7: [VisualizeRelationships] never panics. After the two heading
    lines it writes one layer for each of the types Ingress, Service,
    Deployment, Pod and ConfigMap, in this order, that is the source type
    of some relationship; the layer lists the relationships from that
    type in the order in which they were recorded. Relationships whose
    source has any other type do not change the text. *)
Theorem VisualizeRelationships_layers (p : Processor) :
  VisualizeRelationships p
  = Some ("External Traffic" +:+ utils.LF +:+ "│" +:+ utils.LF +:+
          layerOf ResourceTypeIngress (relations p) +:+
          layerOf ResourceTypeService (relations p) +:+
          layerOf ResourceTypeDeployment (relations p) +:+
          layerOf ResourceTypePod (relations p) +:+
          layerOf ResourceTypeConfigMap (relations p))
  ∧ VisualizeRelationships
      {| resources := resources p;
         relations := filter (λ rel, Type_ (Source rel) ∈ resourceOrder) (relations p);
         requests := requests p |}
    = VisualizeRelationships p.
Proof.
  assert (∀ q, VisualizeRelationships q
    = Some ("External Traffic" +:+ utils.LF +:+ "│" +:+ utils.LF +:+
            layerOf ResourceTypeIngress (relations q) +:+
            layerOf ResourceTypeService (relations q) +:+
            layerOf ResourceTypeDeployment (relations q) +:+
            layerOf ResourceTypePod (relations q) +:+
            layerOf ResourceTypeConfigMap (relations q))) as Hview.
  { intros q. unfold VisualizeRelationships.
    change (utils.CreateArrow 4) with (Some "---->").
    cbv beta iota. f_equal. unfold resourceOrder. cbn [foldl].
    rewrite !groupBySourceType_lookup. unfold layerOf.
    destruct (fromType ResourceTypeIngress _), (fromType ResourceTypeService _),
      (fromType ResourceTypeDeployment _), (fromType ResourceTypePod _),
      (fromType ResourceTypeConfigMap _);
      rewrite ?string_app_empty_r, ?string_app_assoc, ?string_app_empty_l;
      reflexivity. }
  split; [apply Hview|].
  rewrite !Hview. simpl relations.
  assert (∀ resType, resType ∈ resourceOrder →
    layerOf resType (filter (λ rel, Type_ (Source rel) ∈ resourceOrder) (relations p))
    = layerOf resType (relations p)) as Hsame.
  { intros resType Hin. unfold layerOf, fromType. rewrite list_filter_filter.
    rewrite (list_filter_iff _ (λ rel, Type_ (Source rel) = resType)); [done|].
    intros rel. split; [tauto|].
    intros Heq. split; [done|]. by rewrite Heq. }
  rewrite !Hsame; [done|..]; unfold resourceOrder; set_solver.
Qed.

End RelationshipView.

(** ** Ingress relationships of the relationship processor *)

Section IngressRelationships.
Import types RelationshipProcessor.

(** A loop whose body either panics or extends the processor. *)
Lemma foldP_extend {A} (body : Processor → A → option Processor)
    (safe : A → Prop) `{!∀ x, Decision (safe x)}
    (rs : A → list Resource) (rels : A → list Relationship)
    (reqs : A → list client.Request) :
  (∀ p x, safe x → body p x = Some (extend p (rs x) (rels x) (reqs x))) →
  (∀ p x, ¬ safe x → body p x = None) →
  ∀ l p, legacy.foldP body p l
         = if decide (Forall safe l)
           then Some (extend p (flat_map rs l) (flat_map rels l) (flat_map reqs l))
           else None.
Proof.
  intros Hsafe Hpanic l. induction l as [|x l IH]; intros p;
    cbn [legacy.foldP flat_map].
  - rewrite decide_True by constructor. by rewrite extend_nil.
  - destruct (decide (safe x)) as [Hx|Hx].
    + rewrite (Hsafe p x Hx), IH.
      destruct (decide (Forall safe l)) as [Hl|Hl].
      * rewrite decide_True by by constructor. by rewrite extend_extend.
      * rewrite decide_False; [done|]. by intros [_ ?]%Forall_cons.
    + rewrite (Hpanic p x Hx). rewrite decide_False; [done|].
      by intros [? _]%Forall_cons.
Qed.

Variable c : client.Cluster.
Variable namespace : string.

(** The service that a path entry resolves to. *)
Definition pathService (path : Ingress.HTTPPath) : option Service.t :=
  match Ingress.BackendService path with
  | Some backend =>
      match client.GetService c namespace (Ingress.BackendName backend) with
      | inr svc => Some svc
      | inl _ => None
      end
  | None => None
  end.

(** The edge recorded for a path entry: none when the service cannot be
    fetched. *)
Definition pathEdges (ing : Ingress.t) (entry : Ingress.Rule * Ingress.HTTPPath)
    : list Relationship :=
  match pathService entry.2 with
  | Some svc =>
      [ {| Source := legacy.ingressResource ing;
           Target := {| Type_ := ResourceTypeService;
                        Name := Service.Name svc;
                        Namespace := Service.Namespace svc;
                        Labels := Service.Labels svc;
                        Data := ServicePtr svc;
                        Status := noStatus |};
           RelType := RelationshipTypeExposes;
           Description := "exposes via " +:+ Ingress.Host entry.1 +:+
                          Ingress.Path entry.2 |} ]
  | None => []
  end.

Definition pathRequests (entry : Ingress.Rule * Ingress.HTTPPath)
    : list client.Request :=
  match Ingress.BackendService entry.2 with
  | Some backend => [client.ReqGet "services" namespace (Ingress.BackendName backend)]
  | None => []
  end.

(** Every path entry of the ingress has a service backend. *)
Definition serviceBackends (ing : Ingress.t) : Prop :=
  Forall (λ entry, is_Some (Ingress.BackendService entry.2)) (pathsOf ing).

Lemma exposeIngress_cases (ing : Ingress.t) (p : Processor) :
  exposeIngress c namespace p ing
  = if decide (serviceBackends ing)
    then Some (extend p [legacy.ingressResource ing]
                        (flat_map (pathEdges ing) (pathsOf ing))
                        (flat_map pathRequests (pathsOf ing)))
    else None.
Proof.
  unfold exposeIngress.
  rewrite (foldP_extend _
             (λ rule, Forall (λ entry : Ingress.Rule * Ingress.HTTPPath,
                                is_Some (Ingress.BackendService entry.2))
                             (match Ingress.HTTP rule with
                              | Some paths => map (pair rule) paths
                              | None => []
                              end))
             (λ _, [])
             (λ rule, flat_map (pathEdges ing)
                        (match Ingress.HTTP rule with
                         | Some paths => map (pair rule) paths
                         | None => []
                         end))
             (λ rule, flat_map pathRequests
                        (match Ingress.HTTP rule with
                         | Some paths => map (pair rule) paths
                         | None => []
                         end))).
  - unfold serviceBackends, pathsOf.
    assert (∀ {X} (f : Ingress.Rule * Ingress.HTTPPath → list X)
              (g : Ingress.Rule → list (Ingress.Rule * Ingress.HTTPPath)) rules,
              flat_map (λ rule, flat_map f (g rule)) rules
              = flat_map f (flat_map g rules)) as Hflat.
    { intros X f g rules. induction rules as [|rule rules IH]; simpl; [done|].
      by rewrite flat_map_app, IH. }
    assert (∀ (P : Ingress.Rule * Ingress.HTTPPath → Prop)
              (g : Ingress.Rule → list (Ingress.Rule * Ingress.HTTPPath)) rules,
              Forall (λ rule, Forall P (g rule)) rules ↔ Forall P (flat_map g rules))
      as Hall.
    { intros P g rules. induction rules as [|rule rules IH]; simpl.
      - split; constructor.
      - by rewrite Forall_cons, Forall_app, IH. }
    rewrite !Hflat, flat_map_nil.
    destruct (decide (Forall _ (Ingress.Rules ing))) as [H|H].
    + rewrite decide_True by by apply Hall.
      unfold legacy.appendResource, extend. simpl. by rewrite !app_nil_r.
    + rewrite decide_False; [done|]. by rewrite <- Hall.
  - intros q rule Hrule. destruct (Ingress.HTTP rule) as [paths|].
    + rewrite (foldP_extend _
                 (λ path, is_Some (Ingress.BackendService path))
                 (λ _, [])
                 (λ path, pathEdges ing (rule, path))
                 (λ path, pathRequests (rule, path))).
      * rewrite decide_True.
        -- rewrite flat_map_nil. f_equal. f_equal.
           ++ clear. induction paths as [|path paths IH]; simpl; [done|]. by rewrite IH.
           ++ clear. induction paths as [|path paths IH]; simpl; [done|]. by rewrite IH.
        -- rewrite Forall_fmap in Hrule. done.
      * intros q' path [backend Hbackend].
        unfold exposePath, pathEdges, pathRequests, pathService. simpl.
        rewrite Hbackend.
        destruct (client.GetService c namespace (Ingress.BackendName backend));
          unfold legacy.logRequest, legacy.appendRelation, extend; simpl;
          by rewrite ?app_nil_r.
      * intros q' path Hnone. unfold exposePath.
        destruct (Ingress.BackendService path); [|done]. by destruct Hnone.
    + simpl. by rewrite extend_nil.
  - intros q rule Hrule. destruct (Ingress.HTTP rule) as [paths|].
    + rewrite (foldP_extend _
                 (λ path, is_Some (Ingress.BackendService path))
                 (λ _, [])
                 (λ path, pathEdges ing (rule, path))
                 (λ path, pathRequests (rule, path))).
      * rewrite decide_False; [done|]. by rewrite Forall_fmap in Hrule.
      * intros q' path [backend Hbackend].
        unfold exposePath, pathEdges, pathRequests, pathService. simpl.
        rewrite Hbackend.
        destruct (client.GetService c namespace (Ingress.BackendName backend));
          unfold legacy.logRequest, legacy.appendRelation, extend; simpl;
          by rewrite ?app_nil_r.
      * intros q' path Hnone. unfold exposePath.
        destruct (Ingress.BackendService path); [|done]. by destruct Hnone.
    + destruct Hrule. constructor.
Qed.

Lemma processIngressRelationships_cases (p : Processor) :
  match client.ListIngresses c namespace with
  | inl err =>
      processIngressRelationships c namespace p
      = Some (Some ("failed to list ingresses: " +:+ err),
              legacy.logRequest
                (client.ReqList "ingresses" namespace client.SelEverything) p)
  | inr ingresses =>
      if decide (Forall serviceBackends ingresses) then
        ∃ p', processIngressRelationships c namespace p = Some (None, p')
              ∧ resources p' = resources p ++ map legacy.ingressResource ingresses
              ∧ relations p'
                = relations p ++
                  flat_map (λ ing, flat_map (pathEdges ing) (pathsOf ing)) ingresses
              ∧ length (relations p')
                = (length (relations p) +
                   length (filter (λ entry, is_Some (pathService entry.2))
                                  (flat_map pathsOf ingresses)))%nat
      else processIngressRelationships c namespace p = None
  end.
Proof.
  unfold processIngressRelationships.
  destruct (client.ListIngresses c namespace) as [err|ingresses]; [done|].
  rewrite (foldP_extend _ serviceBackends
             (λ ing, [legacy.ingressResource ing])
             (λ ing, flat_map (pathEdges ing) (pathsOf ing))
             (λ ing, flat_map pathRequests (pathsOf ing))).
  - destruct (decide (Forall serviceBackends ingresses)) as [Hall|Hall]; [|done].
    eexists. split; [done|]. simpl. split; [|split].
    + by f_equal.
    + done.
    + rewrite length_app. f_equal. clear p Hall.
      induction ingresses as [|ing ingresses IH]; simpl; [done|].
      rewrite filter_app, !length_app, IH. f_equal.
      induction (pathsOf ing) as [|entry entries IHe]; simpl; [done|].
      rewrite filter_cons, length_app, IHe. unfold pathEdges at 1.
      destruct (pathService entry.2) as [svc|].
      * by rewrite decide_True by done.
      * rewrite decide_False; [done|]. by intros [? ?].
  - intros q ing Hing. rewrite exposeIngress_cases. by rewrite decide_True.
  - intros q ing Hing. rewrite exposeIngress_cases. by rewrite decide_False.
Qed.

(** X8: [processIngressRelationships] reports a failed listing of the
    ingresses as an error. Otherwise it panics exactly when some listed
    ingress has a path entry without a service backend; when none has,
    it returns nil, adds one resource per listed ingress and one
    [exposes] edge per path entry whose service can be fetched, in the
    order of the entries, so two entries that name the same service give
    two edges. *)
Theorem ingress_relationships_per_path (p : Processor) :
  match client.ListIngresses c namespace with
  | inl err =>
      processIngressRelationships c namespace p
      = Some (Some ("failed to list ingresses: " +:+ err),
              legacy.logRequest
                (client.ReqList "ingresses" namespace client.SelEverything) p)
  | inr ingresses =>
      if decide (Forall serviceBackends ingresses) then
        ∃ p', processIngressRelationships c namespace p = Some (None, p')
              ∧ resources p' = resources p ++ map legacy.ingressResource ingresses
              ∧ relations p'
                = relations p ++
                  flat_map (λ ing, flat_map (pathEdges ing) (pathsOf ing)) ingresses
              ∧ length (relations p')
                = (length (relations p) +
                   length (filter (λ entry, is_Some (pathService entry.2))
                                  (flat_map pathsOf ingresses)))%nat
      else processIngressRelationships c namespace p = None
  end.
Proof. exact (processIngressRelationships_cases p). Qed.

End IngressRelationships.

Section IngressRelationshipsExample.
Import types RelationshipProcessor.

(** An ingress whose only path routes to a resource backend. *)
Definition bucketIngress : Ingress.t :=
  {| Ingress.Name := "assets"; Ingress.Namespace := "default"; Ingress.Labels := ∅;
     Ingress.DefaultBackendService := None;
     Ingress.Rules :=
       [ {| Ingress.Host := "static.example.com";
            Ingress.HTTP := Some [ {| Ingress.Path := "/";
                                      Ingress.BackendService := None |} ] |} ];
     Ingress.SpecTLS := []; Ingress.IngressClassName := None;
     Ingress.LoadBalancer := [] |}.

Definition bucketCluster : client.Cluster :=
  {| client.Namespaces := ["default"];
     client.Pods := []; client.Services := [webService];
     client.Ingresses := [twoPaths; bucketIngress];
     client.Deployments := []; client.ConfigMaps := []; client.Secrets := [];
     client.IngressClasses := [];
     client.Refused := λ _ _, None |}.

Example relationship_processor_two_paths :
  ∃ p, processIngressRelationships routeCluster "default" newProcessor = Some (None, p)
       ∧ Description <$> relations p
         = ["exposes via app.example.com/a"; "exposes via app.example.com/b"].
Proof. eexists. split; vm_compute; reflexivity. Qed.

Example relationship_processor_resource_backend :
  processIngressRelationships bucketCluster "default" newProcessor = None.
Proof. vm_compute. reflexivity. Qed.

End IngressRelationshipsExample.

(** ** The relationship processor's run *)

Section RelationshipRun.
Import types RelationshipProcessor.

Variable completion : list (M unit).

Lemma relationship_goroutines (procs : list (M unit)) (p : Processor)
    (errCh : list error) :
  foldl goroutine (p, errCh) procs
  = (addRelationships p (flat_map contribution procs), errCh ++ omap failure procs).
Proof.
  revert p errCh. induction procs as [|proc procs IH]; intros p errCh; simpl.
  - destruct p. unfold addRelationships. simpl. by rewrite !app_nil_r.
  - unfold goroutine at 2, contribution at 1, failure at 1.
    destruct (proc newProcessor) as [[[]|err] final]; simpl; rewrite IH.
    + f_equal. unfold addRelationships. simpl. by rewrite <- app_assoc.
    + by rewrite <- app_assoc.
Qed.

(** X9: [RelationshipProcessor.Process] first collects what the
    processors found. If one of them failed, it returns the first error
    received, wrapped, and does not look at the ingresses at all: no
    request is sent. If none failed, the ingress relationships are
    processed on top of the collected ones, so the ingress edges come
    after every edge of the processors; an error of that step is wrapped
    once more, and its panic is the panic of the run. *)
Theorem relationship_processor_ingresses_last (c : client.Cluster)
    (namespace : string) (p : Processor) :
  let collected := addRelationships p (flat_map contribution completion) in
  match omap failure completion with
  | err :: _ =>
      Process completion c namespace p
      = Some (Some ("processor error: " +:+ err), collected)
      ∧ requests collected = requests p
  | [] =>
      match processIngressRelationships c namespace collected with
      | Some (Some err, p') =>
          Process completion c namespace p
          = Some (Some ("error processing ingress relationships: " +:+ err), p')
      | Some (None, p') =>
          Process completion c namespace p = Some (None, p')
          ∧ ∃ ingressEdges,
              relations p'
              = relations p ++ flat_map contribution completion ++ ingressEdges
      | None => Process completion c namespace p = None
      end
  end.
Proof.
  intros collected. unfold Process. rewrite relationship_goroutines. simpl.
  destruct (omap failure completion) as [|err errs]; [|done].
  fold collected.
  destruct (processIngressRelationships c namespace collected)
    as [[[err|] p']|] eqn:Hingress; [done| |done].
  split; [done|].
  pose proof (processIngressRelationships_cases c namespace collected) as Hpaths.
  rewrite Hingress in Hpaths.
  destruct (client.ListIngresses c namespace) as [err|ingresses]; [done|].
  destruct (decide (Forall (serviceBackends) ingresses)); [|done].
  destruct Hpaths as (p'' & [= <-] & _ & Hrels & _).
  eexists. rewrite Hrels. simpl. by rewrite <- app_assoc.
Qed.

End RelationshipRun.

(** ** Configuration ([config/config.go]) *)

Section Configuration.
Import config.

(** The characters that [IsValidNamespaceName] lets through. *)
Definition nameChar (c : ascii) : Prop :=
  (nat_of_ascii "a" ≤ nat_of_ascii c ≤ nat_of_ascii "z")%nat
  ∨ (nat_of_ascii "0" ≤ nat_of_ascii c ≤ nat_of_ascii "9")%nat
  ∨ c = "-"%char.

Lemma validNameChar_nameChar (c : ascii) : validNameChar c = true ↔ nameChar c.
Proof.
  unfold validNameChar, nameChar.
  rewrite !orb_true_iff, !andb_true_iff, !bool_decide_eq_true. tauto.
Qed.

Lemma validNameLoop_Forall (name : string) :
  validNameLoop name = true ↔ Forall nameChar (String.list_ascii_of_string name).
Proof.
  induction name as [|c name IH]; simpl.
  - split; [constructor|done].
  - rewrite Forall_cons, <- IH, <- validNameChar_nameChar.
    destruct (validNameChar c); [tauto|]. split; [done|]. by intros [? _].
Qed.

Lemma nameChar_not_slash : ¬ nameChar "/".
Proof.
  unfold nameChar.
  change (nat_of_ascii "/") with 47%nat. change (nat_of_ascii "a") with 97%nat.
  change (nat_of_ascii "0") with 48%nat. change (nat_of_ascii "9") with 57%nat.
  intros [?|[?|?]]; [lia|lia|done].
Qed.

Lemma Forall_nameChar_slashFree (name : string) :
  Forall nameChar (String.list_ascii_of_string name) → slashFree name.
Proof.
  induction name as [|c name IH]; simpl; [done|].
  intros [Hc Hname]%Forall_cons. split; [|by apply IH].
  intros [= ->]. by apply nameChar_not_slash.
Qed.

(** X10: [IsValidNamespaceName] accepts exactly the names of 1 to 253
    bytes made of lower-case letters, digits and hyphens. An accepted
    name therefore holds no slash. *)
Theorem IsValidNamespaceName_accepts (name : string) :
  (IsValidNamespaceName name = true
   ↔ (1 ≤ String.length name ≤ 253)%nat
     ∧ Forall nameChar (String.list_ascii_of_string name))
  ∧ (IsValidNamespaceName name = true → slashFree name).
Proof.
  assert (IsValidNamespaceName name = true
          ↔ (1 ≤ String.length name ≤ 253)%nat
            ∧ Forall nameChar (String.list_ascii_of_string name)) as Hiff.
  { unfold IsValidNamespaceName. rewrite <- validNameLoop_Forall.
    destruct (bool_decide_reflect (String.length name = 0)%nat) as [H0|H0]; simpl.
    - split; [done|]. intros [? _]. lia.
    - destruct (bool_decide_reflect (253 < String.length name)%nat) as [H1|H1]; simpl.
      + split; [done|]. intros [? _]. lia.
      + split; [|by intros [_ ?]]. intros ?. split; [lia|done]. }
  split; [done|]. intros [_ ?]%Hiff. by apply Forall_nameChar_slashFree.
Qed.

Example namespace_names :
  IsValidNamespaceName "kube-system" = true
  ∧ IsValidNamespaceName "team-42" = true
  ∧ IsValidNamespaceName "-" = true
  ∧ IsValidNamespaceName "" = false
  ∧ IsValidNamespaceName "Default" = false
  ∧ IsValidNamespaceName "a/b" = false
  ∧ IsValidNamespaceName "my.ns" = false.
Proof. vm_compute. done. Qed.

Lemma flags_lookup (flags : list string) (key : string) :
  default false ((list_to_map ((λ k, (k, true)) <$> flags) : gmap string bool) !! key)
  = true ↔ key ∈ flags.
Proof.
  induction flags as [|flag flags IH]; simpl.
  - rewrite lookup_empty. simpl. split; [done|]. by intros ?%elem_of_nil.
  - rewrite elem_of_cons. destruct (decide (flag = key)) as [->|Hne].
    + rewrite lookup_insert_eq. simpl. split; [by left|done].
    + rewrite lookup_insert_ne by done. rewrite IH. split; [by right|].
      by intros [->|].
Qed.

(** The checks of [Validate] on the visual options. *)
Definition optionsOk (options : VisualOptions.t) : Prop :=
  VisualOptions.Format options ∈ ["text"; "json"; "yaml"]
  ∧ VisualOptions.GroupBy options ∈ ["namespace"; "type"; "none"]
  ∧ 1 ≤ VisualOptions.MaxDepth options.

Lemma defaults_ok :
  ∃ options, VisualOptions DefaultConfig = Some options ∧ optionsOk options.
Proof.
  eexists. split; [done|]. unfold optionsOk. simpl.
  split; [set_solver|]. split; [set_solver|lia].
Qed.

Section Checks.

Variable Stat : string → bool.

Lemma Validate_options (c : Config) (options : VisualOptions.t) :
  (KubeConfig c = "" ∨ Stat (KubeConfig c) = true) →
  (Namespace c = "" ∨ IsValidNamespaceName (Namespace c) = true) →
  VisualOptions c = Some options →
  ((Validate Stat c).1 = None ↔ optionsOk options)
  ∧ (Validate Stat c).2 = c.
Proof.
  intros Hkube Hns Hoptions. unfold Validate.
  replace (bool_decide (KubeConfig c ≠ "") && negb (Stat (KubeConfig c))) with false
    by (destruct Hkube as [->| ->]; [done|by rewrite andb_false_r]).
  replace (bool_decide (Namespace c ≠ "") && negb (IsValidNamespaceName (Namespace c)))
    with false by (destruct Hns as [->| ->]; [done|by rewrite andb_false_r]).
  rewrite Hoptions. unfold optionsOk.
  rewrite <- (flags_lookup ["text"; "json"; "yaml"]).
  rewrite <- (flags_lookup ["namespace"; "type"; "none"]).
  change (list_to_map ((λ k, (k, true)) <$> ["text"; "json"; "yaml"]))
    with validFormats.
  change (list_to_map ((λ k, (k, true)) <$> ["namespace"; "type"; "none"]))
    with validGroupings.
  split; [|destruct c; simpl in *; subst;
           by repeat (destruct (negb _) || destruct (decide _))].
  destruct (default false (validFormats !! _)); simpl;
    [|split; [done|by intros [? _]]].
  destruct (default false (validGroupings !! _)); simpl;
    [|split; [done|by intros (_ & ? & _)]].
  destruct (decide (VisualOptions.MaxDepth options < 1)); simpl.
  - split; [done|]. intros (_ & _ & ?). lia.
  - split; [|done]. intros _. repeat split; lia.
Qed.

(** X11: [Validate] returns nil exactly when the kubeconfig path is
    empty or names an existing file, the namespace is empty or a valid
    name, and the visual options, if any are set, have a known format, a
    known grouping and a depth of at least 1. A configuration without
    visual options gets those of [DefaultConfig], which pass; nothing
    else is changed. Validating the result again returns nil and changes
    nothing. *)
Theorem Validate_accepts (c : Config) :
  let run := Validate Stat c in
  (run.1 = None
   ↔ (KubeConfig c = "" ∨ Stat (KubeConfig c) = true)
     ∧ (Namespace c = "" ∨ IsValidNamespaceName (Namespace c) = true)
     ∧ ∀ options, VisualOptions c = Some options → optionsOk options)
  ∧ (run.1 = None →
     Namespace run.2 = Namespace c
     ∧ ExcludeNs run.2 = ExcludeNs c
     ∧ KubeConfig run.2 = KubeConfig c
     ∧ VisualOptions run.2
       = match VisualOptions c with
         | Some options => Some options
         | None => VisualOptions DefaultConfig
         end
     ∧ Validate Stat run.2 = (None, run.2)).
Proof.
  intros run. subst run.
  destruct (bool_decide (KubeConfig c ≠ "") && negb (Stat (KubeConfig c))) eqn:Hkube.
  { unfold Validate. rewrite Hkube. simpl. split; [|done]. split; [done|].
    intros ([Hk|Hk] & _); rewrite Hk in Hkube; [done|].
    by rewrite andb_false_r in Hkube. }
  destruct (bool_decide (Namespace c ≠ "") && negb (IsValidNamespaceName (Namespace c)))
    eqn:Hns.
  { unfold Validate. rewrite Hkube, Hns. simpl. split; [|done]. split; [done|].
    intros (_ & [Hn|Hn] & _); rewrite Hn in Hns; [done|].
    by rewrite andb_false_r in Hns. }
  assert (KubeConfig c = "" ∨ Stat (KubeConfig c) = true) as Hkube'.
  { apply andb_false_iff in Hkube as [Hk|Hk].
    - left. apply bool_decide_eq_false in Hk. by destruct (decide (KubeConfig c = "")).
    - right. by apply negb_false_iff. }
  assert (Namespace c = "" ∨ IsValidNamespaceName (Namespace c) = true) as Hns'.
  { apply andb_false_iff in Hns as [Hn|Hn].
    - left. apply bool_decide_eq_false in Hn. by destruct (decide (Namespace c = "")).
    - right. by apply negb_false_iff. }
  destruct (VisualOptions c) as [options|] eqn:Hoptions.
  - destruct (Validate_options c options Hkube' Hns' Hoptions) as [Hiff Hsame].
    split.
    + rewrite Hiff. split.
      * intros Hok. split; [done|]. split; [done|]. by intros ? [= <-].
      * intros (_ & _ & Hok). by apply Hok.
    + intros Hnone. rewrite Hsame, Hoptions. repeat split; try done.
      destruct (Validate Stat c) as [err c0]. simpl in *. by subst.
  - destruct defaults_ok as (defaults & Hdefaults & Hok).
    pose (c' := {| Namespace := Namespace c; ExcludeNs := ExcludeNs c;
                   KubeConfig := KubeConfig c; VisualOptions := Some defaults |}).
    destruct (Validate_options c' defaults Hkube' Hns' eq_refl) as [Hiff Hsame].
    assert (Validate Stat c = Validate Stat c') as Hrun.
    { unfold Validate. subst c'. cbn [KubeConfig Namespace VisualOptions ExcludeNs].
      by rewrite Hkube, Hns, Hoptions, Hdefaults. }
    rewrite Hrun. split.
    + rewrite Hiff. split; [|done]. intros _. split; [done|]. split; [done|]. done.
    + intros Hnone. rewrite Hsame. rewrite Hdefaults. repeat split; try done.
      destruct (Validate Stat c') as [err c0]. simpl in *. by subst.
Qed.

End Checks.

Example validate_fills_defaults :
  let c := {| Namespace := "team-42"; ExcludeNs := ["kube-system"];
              KubeConfig := ""; VisualOptions := None |} in
  Validate (λ _, false) c
    = (None, {| Namespace := "team-42"; ExcludeNs := ["kube-system"];
                KubeConfig := ""; VisualOptions := VisualOptions DefaultConfig |})
  ∧ (Validate (λ _, false) {| Namespace := "Team"; ExcludeNs := [];
                              KubeConfig := ""; VisualOptions := None |}).1
    = Some "invalid namespace name: Team"
  ∧ (Validate (λ _, false) {| Namespace := ""; ExcludeNs := [];
                              KubeConfig := "/no/such/file";
                              VisualOptions := None |}).1
    = Some "kubeconfig file not found: /no/such/file".
Proof. vm_compute. done. Qed.

Lemma Contains_elem_of (s : StringSliceFlag) (namespace : string) :
  mapper.Contains s namespace = true ↔ namespace ∈ s.
Proof.
  unfold mapper.Contains. rewrite existsb_exists. split.
  - intros (ns & Hin & Heq). apply bool_decide_eq_true in Heq as <-.
    by apply list_elem_of_In.
  - intros Hin. exists namespace. split; [by apply list_elem_of_In|].
    by apply bool_decide_eq_true.
Qed.

(** X12: a [StringSliceFlag] filled by successive calls of [Set]
    holds the values in the order of the calls: [String] prints them
    joined with commas, and [Contains] answers true exactly for the
    values that were set. *)
Theorem StringSliceFlag_collects (values : list string) (namespace : string) :
  let flag := foldl Set_ [] values in
  flag = values
  ∧ String_ flag = Join values ","
  ∧ (mapper.Contains flag namespace = true ↔ namespace ∈ values)
  ∧ mapper.Contains (Set_ flag namespace) namespace = true.
Proof.
  intros flag.
  assert (flag = values) as ->.
  { subst flag. rewrite <- (app_nil_l values) at 2. generalize (@nil string).
    induction values as [|value values IH]; intros s; simpl.
    - by rewrite app_nil_r.
    - rewrite IH. unfold Set_. by rewrite <- app_assoc. }
  split; [done|]. split; [done|]. split; [apply Contains_elem_of|].
  apply Contains_elem_of. unfold Set_. set_solver.
Qed.

End Configuration.

(** ** What the coordinator hands to the renderer *)

Section RenderedResources.
Import types mapper.

Lemma view_without_resources (DisableColors : bool) (now : string)
    (v : visualizer.Visualizer) :
  Resources (visualizer.resourceMapping v) = [] →
  visualizer.RenderClusterView DisableColors v now
  = visualizer.RenderClusterView DisableColors
      (visualizer.NewVisualizer {| Resources := []; Relationships := [] |}) now.
Proof.
  intros Hres.
  unfold visualizer.RenderClusterView, visualizer.renderIngressLayer,
    visualizer.renderServiceLayer, visualizer.renderWorkloadLayer,
    visualizer.renderStorageLayer, visualizer.filterResourcesByType.
  rewrite Hres. reflexivity.
Qed.

(** X13: [Process] only ever appends relationships: the resource list
    of the mapping is left as it was. A mapper made by
    [NewResourceMapper] therefore renders a view without any resource,
    whatever the cluster holds: the header and the four layer titles,
    the same text as for an empty mapping. When the namespaces cannot
    be determined nothing is printed. *)
Theorem Process_adds_no_resource (completion : string → list (M unit))
    (DisableColors : bool) (now : string) (c : client.Cluster)
    (rm : ResourceMapper) (cfg : Config) :
  Resources (mapping (Process completion DisableColors now c rm).2)
  = Resources (mapping rm)
  ∧ let run := Process completion DisableColors now c (NewResourceMapper cfg) in
    match run.1 with
    | None =>
        last (stdout run.2)
        = Some (visualizer.RenderClusterView DisableColors
                  (visualizer.NewVisualizer {| Resources := []; Relationships := [] |})
                  now)
    | Some _ => stdout run.2 = []
    end.
Proof.
  assert (∀ rm0, Resources (mapping (Process completion DisableColors now c rm0).2)
                 = Resources (mapping rm0)) as Hkeeps.
  { intros rm0. destruct (getNamespaces c rm0) as [err|namespaces] eqn:Hns.
    - unfold Process. by rewrite Hns.
    - rewrite (Process_overNamespaces _ _ _ _ _ _ Hns).
      destruct (overNamespaces_adds completion namespaces rm0) as (_ & Hres & _).
      unfold Visualize, print. simpl. exact Hres. }
  split; [apply Hkeeps|]. intros run.
  destruct (getNamespaces c (NewResourceMapper cfg)) as [err|namespaces] eqn:Hns.
  - subst run. unfold Process. by rewrite Hns.
  - subst run. rewrite (Process_overNamespaces _ _ _ _ _ _ Hns).
    destruct (overNamespaces_adds completion namespaces (NewResourceMapper cfg))
      as (_ & Hres & _).
    unfold Visualize, print. simpl. rewrite last_snoc. f_equal.
    apply view_without_resources.
    by destruct (VisualOptions (config _)) as [[? ?]|].
Qed.

(** X14: the namespaces that [getNamespaces] selects. Without a
    namespace in the configuration they are the namespaces of the
    cluster that are not on the exclusion list, in the order of the
    listing. With a namespace in the configuration the answer is that
    namespace alone, which must exist; the exclusion list is not
    consulted. *)
Theorem getNamespaces_selects (c : client.Cluster) (rm : ResourceMapper)
    (namespaces : list string) :
  getNamespaces c rm = inr namespaces →
  if decide (Namespace (config rm) = "") then
    namespaces = filter (λ ns, ns ∉ ExcludeNs (config rm)) (client.Namespaces c)
    ∧ ∀ ns, ns ∈ namespaces → ns ∉ ExcludeNs (config rm)
  else
    namespaces = [Namespace (config rm)]
    ∧ Namespace (config rm) ∈ client.Namespaces c.
Proof.
  unfold getNamespaces.
  destruct (decide (Namespace (config rm) = "")) as [Hall|Hone].
  - unfold client.ListNamespaces.
    destruct (client.Refused c "namespaces" ""); [done|].
    intros [= <-].
    assert (∀ l init,
      foldl (λ namespaces ns,
               if Contains (ExcludeNs (config rm)) ns then namespaces
               else namespaces ++ [ns]) init l
      = init ++ filter (λ ns, ns ∉ ExcludeNs (config rm)) l) as Hloop.
    { induction l as [|ns l IH]; intros init; simpl.
      - by rewrite app_nil_r.
      - rewrite IH, filter_cons.
        destruct (Contains (ExcludeNs (config rm)) ns) eqn:Hex.
        + apply Contains_elem_of in Hex. by rewrite decide_False by tauto.
        + rewrite decide_True; [by rewrite <- app_assoc|].
          intros Hin%Contains_elem_of. congruence. }
    rewrite Hloop. split; [done|]. by intros ns [? _]%list_elem_of_filter.
  - unfold client.GetNamespace.
    destruct (client.Refused c "namespaces" ""); [done|].
    destruct (list_find _ _) as [[i n]|] eqn:Hfind; [|done].
    intros [= <-]. split; [done|].
    apply list_find_Some in Hfind as (Hi & -> & _).
    by eapply list_elem_of_lookup_2.
Qed.

(** X14 with the namespace [restricted] both requested and excluded. *)
Lemma getNamespaces_selects_witness :
  let rm := NewResourceMapper {| Namespace := "restricted";
                                 ExcludeNs := ["restricted"; "kube-system"];
                                 VisualOptions := None |} in
  getNamespaces twoNamespaces rm = inr ["restricted"]
  ∧ ["restricted"] = [Namespace (config rm)]
  ∧ Namespace (config rm) ∈ client.Namespaces twoNamespaces.
Proof.
  split; [reflexivity|].
  exact (getNamespaces_selects twoNamespaces
           (NewResourceMapper {| Namespace := "restricted";
                                 ExcludeNs := ["restricted"; "kube-system"];
                                 VisualOptions := None |})
           ["restricted"] eq_refl).
Defined.

End RenderedResources.

(** ** The result of [ProcessResources] *)

Section ProcessingAccount.
Import types common.







Variable processors : list ResourceProcessor.












End ProcessingAccount.

Section ProcessingAccountExample.
Import types common.

(** The two processors of the namespace [restricted], the first of
    which cannot list its pods: run one after the other, and overtaken
    by the cancellation of the context before either has started. *)
Example account_of_restricted :
  (λ r, (Errors r, Relations r, Metrics r))
    <$> ProcessResources None (someProcessors "restricted")
          (serial (someProcessors "restricted") [0; 1]%nat)
  = Some (["processor error: failed to list pods: forbidden"], [edgeB],
          {| ResourcesProcessed := 0; RelationsDiscovered := 1; ErrorCount := 1 |})
  ∧ (λ r, (Errors r, Relations r, Metrics r))
      <$> ProcessResources (Some "context canceled") (someProcessors "restricted") []
    = Some (["processing cancelled: context canceled"], [],
            {| ResourcesProcessed := 0; RelationsDiscovered := 0; ErrorCount := 1 |}).
Proof. split; vm_compute; reflexivity. Qed.

End ProcessingAccountExample.

(** ** Ingresses in front of a service *)

Section ServiceIngresses.
Import types ServiceProcessor.

Variable c : client.Cluster.
Variable svc : Service.t.
Variable svcResource : Resource.

(** The ingress resource built in the loop of [processIngresses]. *)
Definition exposingIngress (ing : Ingress.t) : Resource :=
  {| Type_ := ResourceTypeIngress;
     Name := Ingress.Name ing;
     Namespace := Ingress.Namespace ing;
     Labels := Ingress.Labels ing;
     Data := IngressValue ing;
     Status := {| Phase := "Active"; Ready := true;
                  Details := "Hosts: " +:+ formatIngressHosts ing |} |}.

Definition exposedBy (ing : Ingress.t) : Relationship :=
  {| Source := exposingIngress ing;
     Target := svcResource;
     RelType := RelationshipTypeExposes;
     Description := "exposes via " +:+ formatIngressPaths ing (Service.Name svc) |}.

(** The listed ingresses with a path entry for the service. *)
Definition referencing (ingresses : list Ingress.t) : list Ingress.t :=
  filter (λ ing, isServiceReferencedByIngress ing (Service.Name svc) = true) ingresses.

Lemma isServiceReferencedByIngress_paths (ing : Ingress.t) (name : string) :
  isServiceReferencedByIngress ing name = true
  ↔ ∃ entry, entry ∈ pathsOf ing ∧ refersTo name entry.
Proof.
  unfold isServiceReferencedByIngress, pathsOf, refersTo.
  rewrite existsb_exists. split.
  - intros (rule & Hrule & Hpaths).
    destruct (Ingress.HTTP rule) as [paths|] eqn:Hhttp; [|done].
    apply existsb_exists in Hpaths as (path & Hpath & Href).
    destruct (Ingress.BackendService path) as [backend|] eqn:Hbackend; [|done].
    apply bool_decide_eq_true in Href.
    exists (rule, path). split.
    + apply list_elem_of_In, in_flat_map. exists rule. split; [done|].
      rewrite Hhttp. by apply in_map.
    + simpl. rewrite Hbackend. simpl. by rewrite Href.
  - intros ([rule path] & Hin & Href). simpl in Href.
    apply list_elem_of_In, in_flat_map in Hin as (rule' & Hrule & Hin).
    destruct (Ingress.HTTP rule') as [paths|] eqn:Hhttp; [|done].
    apply in_map_iff in Hin as (path' & [= <- <-] & Hpath).
    exists rule'. split; [done|]. rewrite Hhttp.
    apply existsb_exists. exists path'. split; [done|].
    destruct (Ingress.BackendService path') as [backend|]; [|done].
    simpl in Href. injection Href as ->. by apply bool_decide_eq_true.
Qed.

(** X16: [ServiceProcessor.processIngresses] fails only when the
    ingresses cannot be listed. Otherwise it adds one ingress resource
    and one [exposes] edge for each listed ingress that has a path entry
    for the service, however many such entries the ingress has; the
    default backend of an ingress is not looked at. *)
Theorem service_exposed_once_per_ingress (p : Processor) :
  let request :=
    client.ReqList "ingresses" (Service.Namespace svc) client.SelEverything in
  match client.ListIngresses c (Service.Namespace svc) with
  | inl err =>
      processIngresses c svc svcResource p
      = (Err ("failed to list ingresses: " +:+ err), extend p [] [] [request])
  | inr ingresses =>
      processIngresses c svc svcResource p
      = (Ok tt, extend p (exposingIngress <$> referencing ingresses)
                         (exposedBy <$> referencing ingresses)
                         [request])
      ∧ ∀ ing, ing ∈ referencing ingresses
               ↔ ing ∈ ingresses
                 ∧ ∃ entry, entry ∈ pathsOf ing ∧ refersTo (Service.Name svc) entry
  end.
Proof.
  intros request.
  destruct (client.ListIngresses c (Service.Namespace svc)) as [err|ingresses] eqn:Hlist.
  { unfold processIngresses, bind at 1. by rewrite call_extend, Hlist. }
  split.
  - unfold processIngresses, bind at 1. rewrite call_extend, Hlist.
    rewrite (forM_extend _
               (λ ing, if isServiceReferencedByIngress ing (Service.Name svc)
                       then [exposingIngress ing] else [])
               (λ ing, if isServiceReferencedByIngress ing (Service.Name svc)
                       then [exposedBy ing] else [])
               (λ _, [])).
    + rewrite extend_extend, flat_map_nil, app_nil_r, !app_nil_l. f_equal.
      unfold referencing.
      f_equal; clear; induction ingresses as [|ing ingresses IH]; simpl; try done;
        rewrite filter_cons, IH;
        by destruct (isServiceReferencedByIngress ing (Service.Name svc)).
    + intros ing q _.
      destruct (isServiceReferencedByIngress ing (Service.Name svc)).
      * unfold bind. rewrite addResource_extend, addRelationship_extend.
        by rewrite extend_extend.
      * by rewrite extend_nil.
  - intros ing. unfold referencing.
    by rewrite list_elem_of_filter, isServiceReferencedByIngress_paths, (comm and).
Qed.

End ServiceIngresses.

Section ServiceIngressesExample.
Import types ServiceProcessor.

(** An ingress that sends everything to [web] through its default
    backend and has no path rule. *)
Definition catchAll : Ingress.t :=
  {| Ingress.Name := "catch-all"; Ingress.Namespace := "default"; Ingress.Labels := ∅;
     Ingress.DefaultBackendService := Some webBackend;
     Ingress.Rules := [];
     Ingress.SpecTLS := []; Ingress.IngressClassName := None;
     Ingress.LoadBalancer := [] |}.

Definition frontCluster : client.Cluster :=
  {| client.Namespaces := ["default"];
     client.Pods := []; client.Services := [webService];
     client.Ingresses := [twoPaths; catchAll];
     client.Deployments := []; client.ConfigMaps := []; client.Secrets := [];
     client.IngressClasses := [];
     client.Refused := λ _ _, None |}.

Example ingresses_in_front_of_web :
  let run := processIngresses frontCluster webService (serviceResource webService)
               newProcessor in
  run.1 = Ok tt
  ∧ (λ rel, (Name (Source rel), Description rel)) <$> relations run.2
    = [("web-ing", "exposes via app.example.com/a, app.example.com/b")].
Proof. vm_compute. done. Qed.

End ServiceIngressesExample.

(** ** ConfigMaps of a deployment *)

Section DeploymentConfigMaps.
Import types DeploymentProcessor.

(** A loop that records the names found in a slice. *)
Lemma names_loop {X} (nameOf : X → option string) (l : list X)
    (m : gmap string bool) (name : string) :
  foldl (λ m x, match nameOf x with
                | Some n => <[n := true]> m
                | None => m
                end) m l !! name
  = if existsb (λ x, bool_decide (nameOf x = Some name)) l then Some true
    else m !! name.
Proof.
  revert m. induction l as [|x l IH]; intros m; simpl; [done|].
  rewrite IH. destruct (existsb _ l); [by rewrite orb_true_r|].
  rewrite orb_false_r. destruct (nameOf x) as [n|].
  - destruct (decide (n = name)) as [->|Hne].
    + rewrite bool_decide_eq_true_2 by done. by rewrite lookup_insert_eq.
    + rewrite bool_decide_eq_false_2 by congruence. by rewrite lookup_insert_ne.
  - by rewrite bool_decide_eq_false_2.
Qed.

(** The pod template refers to the ConfigMap called [name] in one of
    the three ways. *)
Definition refersToConfigMap (deploy : Deployment.t) (name : string) : bool :=
  viaVolume (Deployment.Template deploy) name
  || viaEnvFrom (Deployment.Template deploy) name
  || viaEnv (Deployment.Template deploy) name.

Lemma containers_loop (containers : list PodSpec.Container)
    (m : gmap string bool) (name : string) :
  foldl (λ configMaps container,
           foldl (λ configMaps env,
                    match PodSpec.ConfigMapKeyRef env with
                    | Some n => <[n := true]> configMaps
                    | None => configMaps
                    end)
                 (foldl (λ configMaps envFrom,
                           match PodSpec.ConfigMapRef envFrom with
                           | Some n => <[n := true]> configMaps
                           | None => configMaps
                           end)
                        configMaps (PodSpec.EnvFrom container))
                 (PodSpec.Env container))
        m containers !! name
  = if existsb (λ container,
                  existsb (λ envFrom,
                             bool_decide (PodSpec.ConfigMapRef envFrom = Some name))
                          (PodSpec.EnvFrom container)) containers
       || existsb (λ container,
                     existsb (λ env,
                                bool_decide (PodSpec.ConfigMapKeyRef env = Some name))
                             (PodSpec.Env container)) containers
    then Some true else m !! name.
Proof.
  revert m. induction containers as [|container l IH]; intros m; simpl; [done|].
  rewrite IH, !names_loop.
  destruct (existsb _ (PodSpec.EnvFrom container)),
           (existsb _ (PodSpec.Env container)); simpl;
    by repeat (destruct (existsb _ l); simpl).
Qed.

Lemma referencedConfigMaps_lookup (deploy : Deployment.t) (name : string) :
  referencedConfigMaps deploy !! name
  = if refersToConfigMap deploy name then Some true else None.
Proof.
  unfold referencedConfigMaps, refersToConfigMap, viaVolume, viaEnvFrom, viaEnv.
  rewrite containers_loop, names_loop, lookup_empty.
  destruct (existsb _ (PodSpec.Volumes _)); simpl;
    by repeat (destruct (existsb _ (PodSpec.Containers _)); simpl).
Qed.

Variable c : client.Cluster.
Variable deploy : Deployment.t.
Variable deployResource : Resource.

(** The ConfigMap of the deployment's namespace called [name], when it
    can be fetched. *)
Definition fetched (name : string) : option ConfigMap.t :=
  match client.GetConfigMap c (Deployment.Namespace deploy) name with
  | inr cm => Some cm
  | inl _ => None
  end.

(** The edge recorded for the name of a ConfigMap. *)
Definition usesConfig (name : string) : list Relationship :=
  match fetched name with
  | Some cm =>
      [ {| Source := deployResource;
           Target := configMapResource cm;
           RelType := RelationshipTypeUses;
           Description := "uses config" |} ]
  | None => []
  end.

Lemma GetConfigMap_name (ns name : string) (cm : ConfigMap.t) :
  client.GetConfigMap c ns name = inr cm → ConfigMap.Name cm = name.
Proof.
  unfold client.GetConfigMap. destruct (client.Refused c "configmaps" ns); [done|].
  destruct (list_find _ _) as [[i m]|] eqn:Hfind; [|done].
  intros [= <-]. by apply list_find_Some in Hfind as (_ & [_ ?] & _).
Qed.

Lemma usesConfig_target (name : string) (rel : Relationship) :
  rel ∈ usesConfig name → Name (Target rel) = name.
Proof.
  unfold usesConfig, fetched.
  destruct (client.GetConfigMap c _ name) as [err|cm] eqn:Hget;
    [by intros ?%elem_of_nil|].
  intros ->%list_elem_of_singleton. simpl. by eapply GetConfigMap_name.
Qed.

Lemma processConfigMapNames_adds (cmNames : list string) (p : Processor) :
  ∃ rs reqs,
    processConfigMapNames cmNames c deploy deployResource p
    = (Ok tt, extend p rs (flat_map usesConfig cmNames) reqs).
Proof.
  eexists _, _. unfold processConfigMapNames.
  apply (forM_extend _
           (λ name, match fetched name with
                    | Some cm => [configMapResource cm]
                    | None => []
                    end)
           usesConfig
           (λ name, [client.ReqGet "configmaps" (Deployment.Namespace deploy) name])).
  intros name q _. unfold bind at 1. rewrite call_extend.
  unfold usesConfig, fetched.
  destruct (client.GetConfigMap c (Deployment.Namespace deploy) name) as [err|cm].
  - done.
  - unfold bind. rewrite addResource_extend, addRelationship_extend.
    by rewrite !extend_extend.
Qed.

(** The edges of [usesConfig] that reach the ConfigMap called [name]. *)
Definition edgesToConfigMap (name : string) (cmNames : list string)
    : list Relationship :=
  filter (λ rel, Name (Target rel) = name) (flat_map usesConfig cmNames).

Lemma filter_all {A} (P : A → Prop) `{!∀ x, Decision (P x)} (l : list A) :
  (∀ x, x ∈ l → P x) → filter P l = l.
Proof.
  induction l as [|x l IH]; intros HP; [done|].
  rewrite filter_cons, decide_True by (apply HP; left).
  f_equal. apply IH. intros y Hy. apply HP. by right.
Qed.

Lemma edgesToConfigMap_absent (name : string) (cmNames : list string) :
  name ∉ cmNames → edgesToConfigMap name cmNames = [].
Proof.
  intros Hnot. unfold edgesToConfigMap. apply filter_none.
  intros rel Hin Hname.
  apply list_elem_of_In, in_flat_map in Hin as (n & Hn & Hrel).
  apply list_elem_of_In in Hn, Hrel. apply usesConfig_target in Hrel.
  congruence.
Qed.

Lemma edgesToConfigMap_once (name : string) (cmNames : list string) :
  NoDup cmNames → name ∈ cmNames →
  edgesToConfigMap name cmNames = usesConfig name.
Proof.
  induction cmNames as [|n l IH]; intros Hnodup Hin; [by apply elem_of_nil in Hin|].
  apply NoDup_cons in Hnodup as [Hfresh Hnodup].
  unfold edgesToConfigMap in *. simpl. rewrite filter_app.
  destruct (decide (n = name)) as [->|Hne].
  - fold (edgesToConfigMap name l). rewrite edgesToConfigMap_absent by done.
    rewrite app_nil_r. apply filter_all. apply usesConfig_target.
  - apply elem_of_cons in Hin as [->|Hin]; [done|].
    rewrite IH by done. rewrite (filter_none _ (usesConfig n)); [done|].
    intros rel Hrel Hname. apply usesConfig_target in Hrel. congruence.
Qed.

(** X17: [DeploymentProcessor.processConfigMaps] never returns an
    error. The names it walks are those of the ConfigMaps that the pod
    template refers to through a volume, an [envFrom] or an [env]
    entry, each once, in whatever order the map yields them; they are
    the names for which the ConfigMap processor finds a usage. For each
    of them that can be fetched it records one [uses] edge with the
    description ["uses config"], and none for a name that cannot; so a
    ConfigMap gets one edge from the deployment if it is referred to and
    can be fetched, and none otherwise. *)
Theorem deployment_uses_config_once (cmNames : list string) (p : Processor) :
  cmNames ≡ₚ (map_to_list (referencedConfigMaps deploy)).*1 →
  let run := processConfigMapNames cmNames c deploy deployResource p in
  run.1 = Ok tt
  ∧ relations run.2 = relations p ++ flat_map usesConfig cmNames
  ∧ NoDup cmNames
  ∧ (∀ name, name ∈ cmNames ↔ refersToConfigMap deploy name = true)
  ∧ (∀ name, name ∈ cmNames
             ↔ ConfigMapProcessor.findConfigMapUsageInPodTemplate
                 (Deployment.Template deploy) name ≠ [])
  ∧ (∀ name, edgesToConfigMap name cmNames
             = if refersToConfigMap deploy name then usesConfig name else [])
  ∧ (∀ name, fetched name = None → usesConfig name = []).
Proof.
  intros Hperm run.
  destruct (processConfigMapNames_adds cmNames p) as (rs & reqs & Hrun).
  subst run. rewrite Hrun. simpl.
  assert (NoDup cmNames) as Hnodup.
  { rewrite Hperm. apply NoDup_fst_map_to_list. }
  assert (∀ name, name ∈ cmNames ↔ refersToConfigMap deploy name = true) as Hnames.
  { intros name. rewrite Hperm, list_elem_of_fmap. split.
    - intros ([n b] & -> & Hin). apply elem_of_map_to_list in Hin. simpl.
      rewrite referencedConfigMaps_lookup in Hin.
      by destruct (refersToConfigMap deploy n).
    - intros Href. exists (name, true). split; [done|].
      apply elem_of_map_to_list. by rewrite referencedConfigMaps_lookup, Href. }
  split; [done|]. split; [done|]. split; [done|]. split; [done|].
  split; [|split].
  - intros name. rewrite Hnames, findConfigMapUsageInPodTemplate_sorted.
    unfold refersToConfigMap.
    destruct (viaVolume _ name), (viaEnvFrom _ name), (viaEnv _ name); simpl;
      split; done.
  - intros name. destruct (refersToConfigMap deploy name) eqn:Href.
    + apply edgesToConfigMap_once; [done|]. by apply Hnames.
    + apply edgesToConfigMap_absent. rewrite Hnames. congruence.
  - intros name Hnone. unfold usesConfig. by rewrite Hnone.
Qed.

End DeploymentConfigMaps.

Section DeploymentConfigMapsExample.
Import types DeploymentProcessor.

(** X17 at the deployment [web] and the order in which the map yields
    the names. *)
Lemma deployment_uses_config_once_witness :
  let cmNames := (map_to_list (referencedConfigMaps webDeployment)).*1 in
  let run := processConfigMaps smallCluster webDeployment
               (deploymentResource webDeployment) newProcessor in
  cmNames ≡ₚ (map_to_list (referencedConfigMaps webDeployment)).*1
  ∧ run.1 = Ok tt
  ∧ relations run.2
    = relations newProcessor ++
      flat_map (usesConfig smallCluster webDeployment (deploymentResource webDeployment))
               cmNames.
Proof.
  split; [reflexivity|].
  destruct (deployment_uses_config_once smallCluster webDeployment
              (deploymentResource webDeployment)
              (map_to_list (referencedConfigMaps webDeployment)).*1 newProcessor
              (reflexivity _))
    as (Hok & Hrels & _).
  split; [exact Hok|exact Hrels].
Defined.

Example web_uses_app_config :
  let run := processConfigMaps smallCluster webDeployment
               (deploymentResource webDeployment) newProcessor in
  (λ rel, (Name (Source rel), Name (Target rel), Description rel)) <$> relations run.2
  = [("web", "app-config", "uses config")].
Proof. vm_compute. done. Qed.

End DeploymentConfigMapsExample.

(** ** One ingress, from end to end *)

Section WholeIngress.
Import types IngressProcessor.

Variable ResourceTypeIngressClass : ResourceType.
Variable c : client.Cluster.
Variable ing : Ingress.t.

Lemma processTLSSecrets_adds (ingResource : Resource) (p : Processor) :
  processTLSSecrets c ing ingResource p
  = (Ok tt,
     extend p (flat_map (tlsResources c ing) (Ingress.SpecTLS ing))
              (flat_map (tlsEdges c ing ingResource) (Ingress.SpecTLS ing))
              (flat_map (tlsRequests ing) (Ingress.SpecTLS ing))).
Proof.
  unfold processTLSSecrets. apply forM_extend. intros tls q _.
  unfold tlsResources, tlsEdges, tlsSecret, tlsRequests.
  destruct (decide (Ingress.SecretName tls = "")) as [Hempty|Hname].
  - by rewrite extend_nil.
  - unfold bind at 1. rewrite call_extend.
    destruct (client.GetSecret c (Ingress.Namespace ing) (Ingress.SecretName tls))
      as [err|secret].
    + done.
    + unfold bind. rewrite addResource_extend, addRelationship_extend.
      by rewrite !extend_extend.
Qed.

(** The IngressClass that the ingress names, when it can be fetched. *)
Definition ingressClass : option IngressClass.t :=
  match Ingress.IngressClassName ing with
  | Some name =>
      match client.GetIngressClass c name with
      | inr class => Some class
      | inl _ => None
      end
  | None => None
  end.

Definition classResource (class : IngressClass.t) : Resource :=
  {| Type_ := ResourceTypeIngressClass;
     Name := IngressClass.Name class;
     Namespace := "";
     Labels := IngressClass.Labels class;
     Data := IngressClassPtr class;
     Status := {| Phase := "Active"; Ready := true;
                  Details := "Controller: " +:+ IngressClass.Controller class |} |}.

Definition classResources : list Resource :=
  match ingressClass with
  | Some class => [classResource class]
  | None => []
  end.

Definition classEdges : list Relationship :=
  match ingressClass with
  | Some class =>
      [ {| Source := ingressResource ing;
           Target := classResource class;
           RelType := RelationshipTypeUses;
           Description := "uses ingress class" |} ]
  | None => []
  end.

Lemma processIngressClass_adds (p : Processor) :
  ∃ reqs,
    processIngressClass ResourceTypeIngressClass c ing (ingressResource ing) p
    = (Ok tt, extend p classResources classEdges reqs).
Proof.
  unfold processIngressClass, classResources, classEdges, ingressClass.
  destruct (Ingress.IngressClassName ing) as [name|].
  - eexists. unfold bind at 1. rewrite call_extend.
    destruct (client.GetIngressClass c name) as [err|class].
    + reflexivity.
    + unfold bind. rewrite addResource_extend, addRelationship_extend.
      by rewrite !extend_extend.
  - exists []. by rewrite extend_nil.
Qed.

(** X18: [processIngress] never returns an error. It adds the ingress
    resource first, then, in this order, what the TLS entries, the
    backend services and the ingress class add. Every relationship it
    records starts at the ingress resource, and every resource after
    the first comes with exactly one relationship that reaches it. *)
Theorem processIngress_never_fails (p : Processor) :
  let run := processIngress ResourceTypeIngressClass c ing p in
  let ingResource := ingressResource ing in
  let added :=
    flat_map (tlsResources c ing) (Ingress.SpecTLS ing) ++
    flat_map (refResources c ing) (firstRefs ∅ (backendRefs ing)) ++
    classResources in
  let edges :=
    flat_map (tlsEdges c ing ingResource) (Ingress.SpecTLS ing) ++
    flat_map (refEdges c ing ingResource) (firstRefs ∅ (backendRefs ing)) ++
    classEdges in
  run.1 = Ok tt
  ∧ resources run.2 = resources p ++ ingResource :: added
  ∧ relations run.2 = relations p ++ edges
  ∧ Forall (λ rel, Source rel = ingResource) edges
  ∧ Target <$> edges = added.
Proof.
  intros run ingResource added edges. subst run.
  unfold processIngress. fold ingResource.
  destruct (processIngressClass_adds
              (extend (extend (extend p [ingResource] [] [])
                         (flat_map (tlsResources c ing) (Ingress.SpecTLS ing))
                         (flat_map (tlsEdges c ing ingResource) (Ingress.SpecTLS ing))
                         (flat_map (tlsRequests ing) (Ingress.SpecTLS ing)))
                 (flat_map (refResources c ing) (firstRefs ∅ (backendRefs ing)))
                 (flat_map (refEdges c ing ingResource) (firstRefs ∅ (backendRefs ing)))
                 (map (refRequest ing) (firstRefs ∅ (backendRefs ing)))))
    as [reqs Hclass].
  unfold bind. rewrite addResource_extend, processTLSSecrets_adds,
    processBackendServices_adds. fold ingResource in Hclass. rewrite Hclass.
  clear Hclass. simpl. split; [done|]. split; [by rewrite <- !app_assoc|].
  split; [by rewrite <- !app_assoc|]. split.
  - subst edges. rewrite !Forall_app. split; [|split].
    + apply Forall_forall. intros rel Hin.
      apply list_elem_of_In, in_flat_map in Hin as (tls & _ & Hin).
      unfold tlsEdges in Hin. destruct (tlsSecret c ing tls); [|done].
      by destruct Hin as [<-|[]].
    + apply Forall_forall. intros rel Hin.
      apply list_elem_of_In, in_flat_map in Hin as (ref & _ & Hin).
      unfold refEdges in Hin. destruct (refService c ing ref); [|done].
      by destruct Hin as [<-|[]].
    + unfold classEdges. destruct ingressClass; by repeat constructor.
  - subst edges added. rewrite !fmap_app. f_equal; [|f_equal].
    + induction (Ingress.SpecTLS ing) as [|tls l IH]; simpl; [done|].
      rewrite fmap_app, IH. f_equal.
      unfold tlsEdges, tlsResources. by destruct (tlsSecret c ing tls).
    + induction (firstRefs ∅ (backendRefs ing)) as [|ref l IH]; simpl; [done|].
      rewrite fmap_app, IH. f_equal.
      unfold refEdges, refResources. by destruct (refService c ing ref).
    + unfold classEdges, classResources. by destruct ingressClass.
Qed.

End WholeIngress.

(** ** A run of the older service processor *)

Section LegacyServiceRun.
Import types.

#[local] Existing Instance refersTo_dec.

Variable c : client.Cluster.
Variable namespace : string.

Lemma legacy_exposeIngress_cases (svc : Service.t) (ing : Ingress.t) (p : Processor) :
  legacy.exposeIngress svc p ing
  = if decide (serviceBackends ing)
    then Some (extend p [] (map (legacyExposesEdge svc ing)
                              (filter (refersTo (Service.Name svc)) (pathsOf ing)))
                      [])
    else None.
Proof.
  destruct (decide (serviceBackends ing)) as [Hall|Hnot].
  - by apply legacy_exposes_per_path.
  - unfold legacy.exposeIngress. unfold serviceBackends, pathsOf in Hnot.
    revert p. induction (Ingress.Rules ing) as [|rule rules IH]; intros p.
    + destruct Hnot. constructor.
    + simpl in Hnot. rewrite Forall_app in Hnot. simpl.
      destruct (Ingress.HTTP rule) as [paths|].
      * destruct (decide (Forall (λ path, is_Some (Ingress.BackendService path)) paths))
          as [Hpaths|Hpaths].
        -- rewrite legacy_paths_of_a_rule by done. apply IH.
           intros Hrest. apply Hnot. split; [|done]. by rewrite Forall_fmap.
        -- clear IH Hnot.
           assert (legacy.foldP (legacy.exposePath svc ing rule) p paths = None) as ->;
             [|done].
           revert p. induction paths as [|path paths IHp]; intros p.
           ++ destruct Hpaths. constructor.
           ++ simpl. unfold legacy.exposePath at 1.
              destruct (Ingress.BackendService path) as [backend|] eqn:Hb; [|done].
              assert (¬ Forall (λ path, is_Some (Ingress.BackendService path)) paths)
                as Hrest.
              { intros Hrest. apply Hpaths. constructor; [by rewrite Hb|done]. }
              destruct (decide _); by apply IHp.
      * apply IH. intros Hrest. apply Hnot. split; [constructor|done].
Qed.

(** The pods that the loop body lists for a service; a service without
    selector has none. *)
Definition selectedPods (svc : Service.t) : error + list Pod.t :=
  match Service.Selector svc with
  | Some matchLabels =>
      client.ListPods c namespace (client.FormatLabelSelector matchLabels)
  | None => inr []
  end.

Definition targetsOf (svc : Service.t) (pods : list Pod.t) : list Relationship :=
  match Service.Ports svc with
  | port0 :: _ =>
      map (λ pod,
             {| Source := legacy.serviceResource svc;
                Target := legacy.podResource pod;
                RelType := RelationshipTypeTargets;
                Description := "exposes port " +:+ fmt_d (ServicePort.Port port0) |})
          pods
  | [] => []
  end.

Definition exposesOf (svc : Service.t) (ingresses : list Ingress.t)
    : list Relationship :=
  flat_map (λ ing, map (legacyExposesEdge svc ing)
                     (filter (refersTo (Service.Name svc)) (pathsOf ing)))
           ingresses.

(** The edges of one service: nothing when its pods cannot be listed,
    since the loop body then stops at [continue]. *)
Definition edgesOf (svc : Service.t) : list Relationship :=
  match selectedPods svc with
  | inl _ => []
  | inr pods =>
      targetsOf svc pods ++
      match client.ListIngresses c namespace with
      | inl _ => []
      | inr ingresses => exposesOf svc ingresses
      end
  end.

(** The loop body gets through the service without a panic. *)
Definition survives (svc : Service.t) : Prop :=
  match selectedPods svc with
  | inl _ => True
  | inr pods =>
      (pods = [] ∨ Service.Ports svc ≠ [])
      ∧ match client.ListIngresses c namespace with
        | inl _ => True
        | inr ingresses => Forall serviceBackends ingresses
        end
  end.

#[local] Instance survives_dec (svc : Service.t) : Decision (survives svc).
Proof.
  unfold survives. destruct (selectedPods svc); [apply _|].
  destruct (client.ListIngresses c namespace); apply _.
Defined.

Definition ingressesRequest : client.Request :=
  client.ReqList "ingresses" namespace client.SelEverything.

(** The requests of one pass through the loop body. *)
Definition requestsOf (svc : Service.t) : list client.Request :=
  match Service.Selector svc with
  | Some matchLabels =>
      client.ReqList "pods" namespace (client.FormatLabelSelector matchLabels) ::
      match client.ListPods c namespace (client.FormatLabelSelector matchLabels) with
      | inl _ => []
      | inr _ => [ingressesRequest]
      end
  | None => [ingressesRequest]
  end.

Lemma relatedIngresses_cases (svc : Service.t) (p : Processor) :
  legacy.relatedIngresses c namespace svc p
  = match client.ListIngresses c namespace with
    | inl _ => Some (extend p [] [] [ingressesRequest])
    | inr ingresses =>
        if decide (Forall serviceBackends ingresses)
        then Some (extend p [] (exposesOf svc ingresses) [ingressesRequest])
        else None
    end.
Proof.
  unfold legacy.relatedIngresses.
  destruct (client.ListIngresses c namespace) as [err|ingresses].
  - unfold legacy.logRequest, extend. simpl. by rewrite !app_nil_r.
  - rewrite (foldP_extend _ serviceBackends (λ _, [])
               (λ ing, map (legacyExposesEdge svc ing)
                         (filter (refersTo (Service.Name svc)) (pathsOf ing)))
               (λ _, [])).
    + destruct (decide _); [|done]. rewrite !flat_map_nil.
      unfold legacy.logRequest, extend, exposesOf. simpl. by rewrite !app_nil_r.
    + intros q ing Hing. rewrite legacy_exposeIngress_cases. by rewrite decide_True.
    + intros q ing Hing. rewrite legacy_exposeIngress_cases. by rewrite decide_False.
Qed.

Ltac same_processor :=
  unfold legacy.logRequest, legacy.appendResource, extend, targetsOf; simpl;
  rewrite ?app_nil_r, <- ?app_assoc; reflexivity.

Lemma legacy_processOne_cases (svc : Service.t) (p : Processor) :
  legacy.processOne c namespace p svc
  = if decide (survives svc)
    then Some (extend p [legacy.serviceResource svc] (edgesOf svc) (requestsOf svc))
    else None.
Proof.
  unfold legacy.processOne, survives_dec, survives, edgesOf, requestsOf, selectedPods,
    targetsOf.
  destruct (Service.Selector svc) as [matchLabels|].
  - destruct (client.ListPods c namespace (client.FormatLabelSelector matchLabels))
      as [err|pods].
    + same_processor.
    + rewrite legacy_targets_per_pod.
      destruct (Service.Ports svc) as [|port0 ports],
               pods as [|pod pods].
      * rewrite relatedIngresses_cases.
        destruct (client.ListIngresses c namespace) as [err|ingresses].
        -- rewrite decide_True by (split; [by left|done]). same_processor.
        -- destruct (decide (Forall serviceBackends ingresses)).
           ++ rewrite decide_True by (split; [by left|done]).
              same_processor.
           ++ rewrite decide_False; [done|]. by intros [_ ?].
      * rewrite decide_False; [done|]. by intros [[|] _].
      * rewrite relatedIngresses_cases.
        destruct (client.ListIngresses c namespace) as [err|ingresses].
        -- rewrite decide_True by (split; [by left|done]). same_processor.
        -- destruct (decide (Forall serviceBackends ingresses)).
           ++ rewrite decide_True by (split; [by left|done]).
              same_processor.
           ++ rewrite decide_False; [done|]. by intros [_ ?].
      * rewrite relatedIngresses_cases.
        destruct (client.ListIngresses c namespace) as [err|ingresses].
        -- rewrite decide_True by (split; [by right|done]).
           same_processor.
        -- destruct (decide (Forall serviceBackends ingresses)).
           ++ rewrite decide_True by (split; [by right|done]).
              same_processor.
           ++ rewrite decide_False; [done|]. by intros [_ ?].
  - rewrite relatedIngresses_cases.
    destruct (client.ListIngresses c namespace) as [err|ingresses].
    + rewrite decide_True by (split; [by left|done]).
      destruct (Service.Ports svc); same_processor.
    + destruct (decide (Forall serviceBackends ingresses)).
      * rewrite decide_True by (split; [by left|done]).
        destruct (Service.Ports svc); same_processor.
      * rewrite decide_False; [done|]. by intros [_ ?].
Qed.

(** X19: the older [ServiceProcessor.Process] returns an error only
    when the services cannot be listed. Otherwise it panics exactly when
    some listed service does not get through the loop body: its pods
    are listed, and either there is a pod while the service declares no
    port, or the ingresses are listed and one of them has a path entry
    without a service backend. When no service panics, the run returns
    nil, adds one resource per service and, per service, its [targets]
    edges followed by its [exposes] edges; a service whose pods cannot
    be listed gets no edge at all, not even from the ingresses. *)
Theorem legacy_service_run (p : Processor) :
  match client.ListServices c namespace with
  | inl err =>
      ∃ p', legacy.Process c namespace p
            = Some (Some ("failed to list services: " +:+ err), p')
            ∧ resources p' = resources p ∧ relations p' = relations p
  | inr services =>
      if decide (Forall survives services) then
        ∃ p', legacy.Process c namespace p = Some (None, p')
              ∧ resources p' = resources p ++ map legacy.serviceResource services
              ∧ relations p' = relations p ++ flat_map edgesOf services
      else legacy.Process c namespace p = None
  end.
Proof.
  unfold legacy.Process.
  destruct (client.ListServices c namespace) as [err|services].
  - eexists. by repeat split.
  - rewrite (foldP_extend _ survives (λ svc, [legacy.serviceResource svc])
               edgesOf requestsOf).
    + destruct (decide (Forall survives services)); [|done].
      eexists. split; [done|]. simpl. split; [|done]. by f_equal.
    + intros q svc Hsvc. rewrite legacy_processOne_cases. by rewrite decide_True.
    + intros q svc Hsvc. rewrite legacy_processOne_cases. by rewrite decide_False.
Qed.

End LegacyServiceRun.

Section LegacyServiceRunExample.
Import types.

(** A service that selects the pods of [app=web] and declares no
    port. *)
Definition portless : Service.t :=
  {| Service.Name := "web"; Service.Namespace := "default"; Service.Labels := ∅;
     Service.Selector := Some {["app" := "web"]};
     Service.Ports := [];
     Service.Type_ := "ClusterIP"; Service.ClusterIP := "10.0.0.2";
     Service.LoadBalancer := [] |}.

Definition portlessCluster (pods : list Pod.t) : client.Cluster :=
  {| client.Namespaces := ["default"];
     client.Pods := pods; client.Services := [portless];
     client.Ingresses := [];
     client.Deployments := []; client.ConfigMaps := []; client.Secrets := [];
     client.IngressClasses := [];
     client.Refused := λ _ _, None |}.

Example portless_service_with_and_without_pods :
  legacy.Process (portlessCluster [podNamed "web-1" "default" {["app" := "web"]}])
                 "default" newProcessor
    = None
  ∧ (∃ p, legacy.Process (portlessCluster []) "default" newProcessor = Some (None, p))
  ∧ legacy.Process bucketCluster "default" newProcessor = None.
Proof. split; [|split]; [vm_compute; reflexivity|eexists; vm_compute; reflexivity|vm_compute; reflexivity]. Qed.

End LegacyServiceRunExample.

(** ** A run of the older ConfigMap processor *)

Section LegacyConfigMapRun.
Import types legacyConfigMap.

Variable keysOf : gmap string bool → list string.
Variable c : client.Cluster.
Variable namespace : string.

(** The pod spec refers to the ConfigMap in one of the three ways. *)
Definition refersToConfig (spec : PodSpec.t) (name : string) : bool :=
  viaVolume spec name || viaEnvFrom spec name || viaEnv spec name.

Lemma findConfigMapUsage_uses (spec : PodSpec.t) (name : string) :
  (findConfigMapUsage keysOf spec name).1 = refersToConfig spec name.
Proof.
  unfold findConfigMapUsage, refersToConfig. rewrite usageTypesOf_marks.
  destruct (viaVolume spec name), (viaEnvFrom spec name), (viaEnv spec name);
    reflexivity.
Qed.

Definition podEdges (cm : ConfigMap.t) (pod : Pod.t) : list Relationship :=
  if refersToConfig (Pod.Spec pod) (ConfigMap.Name cm) then
    [ {| Source := legacy.podResource pod;
         Target := configMapResource cm;
         RelType := RelationshipTypeUses;
         Description :=
           "uses as " +:+
           (findConfigMapUsage keysOf (Pod.Spec pod) (ConfigMap.Name cm)).2 |} ]
  else [].

Definition deploymentEdges (cm : ConfigMap.t) (deploy : Deployment.t)
    : list Relationship :=
  if refersToConfig (Deployment.Template deploy) (ConfigMap.Name cm) then
    [ {| Source := deploymentResource deploy;
         Target := configMapResource cm;
         RelType := RelationshipTypeUses;
         Description :=
           "uses as " +:+
           (findConfigMapUsage keysOf (Deployment.Template deploy)
              (ConfigMap.Name cm)).2 |} ]
  else [].

(** The edges of one ConfigMap: none when the pods cannot be listed,
    and those of the pods only when the deployments cannot. *)
Definition usageEdges (cm : ConfigMap.t) : list Relationship :=
  match client.ListPods c namespace client.SelEverything with
  | inl _ => []
  | inr pods =>
      flat_map (podEdges cm) pods ++
      match client.ListDeployments c namespace with
      | inl _ => []
      | inr deployments => flat_map (deploymentEdges cm) deployments
      end
  end.

Definition usageRequests : list client.Request :=
  client.ReqList "pods" namespace client.SelEverything ::
  match client.ListPods c namespace client.SelEverything with
  | inl _ => []
  | inr _ => [client.ReqList "deployments" namespace client.SelEverything]
  end.

Lemma podUsage_loop (cm : ConfigMap.t) (pods : list Pod.t) (p : Processor) :
  foldl (podUsage keysOf cm) p pods = extend p [] (flat_map (podEdges cm) pods) [].
Proof.
  revert p. induction pods as [|pod pods IH]; intros p; simpl.
  - by rewrite extend_nil.
  - rewrite IH. unfold podUsage, podEdges.
    rewrite <- findConfigMapUsage_uses.
    destruct (findConfigMapUsage keysOf (Pod.Spec pod) (ConfigMap.Name cm))
      as [[] usageTypes]; simpl.
    + unfold legacy.appendRelation, extend. simpl.
      by rewrite !app_nil_r, <- app_assoc.
    + done.
Qed.

Lemma deploymentUsage_loop (cm : ConfigMap.t) (deployments : list Deployment.t)
    (p : Processor) :
  foldl (deploymentUsage keysOf cm) p deployments
  = extend p [] (flat_map (deploymentEdges cm) deployments) [].
Proof.
  revert p. induction deployments as [|deploy deployments IH]; intros p; simpl.
  - by rewrite extend_nil.
  - rewrite IH. unfold deploymentUsage, deploymentEdges.
    rewrite <- findConfigMapUsage_uses.
    destruct (findConfigMapUsage keysOf (Deployment.Template deploy) (ConfigMap.Name cm))
      as [[] usageTypes]; simpl.
    + unfold legacy.appendRelation, extend. simpl.
      by rewrite !app_nil_r, <- app_assoc.
    + done.
Qed.

Lemma processOne_adds (cm : ConfigMap.t) (p : Processor) :
  processOne keysOf c namespace p cm
  = extend p [configMapResource cm] (usageEdges cm) usageRequests.
Proof.
  unfold processOne, usageEdges, usageRequests.
  destruct (client.ListPods c namespace client.SelEverything) as [err|pods].
  - unfold legacy.logRequest, legacy.appendResource, extend. simpl.
    by rewrite !app_nil_r.
  - rewrite podUsage_loop.
    destruct (client.ListDeployments c namespace) as [err|deployments].
    + unfold legacy.logRequest, legacy.appendResource, extend. simpl.
      by rewrite !app_nil_r, <- ?app_assoc.
    + rewrite deploymentUsage_loop.
      unfold legacy.logRequest, legacy.appendResource, extend. simpl.
      by rewrite !app_nil_r, <- ?app_assoc.
Qed.

(** X20: the older [ConfigMapProcessor.Process] returns an error only
    when the ConfigMaps cannot be listed, and then adds nothing.
    Otherwise it adds one resource per ConfigMap and, per ConfigMap, one
    [uses] edge for each pod and then each deployment whose spec refers
    to it through a volume, an [envFrom] or an [env] entry. Pods and
    deployments are never added as resources. When the pods cannot be
    listed no edge is recorded at all, the deployments are not even
    asked for, and the run still returns nil. *)
Theorem legacy_configmap_run (p : Processor) :
  let run := Process keysOf c namespace p in
  match client.ListConfigMaps c namespace with
  | inl err =>
      run.1 = Some ("failed to list configmaps: " +:+ err)
      ∧ resources run.2 = resources p ∧ relations run.2 = relations p
  | inr configmaps =>
      run.1 = None
      ∧ resources run.2 = resources p ++ map configMapResource configmaps
      ∧ relations run.2 = relations p ++ flat_map usageEdges configmaps
      ∧ (∀ err, client.ListPods c namespace client.SelEverything = inl err →
           relations run.2 = relations p
           ∧ client.ReqList "deployments" namespace client.SelEverything
             ∉ drop (length (requests p)) (requests run.2))
  end.
Proof.
  intros run. subst run. unfold Process.
  destruct (client.ListConfigMaps c namespace) as [err|configmaps]; [done|].
  simpl.
  assert (∀ q, foldl (processOne keysOf c namespace) q configmaps
               = extend q (map configMapResource configmaps)
                   (flat_map usageEdges configmaps)
                   (flat_map (λ _, usageRequests) configmaps)) as Hloop.
  { induction configmaps as [|cm l IH]; intros q; simpl.
    - by rewrite extend_nil.
    - rewrite IH, processOne_adds. by rewrite extend_extend. }
  rewrite Hloop. simpl. split; [done|]. split; [done|]. split; [done|].
  intros err Hpods. unfold usageEdges, usageRequests. rewrite Hpods. split.
  - rewrite flat_map_nil. by rewrite app_nil_r.
  - rewrite <- app_assoc, drop_app_length.
    intros Hin. apply elem_of_cons in Hin as [[=]|Hin].
    apply list_elem_of_In, in_flat_map in Hin as (cm & _ & Hin).
    by destruct Hin as [[=]|[]].
Qed.

End LegacyConfigMapRun.

Section LegacyConfigMapRunExample.
Import types legacyConfigMap.

Definition podsRefused : client.Cluster :=
  {| client.Namespaces := ["default"];
     client.Pods := []; client.Services := []; client.Ingresses := [];
     client.Deployments := [webDeployment];
     client.ConfigMaps := [appConfig]; client.Secrets := [];
     client.IngressClasses := [];
     client.Refused := λ kind _, if decide (kind = "pods") then Some "forbidden" else None |}.

Example older_configmap_processor :
  let keysOf (m : gmap string bool) := (map_to_list m).*1 in
  let run := Process keysOf smallCluster "default" newProcessor in
  let refused := Process keysOf podsRefused "default" newProcessor in
  run.1 = None
  ∧ (λ rel, (Type_ (Source rel), Name (Source rel), Name (Target rel)))
      <$> relations run.2
    = [("Deployment", "web", "app-config")]
  ∧ Type_ <$> resources run.2 = ["ConfigMap"]
  ∧ refused.1 = None
  ∧ relations refused.2 = [].
Proof. vm_compute. done. Qed.

End LegacyConfigMapRunExample.

(** ** Details in the cluster view *)

Section ViewDetails.
Import types visualizer.

Lemma forRange_ext {A} (l : list A) (f g : nat → A → string) :
  (∀ i x, x ∈ l → f i x = g i x) → forRange l f = forRange l g.
Proof.
  unfold forRange.
  assert (∀ (h : nat → nat) (l : list A) (output : string),
            (∀ i x, x ∈ l → f i x = g i x) →
            foldl (λ output ix, output +:+ f ix.1 ix.2) output
                  (imap (λ i x, (h i, x)) l)
            = foldl (λ output ix, output +:+ g ix.1 ix.2) output
                    (imap (λ i x, (h i, x)) l)) as Hgen.
  { clear l. intros h l. revert h. induction l as [|x l IH]; intros h output Hfg;
      simpl; [done|].
    rewrite (Hfg (h 0%nat) x) by left.
    apply (IH (h ∘ S)). intros i y Hy. apply Hfg. by right. }
  intros Hfg. by apply (Hgen id).
Qed.

(** The payloads for which the renderer's type assertions succeed when
    details are shown: a [corev1.Service] or an [appsv1.Deployment]
    held by value. *)
Definition heldByValue (r : Resource) : Prop :=
  match Data r with
  | ServiceValue _ | DeploymentValue _ => True
  | _ => False
  end.

Lemma filterResourcesByType_in (v : Visualizer) (resourceType : ResourceType)
    (r : Resource) :
  r ∈ filterResourcesByType v resourceType → r ∈ Resources (resourceMapping v).
Proof.
  rewrite filterResourcesByType_filter. by intros [_ ?]%list_elem_of_filter.
Qed.

(** X21: the detail lines of the cluster view come from type
    assertions on the payload of a resource, which hold for a service
    or a deployment stored by value. When no resource of the mapping
    holds such a value, the view with details is the view without. The
    resources that the service and the deployment processors build for
    the objects they process hold pointers, and so get no detail
    line. *)
Theorem details_need_values (DisableColors : bool) (now : string)
    (v : Visualizer) (colorOutput : bool) :
  Forall (λ r, ¬ heldByValue r) (Resources (resourceMapping v)) →
  RenderClusterView DisableColors (SetOptions v true colorOutput) now
  = RenderClusterView DisableColors (SetOptions v false colorOutput) now
  ∧ (∀ svc, ¬ heldByValue (ServiceProcessor.serviceResource svc))
  ∧ (∀ deploy, ¬ heldByValue (DeploymentProcessor.deploymentResource deploy)).
Proof.
  intros Hptr. split; [|split; intros ? []].
  rewrite Forall_forall in Hptr.
  assert (renderServiceLayer DisableColors (SetOptions v true colorOutput)
          = renderServiceLayer DisableColors (SetOptions v false colorOutput)) as Hs.
  { unfold renderServiceLayer. f_equal.
    change (filterResourcesByType (SetOptions v true colorOutput))
      with (filterResourcesByType (SetOptions v false colorOutput)).
    apply forRange_ext. intros i svc Hsvc.
    apply filterResourcesByType_in in Hsvc. specialize (Hptr svc Hsvc).
    unfold heldByValue in Hptr. simpl.
    destruct (Data svc); first [done|by destruct Hptr]. }
  assert (renderWorkloadLayer DisableColors (SetOptions v true colorOutput)
          = renderWorkloadLayer DisableColors (SetOptions v false colorOutput)) as Hw.
  { unfold renderWorkloadLayer. f_equal.
    change (filterResourcesByType (SetOptions v true colorOutput))
      with (filterResourcesByType (SetOptions v false colorOutput)).
    apply forRange_ext. intros i deploy Hdeploy.
    apply filterResourcesByType_in in Hdeploy. specialize (Hptr deploy Hdeploy).
    unfold heldByValue in Hptr. simpl.
    destruct (Data deploy); first [done|by destruct Hptr]. }
  unfold RenderClusterView. rewrite Hs, Hw. reflexivity.
Qed.

(** X21 at the resources that the two processors build for the service
    [web] and the deployment [web]. *)
Lemma details_need_values_witness :
  let v := NewVisualizer
             {| Resources := [ ServiceProcessor.serviceResource webService;
                               DeploymentProcessor.deploymentResource webDeployment ];
                Relationships := [] |} in
  Forall (λ r, ¬ heldByValue r) (Resources (resourceMapping v))
  ∧ RenderClusterView false (SetOptions v true true) "now"
    = RenderClusterView false (SetOptions v false true) "now".
Proof.
  assert (Forall (λ r, ¬ heldByValue r)
            [ ServiceProcessor.serviceResource webService;
              DeploymentProcessor.deploymentResource webDeployment ]) as Hptr.
  { apply Forall_cons_2; [exact (λ H, H)|].
    apply Forall_cons_2; [exact (λ H, H)|]. apply Forall_nil_2. }
  split; [exact Hptr|].
  exact (proj1 (details_need_values false "now"
                  (NewVisualizer
                     {| Resources :=
                          [ ServiceProcessor.serviceResource webService;
                            DeploymentProcessor.deploymentResource webDeployment ];
                        Relationships := [] |})
                  true Hptr)).
Defined.

(** The same service stored by value gets its two detail lines. *)
Example details_of_a_value :
  let byValue := {| Type_ := ResourceTypeService; Name := "web"; Namespace := "default";
                    Labels := ∅; Data := ServiceValue webService; Status := noStatus |} in
  let view r := renderServiceLayer true
                  (SetOptions (NewVisualizer {| Resources := [r]; Relationships := [] |})
                              true false) in
  view byValue
    = "[Service Layer]" +:+ utils.LF +:+
      "└── ● Service/web" +:+ utils.LF +:+
      "      ℹ Type: ClusterIP" +:+ utils.LF +:+
      "      ℹ Ports: 80→8080/TCP" +:+ utils.LF
  ∧ view (ServiceProcessor.serviceResource webService)
    = "[Service Layer]" +:+ utils.LF +:+
      "└── ● Service/web" +:+ utils.LF.
Proof. vm_compute. done. Qed.

End ViewDetails.

(** ** Pods that use a ConfigMap *)

Section PodUsage.
Import types ConfigMapProcessor.

Variable c : client.Cluster.
Variable cm : ConfigMap.t.
Variable cmResource : Resource.

(** The usage modes of a pod spec, as [mapKeysToSlice] returns them. *)
Definition usageModes (spec : PodSpec.t) : list string :=
  (if viaEnvFrom spec (ConfigMap.Name cm) then ["environment"] else []) ++
  (if viaEnv spec (ConfigMap.Name cm) then ["environment variable"] else []) ++
  (if viaVolume spec (ConfigMap.Name cm) then ["volume"] else []).

Lemma findConfigMapUsageInPod_modes (pod : Pod.t) :
  findConfigMapUsageInPod pod (ConfigMap.Name cm) = usageModes (Pod.Spec pod).
Proof. apply (findConfigMapUsageInPodTemplate_sorted (Pod.Spec pod)). Qed.

Lemma usageModes_refers (spec : PodSpec.t) :
  bool_decide (0 < length (usageModes spec))%nat = refersToConfig spec (ConfigMap.Name cm).
Proof.
  unfold usageModes, refersToConfig.
  by destruct (viaVolume spec _), (viaEnvFrom spec _), (viaEnv spec _).
Qed.

Definition podUsesEdge (pod : Pod.t) : Relationship :=
  {| Source := ServiceProcessor.podResource pod;
     Target := cmResource;
     RelType := RelationshipTypeUses;
     Description := "uses as " +:+ Join (usageModes (Pod.Spec pod)) ", " |}.

(** The listed pods whose spec refers to the ConfigMap. *)
Definition usingPods (pods : list Pod.t) : list Pod.t :=
  filter (λ pod, refersToConfig (Pod.Spec pod) (ConfigMap.Name cm) = true) pods.

(** X22: [processPodUsage] fails only when the pods of the ConfigMap's
    namespace cannot be listed. Otherwise it adds, for each listed pod
    whose spec refers to the ConfigMap through a volume, an [envFrom] or
    an [env] entry, and for no other pod, the pod resource and one
    [uses] edge to the ConfigMap; the description of the edge names each
    usage mode once, in lexicographic order. *)
Theorem pods_using_a_configmap (p : Processor) :
  let request :=
    client.ReqList "pods" (ConfigMap.Namespace cm) client.SelEverything in
  match client.ListPods c (ConfigMap.Namespace cm) client.SelEverything with
  | inl err =>
      processPodUsage c cm cmResource p
      = (Err ("failed to list pods: " +:+ err), extend p [] [] [request])
  | inr pods =>
      processPodUsage c cm cmResource p
      = (Ok tt, extend p (ServiceProcessor.podResource <$> usingPods pods)
                         (podUsesEdge <$> usingPods pods)
                         [request])
  end.
Proof.
  intros request.
  destruct (client.ListPods c (ConfigMap.Namespace cm) client.SelEverything)
    as [err|pods] eqn:Hlist.
  { unfold processPodUsage, bind at 1. by rewrite call_extend, Hlist. }
  unfold processPodUsage, bind at 1. rewrite call_extend, Hlist.
  rewrite (forM_extend _
             (λ pod, if refersToConfig (Pod.Spec pod) (ConfigMap.Name cm)
                     then [ServiceProcessor.podResource pod] else [])
             (λ pod, if refersToConfig (Pod.Spec pod) (ConfigMap.Name cm)
                     then [podUsesEdge pod] else [])
             (λ _, [])).
  - rewrite extend_extend, flat_map_nil, app_nil_r, !app_nil_l. f_equal.
    unfold usingPods.
    f_equal; clear; induction pods as [|pod pods IH]; simpl; try done;
      rewrite filter_cons, IH;
      by destruct (refersToConfig (Pod.Spec pod) (ConfigMap.Name cm)).
  - intros pod q _. rewrite findConfigMapUsageInPod_modes.
    rewrite <- usageModes_refers.
    destruct (decide _) as [Hpos|Hpos].
    + rewrite (bool_decide_eq_true_2 _ Hpos).
      unfold bind. rewrite addResource_extend, addRelationship_extend.
      by rewrite extend_extend.
    + rewrite (bool_decide_eq_false_2 _ Hpos). by rewrite extend_nil.
Qed.

End PodUsage.

(** ** The status of a service *)

Section ServiceStatus.
Import types ServiceProcessor.

Lemma getNodePorts_filter (svc : Service.t) :
  getNodePorts svc
  = Join (fmt_d <$> filter (λ nodePort, nodePort > 0)
                      (ServicePort.NodePort <$> Service.Ports svc)) ", ".
Proof.
  unfold getNodePorts. f_equal.
  assert (∀ ports init,
    foldl (λ ports port,
             if decide (ServicePort.NodePort port > 0)
             then ports ++ [fmt_d (ServicePort.NodePort port)]
             else ports) init ports
    = init ++ (fmt_d <$> filter (λ nodePort, nodePort > 0)
                           (ServicePort.NodePort <$> ports))) as Hloop.
  { induction ports as [|port ports IH]; intros init; simpl.
    - by rewrite app_nil_r.
    - rewrite IH, filter_cons.
      destruct (decide (ServicePort.NodePort port > 0)); [|done].
      by rewrite fmap_cons, <- app_assoc. }
  apply Hloop.
Qed.

(** X23: [getServiceStatus] reports a service as pending and not ready
    exactly when its type is LoadBalancer and it has no load-balancer
    entry; every other service is active and ready. A LoadBalancer with
    entries shows the IP of the first entry, its host name when the IP
    is empty, and ["pending"] when both are. A NodePort service shows
    its positive node ports in the declared order, and a service of
    another type than the three known ones shows no details. *)
Theorem service_status (svc : Service.t) :
  let status := getServiceStatus svc in
  (Ready status = false ↔ Service.Type_ svc = "LoadBalancer" ∧ Service.LoadBalancer svc = [])
  ∧ (Phase status = if Ready status then "Active" else "Pending")
  ∧ Details status
    = (if decide (Service.Type_ svc = "LoadBalancer") then
         match Service.LoadBalancer svc with
         | [] => "Waiting for LoadBalancer"
         | (ip, hostname) :: _ =>
             "LoadBalancer: " +:+
             (if decide (ip = "") then
                if decide (hostname = "") then "pending" else hostname
              else ip)
         end
       else if decide (Service.Type_ svc = "NodePort") then
         "NodePorts: " +:+
         Join (fmt_d <$> filter (λ nodePort, nodePort > 0)
                           (ServicePort.NodePort <$> Service.Ports svc)) ", "
       else if decide (Service.Type_ svc = "ClusterIP") then
         "ClusterIP: " +:+ Service.ClusterIP svc
       else "").
Proof.
  intros status. subst status. unfold getServiceStatus.
  rewrite <- getNodePorts_filter. unfold getLoadBalancerAddress.
  destruct (decide (Service.Type_ svc = "LoadBalancer")) as [Hlb|Hlb].
  - destruct (Service.LoadBalancer svc) as [|[ip hostname] rest]; simpl.
    + split; [done|]. done.
    + split; [|done]. split; [done|]. by intros [_ ?].
  - destruct (decide (Service.Type_ svc = "NodePort")); simpl.
    + split; [|done]. split; [done|]. by intros [? _].
    + destruct (decide (Service.Type_ svc = "ClusterIP")); simpl;
        (split; [|done]); (split; [done|]); by intros [? _].
Qed.

End ServiceStatus.

(** ** The older and the newer processors side by side *)

Section OldAndNew.
Import types.

(** X24: the older ConfigMap processor finds the same usage modes as
    the newer one. It reports a usage exactly when the newer one
    returns a non-empty list, and when the map yields each of its keys
    once, the text it prints is the newer list joined with [", "] after
    some reordering: sorting its tokens gives the newer description. *)
Theorem older_usage_is_a_reordering (keysOf : gmap string bool → list string)
    (spec : PodSpec.t) (configMapName : string) :
  (∀ m, keysOf m ≡ₚ (map_to_list m).*1) →
  let newer := ConfigMapProcessor.findConfigMapUsageInPodTemplate spec configMapName in
  let older := legacyConfigMap.findConfigMapUsage keysOf spec configMapName in
  older.1 = bool_decide (newer ≠ [])
  ∧ ∃ tokens, older.2 = Join tokens ", "
              ∧ tokens ≡ₚ newer
              ∧ merge_sort String.le tokens = newer.
Proof.
  intros Hkeys newer older. subst newer older.
  unfold legacyConfigMap.findConfigMapUsage,
    ConfigMapProcessor.findConfigMapUsageInPodTemplate.
  set (usageTypes := ConfigMapProcessor.usageTypesOf spec configMapName).
  assert (ConfigMapProcessor.mapKeysToSlice usageTypes ≡ₚ (map_to_list usageTypes).*1)
    as Hsorted.
  { unfold ConfigMapProcessor.mapKeysToSlice. rewrite (foldl_append_map fst). simpl.
    by rewrite merge_sort_Permutation. }
  destruct (decide (size usageTypes = 0)%nat) as [Hsize|Hsize]; simpl.
  - apply map_size_empty_iff in Hsize. rewrite Hsize in *. split; [done|].
    exists []. by repeat split.
  - split.
    + symmetry. apply bool_decide_eq_true. intros Hnil. rewrite Hnil in Hsorted.
      apply Permutation_nil_l in Hsorted. symmetry in Hsorted.
      apply fmap_nil_inv in Hsorted.
      apply map_to_list_empty_iff in Hsorted. apply Hsize.
      by rewrite Hsorted, map_size_empty.
    + exists (keysOf usageTypes). rewrite (foldl_append_map id), map_id. simpl.
      split; [done|]. split.
      * by rewrite Hkeys, Hsorted.
      * by apply mapKeysToSlice_any_order.
Qed.

(** X24 with the keys in the order of [map_to_list], at the pod
    template of the deployment [web]. *)
Lemma older_usage_is_a_reordering_witness :
  let keysOf (m : gmap string bool) := (map_to_list m).*1 in
  let newer := ConfigMapProcessor.findConfigMapUsageInPodTemplate
                 (Deployment.Template webDeployment) "app-config" in
  let older := legacyConfigMap.findConfigMapUsage keysOf
                 (Deployment.Template webDeployment) "app-config" in
  (∀ m, keysOf m ≡ₚ (map_to_list m).*1)
  ∧ older.1 = bool_decide (newer ≠ [])
  ∧ ∃ tokens, older.2 = Join tokens ", "
              ∧ tokens ≡ₚ newer
              ∧ merge_sort String.le tokens = newer.
Proof.
  split; [intros m; reflexivity|].
  exact (older_usage_is_a_reordering (λ m, (map_to_list m).*1)
           (Deployment.Template webDeployment) "app-config"
           (λ m, reflexivity _)).
Defined.

Definition targetsOnly (relations : list Relationship) : list Relationship :=
  filter (λ rel, RelType rel = RelationshipTypeTargets) relations.

Lemma targetsOnly_targetsOf (svc : Service.t) (pods : list Pod.t) :
  targetsOnly (targetsOf svc pods) = targetsOf svc pods.
Proof.
  unfold targetsOnly, targetsOf. destruct (Service.Ports svc); [done|].
  apply filter_all. by intros rel (pod & -> & _)%list_elem_of_fmap.
Qed.

Lemma targetsOnly_exposesOf (svc : Service.t) (ingresses : list Ingress.t) :
  targetsOnly (exposesOf svc ingresses) = [].
Proof.
  unfold targetsOnly, exposesOf. apply filter_none. intros rel Hin.
  apply list_elem_of_In, in_flat_map in Hin as (ing & _ & Hin).
  apply in_map_iff in Hin as (entry & <- & _). done.
Qed.

(** X25: the older and the newer service processor target the same
    pods. For a service with a selector whose pods can be listed, when
    the older loop body gets through the service without a panic, its
    [targets] edges reach, in the same order, resources with the same
    type, namespace and name as those of the edges that the newer
    [processPods] records. *)
Theorem both_processors_target_the_same_pods (c : client.Cluster) (svc : Service.t)
    (svcResource : Resource) (matchLabels : gmap string string)
    (pods : list Pod.t) (older : Processor) :
  Service.Selector svc = Some matchLabels →
  client.ListPods c (Service.Namespace svc) (client.FormatLabelSelector matchLabels)
    = inr pods →
  legacy.processOne c (Service.Namespace svc) newProcessor svc = Some older →
  let newer := (ServiceProcessor.processPods c svc svcResource newProcessor).2 in
  (λ rel, identity (Target rel)) <$> targetsOnly (relations older)
  = (λ rel, identity (Target rel)) <$> relations newer
  ∧ length (relations newer) = length pods.
Proof.
  intros Hsel Hlist Holder newer. subst newer.
  rewrite (processPods_lists c svc svcResource matchLabels pods newProcessor Hsel Hlist).
  rewrite legacy_processOne_cases in Holder.
  destruct (decide (survives c (Service.Namespace svc) svc)) as [Hsurvives|]; [|done].
  injection Holder as <-. simpl.
  unfold edgesOf, survives, selectedPods in *. rewrite Hsel, Hlist in *.
  destruct Hsurvives as [Hports _].
  unfold targetsOnly. rewrite filter_app. fold (targetsOnly (targetsOf svc pods)).
  rewrite targetsOnly_targetsOf.
  assert (filter (λ rel, RelType rel = RelationshipTypeTargets)
            match client.ListIngresses c (Service.Namespace svc) with
            | inl _ => []
            | inr ingresses => exposesOf svc ingresses
            end = []) as ->.
  { destruct (client.ListIngresses c (Service.Namespace svc)); [done|].
    apply targetsOnly_exposesOf. }
  rewrite app_nil_r, length_map. split; [|done].
  unfold targetsOf. destruct (Service.Ports svc) as [|port0 ports].
  - destruct Hports as [->|?]; done.
  - rewrite <- !list_fmap_compose. by apply list_fmap_ext.
Qed.

(** X25 at the service [web] and the pods of [app=web]. *)
Lemma both_processors_target_the_same_pods_witness :
  let svc := serviceSelecting (Some {["app" := "web"]}) in
  let newer := (ServiceProcessor.processPods podCluster svc
                  (ServiceProcessor.serviceResource svc) newProcessor).2 in
  ∃ older,
    legacy.processOne podCluster "default" newProcessor svc = Some older
    ∧ (λ rel, identity (Target rel)) <$> targetsOnly (relations older)
      = (λ rel, identity (Target rel)) <$> relations newer
    ∧ length (relations newer) = 2%nat.
Proof.
  eexists. split; [vm_compute; reflexivity|].
  refine (both_processors_target_the_same_pods podCluster
            (serviceSelecting (Some {["app" := "web"]}))
            (ServiceProcessor.serviceResource (serviceSelecting (Some {["app" := "web"]})))
            {["app" := "web"]}
            [ podNamed "web-1" "default" {["app" := "web"]};
              podNamed "web-2" "default" {["app" := "web"; "tier" := "front"]} ]
            _ eq_refl _ _).
  - vm_compute. reflexivity.
  - vm_compute. reflexivity.
Defined.

End OldAndNew.

(** ** A ConfigMap used in the three ways at once *)

Section ThreeUsageModes.
Import types.

Variable getDeploymentPhase : Deployment.t → string.
Variable keysOf : gmap string bool → list string.
Variable c : client.Cluster.





Variable cm : ConfigMap.t.
Variable deploy : Deployment.t.





Hypothesis three_modes :
  viaVolume (Deployment.Template deploy) (ConfigMap.Name cm) = true
  ∧ viaEnvFrom (Deployment.Template deploy) (ConfigMap.Name cm) = true
  ∧ viaEnv (Deployment.Template deploy) (ConfigMap.Name cm) = true.





End ThreeUsageModes.

Section ThreeUsageModesEdges.
Import types.





End ThreeUsageModesEdges.

(** ** The cluster view, layer by layer *)

Section RenderedLayers.
Import types visualizer.

(** The texts of a list, one after the other. *)
Definition concatenated (l : list string) : string :=
  foldr String.append "" l.

(** A [range] loop writes the texts of its iterations one after the
    other, in the order of the slice. *)
Lemma forRange_concatenated {A} (l : list A) (body : nat → A → string) :
  forRange l body = concatenated (imap body l).
Proof.
  unfold forRange.
  assert (∀ (h : nat → nat) (output : string),
            foldl (λ output ix, output +:+ body ix.1 ix.2) output
                  (imap (λ i x, (h i, x)) l)
            = output +:+ concatenated (imap (λ i x, body (h i) x) l)) as Hgen.
  { induction l as [|x l IH]; intros h output; simpl.
    - by rewrite string_app_empty_r.
    - rewrite (IH (h ∘ S)). simpl. by rewrite string_app_assoc. }
  exact (Hgen id "").
Qed.

Lemma app_inj_r (x y s : string) : x +:+ s = y +:+ s → x = y.
Proof.
  revert y. induction x as [|a x IH]; intros [|b y] Heq.
  - done.
  - apply (f_equal String.length) in Heq.
    rewrite !length_app_string in Heq. simpl in Heq. lia.
  - apply (f_equal String.length) in Heq.
    rewrite !length_app_string in Heq. simpl in Heq. lia.
  - rewrite !app_cons in Heq. injection Heq as -> Heq. f_equal. by apply IH.
Qed.

Variable DisableColors : bool.

Lemma ColorizedPrintf_inj (color text text' : string) :
  utils.ColorizedPrintf DisableColors color text
  = utils.ColorizedPrintf DisableColors color text' → text = text'.
Proof.
  unfold utils.ColorizedPrintf. destruct DisableColors; [done|].
  intros Heq. apply (inj (String.app color)) in Heq. by apply app_inj_r in Heq.
Qed.

Lemma renderHeader_inj (now now' : string) :
  renderHeader DisableColors now = renderHeader DisableColors now' → now = now'.
Proof.
  unfold renderHeader. intros Heq.
  do 4 apply (inj (String.app _)) in Heq.
  apply ColorizedPrintf_inj in Heq. by apply (inj (String.app _)) in Heq.
Qed.

Variable v : Visualizer.

(** The resources of a type, in the order of the mapping. *)
Definition listed (resourceType : ResourceType) : list Resource :=
  filter (λ r, Type_ r = resourceType) (Resources (resourceMapping v)).

(** The line that names the resource at index [i] of its layer: the
    branch (or, for the last one, the corner), the dot in the colour of
    the layer, and the type and name of the resource. *)
Definition resourceLine (color : string) (resourceType : ResourceType)
    (i : nat) (r : Resource) : string :=
  getPrefix (lastIndex (listed resourceType) i) +:+ colorize v color dotSymbol +:+ " " +:+
  formatResource DisableColors r +:+ utils.LF.

(** [presents layer title color resourceType]: the text [layer] is the
    title line followed by one block per resource of the type, in the
    order of the mapping; each block starts with the line of its
    resource and goes on with what is shown under it. *)
Definition presents (layer title color : string) (resourceType : ResourceType) : Prop :=
  ∃ under : nat → Resource → string,
    layer
    = utils.ColorizedPrintf DisableColors utils.ColorBlue (title +:+ utils.LF) +:+
      concatenated (imap (λ i r, resourceLine color resourceType i r +:+ under i r)
                         (listed resourceType)).

Lemma imap_ext_concatenated {A} (f g : nat → A → string) (l : list A) :
  (∀ i x, f i x = g i x) → concatenated (imap f l) = concatenated (imap g l).
Proof. intros Hfg. f_equal. by apply imap_ext. Qed.

(** C6, amended: a rendering is the header, which shows the clock
    reading [now], followed by a body that depends on the mapping and
    the options only; two renderings of the same frozen mapping with
    the same options are byte-identical exactly when they are made at
    the same clock reading. Each of the four layers lists the resources
    of its type in the order in which they occur in the mapping,
    without sorting: its text is the title followed by one block per
    such resource, in that order, each block starting with the line of
    its resource. *)
Theorem render_deterministic_up_to_clock :
  (∃ body, ∀ now,
      RenderClusterView DisableColors v now
      = renderHeader DisableColors now +:+ body)
  ∧ (∀ now now',
       RenderClusterView DisableColors v now = RenderClusterView DisableColors v now'
       ↔ now = now')
  ∧ (∀ resourceType,
       filterResourcesByType v resourceType = listed resourceType
       ∧ listed resourceType `sublist_of` Resources (resourceMapping v))
  ∧ presents (renderIngressLayer DisableColors v) "[Ingress Layer]"
             utils.ColorMagenta ResourceTypeIngress
  ∧ presents (renderServiceLayer DisableColors v) "[Service Layer]"
             utils.ColorBlue ResourceTypeService
  ∧ presents (renderWorkloadLayer DisableColors v) "[Workload Layer]"
             utils.ColorYellow ResourceTypeDeployment
  ∧ presents (renderStorageLayer DisableColors v) "[Storage Layer]"
             utils.ColorYellow ResourceTypeConfigMap.
Proof.
  split; [|split; [|split; [|split; [|split; [|split]]]]].
  - eexists. intros now. unfold RenderClusterView. reflexivity.
  - intros now now'. split; [|by intros ->].
    unfold RenderClusterView. intros Heq.
    apply app_inj_r in Heq. by apply renderHeader_inj.
  - intros resourceType. split; [apply filterResourcesByType_filter|].
    apply sublist_filter.
  - unfold presents, renderIngressLayer, resourceLine.
    rewrite filterResourcesByType_filter. fold (listed ResourceTypeIngress).
    eexists (λ i ingress, _). f_equal. rewrite forRange_concatenated.
    apply imap_ext_concatenated. intros i ingress. cbv zeta.
    rewrite !string_app_assoc. reflexivity.
  - unfold presents, renderServiceLayer, resourceLine.
    rewrite filterResourcesByType_filter. fold (listed ResourceTypeService).
    eexists (λ i svc, _). f_equal. rewrite forRange_concatenated.
    apply imap_ext_concatenated. intros i svc. cbv zeta.
    rewrite !string_app_assoc. reflexivity.
  - unfold presents, renderWorkloadLayer, resourceLine.
    rewrite filterResourcesByType_filter. fold (listed ResourceTypeDeployment).
    eexists (λ i deploy, _). f_equal. rewrite forRange_concatenated.
    apply imap_ext_concatenated. intros i deploy. cbv zeta.
    rewrite !string_app_assoc. reflexivity.
  - unfold presents, renderStorageLayer, resourceLine.
    rewrite filterResourcesByType_filter. fold (listed ResourceTypeConfigMap).
    eexists (λ i cm, _). f_equal. rewrite forRange_concatenated.
    apply imap_ext_concatenated. intros i cm. cbv zeta.
    rewrite !string_app_assoc. reflexivity.
Qed.

End RenderedLayers.
